(** * VIbe backend: a shallow embedding of the route handlers

    The backend (apps/backend/src) is a set of Elysia route modules
    (auth, users, posts, marketplace, video) whose handlers read and write
    module-level arrays.  This development embeds the handlers as functions
    on an explicit store and proves the properties the specification states
    about them.

    Conventions of the embedding.
    - A JavaScript [number] is the rational ([Q]) that the double is: the
      validated numbers are finite.  Comparisons are exact.  The marketplace
      listing computes its indices and its number of pages as the doubles
      do, each operation rounded ([JS.fl]); the posts feed and the room
      history are stated for an integral page and limit, and their
      arithmetic is taken exactly.  A [Date] is its millisecond
      timestamp ([Z]).  An optional property is an [option]; [None] is
      [undefined].
    - A [User] object is shared: the object pushed to [users] on
      registration is the one the authentication middleware hands to the
      handlers as [currentUser], and the one posts, products and rooms keep
      in [author], [seller], [host] and [participants].  Users are never
      removed from [users], so the identity of a user object is its position
      in that array ([UserRef]); entities store references, and
      [Object.assign(currentUser, ...)] is an update of the [users] array
      at that position.
    - [crypto.randomUUID()], [new Date()] and the jwt plugin are the
      environment of a request ([Env]).
    - A string holds the UTF-8 bytes of the JavaScript string, the form
      in which text arrives and leaves.  On well-formed text [===] and
      [includes] are the same on the bytes and on the UTF-16 code units
      of the engine; [length] and the relational operators read the code
      units, which [JS.code_units] recovers from the bytes.
      [String.prototype.toLowerCase] is the engine's, and belongs to the
      environment.
    - A validated request body or query is a record of the properties its
      schema declares. *)

From Stdlib Require Import Ascii String QArith Qround Qabs Qpower Lqa.
From Stdlib Require Import Sorting.Sorted Sorting.Permutation.
From stdpp Require Import gmap strings list fin_maps.

Local Open Scope string_scope.
Local Open Scope Z_scope.

(** ** JavaScript values and built-ins used by the handlers *)

Module JS.

(** [!s] is false exactly for a defined, non-empty string. *)
Definition truthy (s : option string) : bool :=
  match s with
  | Some s' => negb (String.eqb s' "")
  | None => false
  end.

(** The value of a byte, and the six low bits a continuation byte
    carries. *)
Definition byte (c : ascii) : Z := Z.of_nat (nat_of_ascii c).

Definition payload (c : ascii) : Z := Z.land (byte c) 63.

(** The code points of a string, decoded from its UTF-8 bytes: a lead
    byte below [0xC0] stands for itself, one below [0xE0] opens a sequence
    of two bytes, one below [0xF0] a sequence of three, any other a
    sequence of four. *)
Fixpoint code_points (s : string) : list Z :=
  match s with
  | EmptyString => []
  | String a s1 =>
      let b := byte a in
      if b <? 192 then b :: code_points s1
      else
        match s1 with
        | EmptyString => [b]
        | String a1 s2 =>
            if b <? 224 then
              (Z.land b 31 * 64 + payload a1) :: code_points s2
            else
              match s2 with
              | EmptyString => [b]
              | String a2 s3 =>
                  if b <? 240 then
                    ((Z.land b 15 * 64 + payload a1) * 64 + payload a2)
                    :: code_points s3
                  else
                    match s3 with
                    | EmptyString => [b]
                    | String a3 s4 =>
                        (((Z.land b 7 * 64 + payload a1) * 64
                          + payload a2) * 64 + payload a3)
                        :: code_points s4
                    end
              end
        end
  end.

(** The UTF-16 code units of a code point: itself in the basic plane, a
    surrogate pair beyond. *)
Definition utf16 (c : Z) : list Z :=
  if c <? 65536 then [c]
  else [55296 + (c - 65536) / 1024; 56320 + (c - 65536) mod 1024].

(** The code units of a string, which is what the engine holds. *)
Definition code_units (s : string) : list Z :=
  flat_map utf16 (code_points s).

(** [l < m] on sequences of code units: the first difference decides,
    and a proper prefix comes first. *)
Fixpoint lex_ltb (l m : list Z) : bool :=
  match l, m with
  | _, [] => false
  | [], _ :: _ => true
  | x :: l', y :: m' => (x <? y) || ((x =? y) && lex_ltb l' m')
  end.

(** [s < t] on two strings. *)
Definition string_lt (s t : string) : bool :=
  lex_ltb (code_units s) (code_units t).

(** [s.startsWith(t)]. *)
Fixpoint startsWith (s t : string) {struct t} : bool :=
  match t, s with
  | EmptyString, _ => true
  | String _ _, EmptyString => false
  | String b t', String a s' => Ascii.eqb a b && startsWith s' t'
  end.

(** [s.includes(t)]. *)
Fixpoint includes (s t : string) : bool :=
  startsWith s t ||
  match s with
  | EmptyString => false
  | String _ s' => includes s' t
  end.

(** [l.join(",")], the string conversion of an array of strings. *)
Definition join (l : list string) : string := String.concat "," l.

(** [Math.trunc], which is what [slice] applies to its arguments. *)
Definition trunc (q : Q) : Z :=
  if Qle_bool 0 q then Qfloor q else Qceiling q.

(** [Math.ceil]. *)
Definition ceil (q : Q) : Z := Qceiling q.

(** The exponent of a positive number: [2^e <= q < 2^(e+1)]. *)
Definition exponent (q : Q) : Z :=
  let e := Z.log2 (Qnum q) - Z.log2 (Zpos (Qden q)) in
  if Qle_bool (2 ^ e) q then e else e - 1.

(** The integer nearest to [q], the even one of two that are as near. *)
Definition nearest_even (q : Q) : Z :=
  let f := Qfloor q in
  match (q - inject_Z f ?= 1 # 2)%Q with
  | Lt => f
  | Gt => f + 1
  | Eq => if Z.even f then f else f + 1
  end.

(** The unit in the last place of a double: 53 significant bits, and
    never finer than [2^-1074]. *)
Definition ulp (q : Q) : Q :=
  (2 ^ (Z.max (exponent (Qabs q)) (-1022) - 52))%Q.

(** The double nearest to [q], ties to even: the value an arithmetic
    operation returns for the exact result [q].  Beyond the largest
    double the code has [Infinity], which is not modelled; [slice] reads
    it as past the end of the array, as it reads the value kept here. *)
Definition fl (q : Q) : Q :=
  if Qeq_bool q 0 then 0%Q
  else (inject_Z (nearest_even (q / ulp q)) * ulp q)%Q.

(** [x + y], [x - y], [x * y] and [x / y] on numbers. *)
Definition add (x y : Q) : Q := fl (x + y).
Definition sub (x y : Q) : Q := fl (x - y).
Definition mul (x y : Q) : Q := fl (x * y).
Definition div (x y : Q) : Q := fl (x / y).

Section Arrays.
Context {A : Type}.

(** [l.find(f)]: the first element [f] accepts, with its position,
    which is the identity of the object found. *)
Definition find (f : A → bool) (l : list A) : option (nat * A) :=
  list_find (λ x, f x = true) l.

(** [l.findIndex(f)]; [None] is [-1]. *)
Definition findIndex (f : A → bool) (l : list A) : option nat :=
  fst <$> find f l.

(** [l.some(f)]. *)
Definition some (f : A → bool) (l : list A) : bool := existsb f l.

(** [l.push(x)]. *)
Definition push (x : A) (l : list A) : list A := l ++ [x].

(** [l.unshift(x)]. *)
Definition unshift (x : A) (l : list A) : list A := x :: l.

(** [l.splice(i, 1)]. *)
Definition splice1 (i : nat) (l : list A) : list A := delete i l.

(** An index argument of [slice], relative to the length [n]. *)
Definition clamp (n : nat) (k : Z) : nat :=
  if k <? 0 then Z.to_nat (Z.max (Z.of_nat n + k) 0)
  else Nat.min (Z.to_nat k) n.

(** [l.slice(s, e)]. *)
Definition slice (s e : Q) (l : list A) : list A :=
  let k := clamp (length l) (trunc s) in
  let f := clamp (length l) (trunc e) in
  take (f - k) (drop k l).

(** One step of the insertion: [x] goes before the first element it
    compares below. *)
Fixpoint insert_sorted (cmp : A → A → Z) (x : A) (l : list A) : list A :=
  match l with
  | [] => [x]
  | y :: l' => if cmp x y <? 0 then x :: y :: l'
               else y :: insert_sorted cmp x l'
  end.

(** [l.sort(cmp)].  The array is sorted by insertion from left to
    right; each element is placed by the sign of [cmp x y], as the
    engines' binary insertion does.  For a consistent comparator this
    is the stable order ECMAScript requires. *)
Definition sort (cmp : A → A → Z) (l : list A) : list A :=
  fold_left (λ acc x, insert_sorted cmp x acc) l [].
End Arrays.

(** [s.indexOf(x)] on an array of strings. *)
Definition indexOf (x : string) (l : list string) : option nat :=
  findIndex (String.eqb x) l.

(** The value of a digit in the given radix. *)
Definition digit_of (radix : Z) (c : ascii) : option Z :=
  let n := Z.of_nat (nat_of_ascii c) in
  let d := if (48 <=? n) && (n <=? 57) then Some (n - 48)
           else if (97 <=? n) && (n <=? 122) then Some (n - 87)
           else if (65 <=? n) && (n <=? 90) then Some (n - 55)
           else None in
  match d with
  | Some v => if v <? radix then Some v else None
  | None => None
  end.

(** The value of the longest prefix of digits; [acc] is [None] until a
    digit has been read. *)
Fixpoint digits (radix : Z) (acc : option Z) (s : string) : option Z :=
  match s with
  | EmptyString => acc
  | String c s' =>
      match digit_of radix c with
      | Some d => digits radix (Some (from_option id 0 acc * radix + d)) s'
      | None => acc
      end
  end.

Definition is_space (c : ascii) : bool :=
  let n := nat_of_ascii c in
  ((9 <=? n) && (n <=? 13) || (n =? 32))%nat.

Fixpoint skip_spaces (s : string) : string :=
  match s with
  | String c s' => if is_space c then skip_spaces s' else s
  | EmptyString => s
  end.

(** The digits after an optional [0x] prefix, with their radix. *)
Definition unsigned_digits (s : string) : option Z :=
  match s with
  | String "0" (String "x" s') | String "0" (String "X" s') =>
      digits 16 None s'
  | _ => digits 10 None s
  end.

(** [parseInt(s)] on ASCII input; [None] is [NaN]. *)
Definition parseInt (s : string) : option Z :=
  match skip_spaces s with
  | String "-" s' => Z.opp <$> unsigned_digits s'
  | String "+" s' => unsigned_digits s'
  | s' => unsigned_digits s'
  end.

(** [s.length]: the number of code units. *)
Definition length (s : string) : nat := List.length (code_units s).

End JS.

(** ** Data model *)

(** The identity of a user object: its position in [users]. *)
Definition UserRef := nat.

(** A [Date], as milliseconds since the epoch. *)
Definition Date := Z.

(** shared/database.ts, [User]. *)
Record User := mkUser {
  u_id : string;
  u_email : string;
  u_username : string;
  u_firstName : string;
  u_lastName : string;
  u_avatar : option string;
  u_bio : option string;
  u_location : option string;
  u_website : option string;
  u_createdAt : Date;
  u_updatedAt : Date
}.

(** routes/posts.ts, [Comment]. *)
Record Comment := mkComment {
  c_id : string;
  c_content : string;
  c_author : UserRef;
  c_postId : string;
  c_createdAt : Date;
  c_updatedAt : Date
}.

(** routes/posts.ts, [Post]. *)
Record Post := mkPost {
  p_id : string;
  p_content : string;
  p_author : UserRef;
  p_images : list string;
  p_likes : list string;
  p_comments : list Comment;
  p_createdAt : Date;
  p_updatedAt : Date
}.

Inductive Condition := CNew | CLikeNew | CGood | CFair | CPoor.
Inductive ProductStatus := Available | Sold | Reserved.
Inductive RoomStatus := Waiting | Active | Ended.
Inductive SortOrder := Asc | Desc.

#[global] Instance Condition_eq_dec : EqDecision Condition.
Proof. solve_decision. Defined.
#[global] Instance ProductStatus_eq_dec : EqDecision ProductStatus.
Proof. solve_decision. Defined.
#[global] Instance RoomStatus_eq_dec : EqDecision RoomStatus.
Proof. solve_decision. Defined.

(** The string literals of the enumerations. *)
Definition condition_str (c : Condition) : string :=
  match c with
  | CNew => "new" | CLikeNew => "like-new" | CGood => "good"
  | CFair => "fair" | CPoor => "poor"
  end.

Definition product_status_str (s : ProductStatus) : string :=
  match s with
  | Available => "available" | Sold => "sold" | Reserved => "reserved"
  end.

(** routes/marketplace.ts, [Product]. *)
Record Product := mkProduct {
  pr_id : string;
  pr_title : string;
  pr_description : string;
  pr_price : Q;
  pr_currency : string;
  pr_category : string;
  pr_condition : Condition;
  pr_images : list string;
  pr_seller : UserRef;
  pr_location : option string;
  pr_status : ProductStatus;
  pr_tags : list string;
  pr_createdAt : Date;
  pr_updatedAt : Date
}.

(** routes/video.ts, [VideoRoom]. *)
Record VideoRoom := mkRoom {
  r_id : string;
  r_name : string;
  r_description : option string;
  r_host : UserRef;
  r_participants : list UserRef;
  r_isPrivate : bool;
  r_maxParticipants : Q;
  r_password : option string;
  r_status : RoomStatus;
  r_createdAt : Date;
  r_updatedAt : Date;
  r_endedAt : option Date
}.

(** The module-level stores. *)
Record Store := mkStore {
  users : list User;
  userCredentials : gmap string string;
  posts : list Post;
  products : list Product;
  videoRooms : list VideoRoom
}.

Definition empty_store : Store :=
  {| users := []; userCredentials := ∅; posts := []; products := [];
     videoRooms := [] |}.

(** ** Requests *)

(** routes/auth.ts *)
Record RegisterRequest := mkRegister {
  reg_email : string;
  reg_username : string;
  reg_password : string;
  reg_firstName : string;
  reg_lastName : string
}.

Record LoginRequest := mkLogin {
  login_email : string;
  login_password : string
}.

(** routes/users.ts *)
Record UpdateProfileRequest := mkUpdateProfile {
  up_firstName : option string;
  up_lastName : option string;
  up_bio : option string;
  up_location : option string;
  up_website : option string;
  up_avatar : option string
}.

(** routes/posts.ts *)
Record CreatePostRequest := mkCreatePost {
  cp_content : string;
  cp_images : option (list string)
}.

Record CreateCommentRequest := mkCreateComment {
  cc_content : string
}.

(** routes/marketplace.ts *)
Record CreateProductRequest := mkCreateProduct {
  cpr_title : string;
  cpr_description : string;
  cpr_price : Q;
  cpr_currency : string;
  cpr_category : string;
  cpr_condition : Condition;
  cpr_images : list string;
  cpr_location : option string;
  cpr_tags : list string
}.

Record UpdateProductRequest := mkUpdateProduct {
  upr_title : option string;
  upr_description : option string;
  upr_price : option Q;
  upr_condition : option Condition;
  upr_images : option (list string);
  upr_location : option string;
  upr_status : option ProductStatus;
  upr_tags : option (list string)
}.

(** The query of the product listing. *)
Record ProductQuery := mkProductQuery {
  q_page : option Q;
  q_limit : option Q;
  q_category : option string;
  q_minPrice : option Q;
  q_maxPrice : option Q;
  q_condition : option Condition;
  q_status : option ProductStatus;
  q_search : option string;
  q_sortBy : option string;
  q_sortOrder : option SortOrder
}.

(** routes/video.ts *)
Record CreateRoomRequest := mkCreateRoom {
  cr_name : string;
  cr_description : option string;
  cr_isPrivate : bool;
  cr_maxParticipants : Q;
  cr_password : option string
}.

(** [Partial<CreateRoomRequest>], the body of the room update. *)
Record UpdateRoomRequest := mkUpdateRoom {
  ur_name : option string;
  ur_description : option string;
  ur_isPrivate : option bool;
  ur_maxParticipants : option Q;
  ur_password : option string
}.

Record JoinRoomRequest := mkJoinRoom {
  jr_password : option string
}.

(** The routes of each module, after dispatch and validation. *)

(** routes/auth.ts *)
Inductive AuthRoute :=
  | PostRegister (body : RegisterRequest)
  | PostLogin (body : LoginRequest)
  | GetVerify
  | PostLogout.

(** routes/users.ts *)
Inductive UserRoute :=
  | GetMe
  | GetUser (id : string)
  | PutMe (body : UpdateProfileRequest)
  | GetUserSearch (q : string) (limit : option string)
  | GetSuggestions.

(** routes/posts.ts *)
Inductive PostRoute :=
  | PostPost (body : CreatePostRequest)
  | GetPosts (page limit : option Q)
  | GetPost (id : string)
  | PutPost (id : string) (body : CreatePostRequest)
  | DeletePost (id : string)
  | PostLike (id : string)
  | PostComment (id : string) (body : CreateCommentRequest)
  | GetComments (id : string).

(** routes/marketplace.ts *)
Inductive MarketplaceRoute :=
  | GetProducts (query : ProductQuery)
  | GetProduct (id : string)
  | PostProduct (body : CreateProductRequest)
  | PutProduct (id : string) (body : UpdateProductRequest)
  | DeleteProduct (id : string)
  | GetSellerProducts (sellerId : string)
  | GetCategories
  | PostMarkSold (id : string).

(** routes/video.ts *)
Inductive VideoRoute :=
  | PostRoom (body : CreateRoomRequest)
  | GetRooms (status : option RoomStatus)
  | GetRoom (id : string)
  | PostJoin (id : string) (body : JoinRoomRequest)
  | PostLeave (id : string)
  | PostEnd (id : string)
  | GetHistory (page limit : option Q)
  | PutRoom (id : string) (body : UpdateRoomRequest).

(** index.ts: the health check and the five groups. *)
Inductive Route :=
  | Health
  | ApiAuth (r : AuthRoute)
  | ApiUsers (r : UserRoute)
  | ApiPosts (r : PostRoute)
  | ApiMarketplace (r : MarketplaceRoute)
  | ApiVideo (r : VideoRoute).

Record Request := mkRequest {
  bearer : option string;
  route : Route
}.

(** ** The environment of a request *)

(** What [jwt.verify] resolves to: a rejection, [false], or the payload,
    of which the handlers read [userId]. *)
Inductive Verified :=
  | VerifyThrows (e : string)
  | VerifyFalse
  | VerifyPayload (userId : option string).

Record Env := mkEnv {
  (** [crypto.randomUUID()] *)
  randomUUID : string;
  (** the value of the [k]-th [new Date()] the handler evaluates *)
  now : nat → Date;
  (** [jwt.sign({ userId, email })] *)
  jwt_sign : string → string → string;
  (** [jwt.verify(token)] *)
  jwt_verify : string → Verified;
  (** [s.toLowerCase()], the lowering of the engine *)
  toLowerCase : string → string
}.

(** ** Responses *)

(** [{ ...post, likesCount, commentsCount }], or the post itself when the
    counts are absent. *)
Record PostOut := mkPostOut {
  po_post : Post;
  po_likesCount : option nat;
  po_commentsCount : option nat
}.

(** [{ ...room, password: ..., participantCount }]: a copy of the room
    whose [password] property is the one of [ro_room]; or the room itself
    when [participantCount] is absent. *)
Record RoomOut := mkRoomOut {
  ro_room : VideoRoom;
  ro_participantCount : option nat
}.

Record Pagination := mkPagination {
  pg_page : Q;
  pg_limit : Q;
  pg_total : nat;
  pg_totalPages : Z
}.

(** The objects the handlers return.  [RError] is
    [{ error: true, message }]; every other constructor is an object with
    [success: true]. *)
Inductive Response :=
  | RError (message : string)
  | RMessage (message : string)
  | RHealth
  | RAuth (user : User) (token : string)
  | RUser (user : User) (message : option string)
  | RUsers (found : list User) (total : nat)
  | RSuggestions (suggestions : list User)
  | RPost (post : PostOut) (message : option string)
  | RPosts (page : list PostOut) (pagination : Pagination)
  | RLike (liked : bool) (likesCount : nat) (message : string)
  | RComment (comment : Comment) (message : string)
  | RComments (comments : list Comment)
  | RProduct (product : Product) (message : option string)
  | RProducts (page : list Product) (pagination : Pagination)
  | RSellerProducts (found : list Product) (count : nat)
  | RCategories (categories : list string)
  | RRoom (room : RoomOut) (message : option string)
  | RRooms (rooms : list RoomOut) (count : nat)
  | RHistory (rooms : list RoomOut) (pagination : Pagination).

Definition is_error (r : Response) : bool :=
  match r with RError _ => true | _ => false end.

(** A request either throws or returns a response object. *)
Inductive Outcome :=
  | Thrown (e : string)
  | Returned (r : Response).

(** The user the authentication middleware derives: the object's identity
    and the object as it is when the handler starts. *)
Definition CurrentUser : Type := UserRef * User.

(** ** Store updates *)

Definition set_users (f : list User → list User) (st : Store) : Store :=
  {| users := f (users st); userCredentials := userCredentials st;
     posts := posts st; products := products st;
     videoRooms := videoRooms st |}.

Definition set_credentials (f : gmap string string → gmap string string)
    (st : Store) : Store :=
  {| users := users st; userCredentials := f (userCredentials st);
     posts := posts st; products := products st;
     videoRooms := videoRooms st |}.

Definition set_posts (f : list Post → list Post) (st : Store) : Store :=
  {| users := users st; userCredentials := userCredentials st;
     posts := f (posts st); products := products st;
     videoRooms := videoRooms st |}.

Definition set_products (f : list Product → list Product) (st : Store)
    : Store :=
  {| users := users st; userCredentials := userCredentials st;
     posts := posts st; products := f (products st);
     videoRooms := videoRooms st |}.

Definition set_rooms (f : list VideoRoom → list VideoRoom) (st : Store)
    : Store :=
  {| users := users st; userCredentials := userCredentials st;
     posts := posts st; products := products st;
     videoRooms := f (videoRooms st) |}.

(** [u.id] of the user object a reference designates. *)
Definition user_id (st : Store) (r : UserRef) : string :=
  from_option u_id "" (users st !! r).

(** ** Authentication middleware *)

(** [u => u.id === payload.userId] *)
Definition has_id (userId : option string) (u : User) : bool :=
  match userId with
  | Some i => String.eqb (u_id u) i
  | None => false
  end.

(** The [derive] of routes/users.ts, routes/posts.ts and routes/video.ts
    (the same code in the three modules): [inl e] is [throw new Error(e)]. *)
Definition derive_auth (env : Env) (st : Store) (bearer : option string)
    : string + CurrentUser :=
  match bearer with
  | Some token =>
      if JS.truthy bearer then
        match jwt_verify env token with
        | VerifyThrows e => inl e
        | VerifyFalse => inl "Token invalide"
        | VerifyPayload userId =>
            match JS.find (has_id userId) (users st) with
            | Some user => inr user
            | None => inl "Utilisateur non trouvé"
            end
        end
      else inl "Token manquant"
  | None => inl "Token manquant"
  end.

(** The [derive] of routes/marketplace.ts: [None] is
    [{ currentUser: null }]. *)
Definition derive_optional (env : Env) (st : Store) (bearer : option string)
    : option CurrentUser :=
  match bearer with
  | Some token =>
      if JS.truthy bearer then
        match jwt_verify env token with
        | VerifyThrows _ => None
        | VerifyFalse => None
        | VerifyPayload userId => JS.find (has_id userId) (users st)
        end
      else None
  | None => None
  end.

(** ** routes/auth.ts *)

Module AuthRoutes.

(** POST /register *)
Definition register (env : Env) (body : RegisterRequest) (st : Store)
    : Response * Store :=
  match JS.find (λ u, String.eqb (u_email u) (reg_email body)
                      || String.eqb (u_username u) (reg_username body))
                (users st) with
  | Some _ =>
      (RError "Un utilisateur avec cet email ou ce nom d'utilisateur existe déjà",
       st)
  | None =>
      let newUser :=
        {| u_id := randomUUID env;
           u_email := reg_email body;
           u_username := reg_username body;
           u_firstName := reg_firstName body;
           u_lastName := reg_lastName body;
           u_avatar := None; u_bio := None; u_location := None;
           u_website := None;
           u_createdAt := now env 0;
           u_updatedAt := now env 1 |} in
      let st1 := set_users (JS.push newUser) st in
      let st2 :=
        set_credentials (insert (reg_email body) (reg_password body)) st1 in
      (RAuth newUser (jwt_sign env (u_id newUser) (u_email newUser)), st2)
  end.

(** POST /login *)
Definition login (env : Env) (body : LoginRequest) (st : Store)
    : Response :=
  match userCredentials st !! login_email body with
  | Some password =>
      if String.eqb password (login_password body) then
        match JS.find (λ u, String.eqb (u_email u) (login_email body))
                      (users st) with
        | Some (_, user) =>
            RAuth user (jwt_sign env (u_id user) (u_email user))
        | None => RError "Utilisateur non trouvé"
        end
      else RError "Email ou mot de passe incorrect"
  | None => RError "Email ou mot de passe incorrect"
  end.

(** GET /verify *)
Definition verify (env : Env) (bearer : option string) (st : Store)
    : Response :=
  match bearer with
  | Some token =>
      if JS.truthy bearer then
        match jwt_verify env token with
        | VerifyThrows _ => RError "Token invalide"
        | VerifyFalse => RError "Token invalide"
        | VerifyPayload None => RError "Token invalide"
        | VerifyPayload (Some userId) =>
            match JS.find (has_id (Some userId)) (users st) with
            | Some (_, user) => RUser user None
            | None => RError "Utilisateur non trouvé"
            end
        end
      else RError "Token manquant"
  | None => RError "Token manquant"
  end.

(** POST /logout *)
Definition logout : Response := RMessage "Déconnexion réussie".

End AuthRoutes.

(** Properties absent from the body keep the stored value. *)
Definition merge_opt {A} (new old : option A) : option A :=
  match new with
  | Some _ => new
  | None => old
  end.

(** ** routes/users.ts *)

Module UserRoutes.

(** [Object.assign(currentUser, { ...updateData, updatedAt })] *)
Definition assign (u : User) (body : UpdateProfileRequest) (d : Date)
    : User :=
  {| u_id := u_id u;
     u_email := u_email u;
     u_username := u_username u;
     u_firstName := default (u_firstName u) (up_firstName body);
     u_lastName := default (u_lastName u) (up_lastName body);
     u_avatar := merge_opt (up_avatar body) (u_avatar u);
     u_bio := merge_opt (up_bio body) (u_bio u);
     u_location := merge_opt (up_location body) (u_location u);
     u_website := merge_opt (up_website body) (u_website u);
     u_createdAt := u_createdAt u;
     u_updatedAt := d |}.

(** GET /me *)
Definition me (currentUser : CurrentUser) : Response :=
  RUser currentUser.2 None.

(** GET /:id *)
Definition get (id : string) (st : Store) : Response :=
  match JS.find (λ u, String.eqb (u_id u) id) (users st) with
  | Some (_, user) => RUser user None
  | None => RError "Utilisateur non trouvé"
  end.

(** PUT /me *)
Definition update (env : Env) (body : UpdateProfileRequest)
    (currentUser : CurrentUser) (st : Store) : Response * Store :=
  let user := assign currentUser.2 body (now env 0) in
  (RUser user (Some "Profil mis à jour avec succès"),
   set_users (<[currentUser.1 := user]>) st).

(** GET /search *)
Definition search (env : Env) (q : string) (limit : option string)
    (st : Store) : Response :=
  if String.eqb q "" || (JS.length q <? 2)%nat then
    RError "La recherche doit contenir au moins 2 caractères"
  else
    let searchTerm := toLowerCase env q in
    let limitNum := JS.parseInt (default "10" limit) in
    let results :=
      JS.slice 0 (inject_Z (default 0 limitNum))
        (List.filter
           (λ user,
              JS.includes (toLowerCase env (u_firstName user)) searchTerm
              || JS.includes (toLowerCase env (u_lastName user)) searchTerm
              || JS.includes (toLowerCase env (u_username user)) searchTerm)
           (users st)) in
    RUsers results (length results).

(** GET /suggestions *)
Definition suggestions (currentUser : CurrentUser) (st : Store)
    : Response :=
  RSuggestions
    (JS.slice 0 10
       (JS.sort (λ a b, u_createdAt b - u_createdAt a)
          (List.filter
             (λ user, negb (String.eqb (u_id user) (u_id currentUser.2)))
             (users st)))).

End UserRoutes.

(** [{ page, limit, total, totalPages: Math.ceil(total / Number(limit)) }]
    of the posts feed and of the room history; the schemas make [limit]
    at least 1.  The quotient is exact; the double of the code has the
    same ceiling when [limit] is an integer the schema admits. *)
Definition pagination (page limit : Q) (total : nat) : Pagination :=
  {| pg_page := page;
     pg_limit := limit;
     pg_total := total;
     pg_totalPages := JS.ceil (inject_Z (Z.of_nat total) / limit) |}.

(** The page [slice(startIndex, endIndex)] of the posts feed and of the
    room history keeps.  The indices are computed exactly.  The doubles of
    the code give the same indices when [page] and [limit] are integers:
    a product below 2^53 is exact, and an index beyond is past the end of
    any array either way.  For a fractional [page] or [limit] the rounding
    of the doubles can move an index by one; the statements about the
    feed and the history keep to integers. *)
Definition paginate {A} (page limit : Q) (l : list A) : list A :=
  let startIndex := ((page - 1) * limit)%Q in
  let endIndex := (startIndex + limit)%Q in
  JS.slice startIndex endIndex l.

(** ** routes/posts.ts *)

Module PostRoutes.

Definition with_counts (post : Post) : PostOut :=
  {| po_post := post;
     po_likesCount := Some (length (p_likes post));
     po_commentsCount := Some (length (p_comments post)) |}.

Definition plain (post : Post) : PostOut :=
  {| po_post := post; po_likesCount := None; po_commentsCount := None |}.

Definition has_id (id : string) (p : Post) : bool := String.eqb (p_id p) id.

Definition set_content (content : string) (images : list string)
    (d : Date) (p : Post) : Post :=
  {| p_id := p_id p; p_content := content; p_author := p_author p;
     p_images := images; p_likes := p_likes p;
     p_comments := p_comments p; p_createdAt := p_createdAt p;
     p_updatedAt := d |}.

Definition set_likes (likes : list string) (p : Post) : Post :=
  {| p_id := p_id p; p_content := p_content p; p_author := p_author p;
     p_images := p_images p; p_likes := likes;
     p_comments := p_comments p; p_createdAt := p_createdAt p;
     p_updatedAt := p_updatedAt p |}.

Definition set_comments (comments : list Comment) (p : Post) : Post :=
  {| p_id := p_id p; p_content := p_content p; p_author := p_author p;
     p_images := p_images p; p_likes := p_likes p;
     p_comments := comments; p_createdAt := p_createdAt p;
     p_updatedAt := p_updatedAt p |}.

(** POST / *)
Definition create (env : Env) (body : CreatePostRequest)
    (currentUser : CurrentUser) (st : Store) : Response * Store :=
  let newPost :=
    {| p_id := randomUUID env;
       p_content := cp_content body;
       p_author := currentUser.1;
       p_images := default [] (cp_images body);
       p_likes := [];
       p_comments := [];
       p_createdAt := now env 0;
       p_updatedAt := now env 1 |} in
  (RPost (plain newPost) (Some "Post créé avec succès"),
   set_posts (JS.unshift newPost) st).

(** GET / *)
Definition feed (page limit : option Q) (st : Store) : Response :=
  let pageNum := default 1%Q page in
  let limitNum := default 20%Q limit in
  RPosts (with_counts <$> paginate pageNum limitNum (posts st))
         (pagination pageNum limitNum (length (posts st))).

(** GET /:id *)
Definition get (id : string) (st : Store) : Response :=
  match JS.find (has_id id) (posts st) with
  | Some (_, post) => RPost (with_counts post) None
  | None => RError "Post non trouvé"
  end.

(** PUT /:id *)
Definition update (env : Env) (id : string) (body : CreatePostRequest)
    (currentUser : CurrentUser) (st : Store) : Response * Store :=
  match JS.find (has_id id) (posts st) with
  | None => (RError "Post non trouvé", st)
  | Some (i, post) =>
      if negb (String.eqb (user_id st (p_author post))
                          (u_id currentUser.2)) then
        (RError "Vous ne pouvez modifier que vos propres posts", st)
      else
        let post' :=
          set_content (cp_content body)
                      (default (p_images post) (cp_images body))
                      (now env 0) post in
        (RPost (plain post') (Some "Post mis à jour avec succès"),
         set_posts (<[i := post']>) st)
  end.

(** DELETE /:id *)
Definition remove (id : string) (currentUser : CurrentUser) (st : Store)
    : Response * Store :=
  match JS.find (has_id id) (posts st) with
  | None => (RError "Post non trouvé", st)
  | Some (postIndex, post) =>
      if negb (String.eqb (user_id st (p_author post))
                          (u_id currentUser.2)) then
        (RError "Vous ne pouvez supprimer que vos propres posts", st)
      else
        (RMessage "Post supprimé avec succès",
         set_posts (JS.splice1 postIndex) st)
  end.

(** POST /:id/like *)
Definition like (id : string) (currentUser : CurrentUser) (st : Store)
    : Response * Store :=
  match JS.find (has_id id) (posts st) with
  | None => (RError "Post non trouvé", st)
  | Some (i, post) =>
      match JS.indexOf (u_id currentUser.2) (p_likes post) with
      | None =>
          let likes := JS.push (u_id currentUser.2) (p_likes post) in
          (RLike true (length likes) "Post liké",
           set_posts (<[i := set_likes likes post]>) st)
      | Some userLikeIndex =>
          let likes := JS.splice1 userLikeIndex (p_likes post) in
          (RLike false (length likes) "Like retiré",
           set_posts (<[i := set_likes likes post]>) st)
      end
  end.

(** POST /:id/comments *)
Definition comment (env : Env) (id : string) (body : CreateCommentRequest)
    (currentUser : CurrentUser) (st : Store) : Response * Store :=
  match JS.find (has_id id) (posts st) with
  | None => (RError "Post non trouvé", st)
  | Some (i, post) =>
      let newComment :=
        {| c_id := randomUUID env;
           c_content := cc_content body;
           c_author := currentUser.1;
           c_postId := id;
           c_createdAt := now env 0;
           c_updatedAt := now env 1 |} in
      (RComment newComment "Commentaire ajouté avec succès",
       set_posts
         (<[i := set_comments (JS.push newComment (p_comments post)) post]>)
         st)
  end.

(** GET /:id/comments *)
Definition comments (id : string) (st : Store) : Response :=
  match JS.find (has_id id) (posts st) with
  | Some (_, post) => RComments (p_comments post)
  | None => RError "Post non trouvé"
  end.

End PostRoutes.

(** ** routes/marketplace.ts *)

Module MarketplaceRoutes.

(** The value of [product[key]], as far as the comparison operators see
    it. *)
Inductive Value :=
  | VUndefined
  | VString (s : string)
  | VNumber (q : Q)
  | VDate (d : Date)
  | VArray (l : list string)
  (** an object or function that is the same, or converts to the same
      string, for every product: the seller, and what [Object.prototype]
      provides *)
  | VObject.

Definition inherited : list string :=
  ["constructor"; "toString"; "toLocaleString"; "valueOf";
   "hasOwnProperty"; "isPrototypeOf"; "propertyIsEnumerable";
   "__proto__"; "__defineGetter__"; "__defineSetter__";
   "__lookupGetter__"; "__lookupSetter__"].

Definition from_optional (s : option string) : Value :=
  match s with
  | Some s' => VString s'
  | None => VUndefined
  end.

(** [p[key as keyof Product]] for an arbitrary string [key]. *)
Definition get_property (key : string) (p : Product) : Value :=
  if String.eqb key "id" then VString (pr_id p)
  else if String.eqb key "title" then VString (pr_title p)
  else if String.eqb key "description" then VString (pr_description p)
  else if String.eqb key "price" then VNumber (pr_price p)
  else if String.eqb key "currency" then VString (pr_currency p)
  else if String.eqb key "category" then VString (pr_category p)
  else if String.eqb key "condition"
    then VString (condition_str (pr_condition p))
  else if String.eqb key "images" then VArray (pr_images p)
  else if String.eqb key "seller" then VObject
  else if String.eqb key "location" then from_optional (pr_location p)
  else if String.eqb key "status"
    then VString (product_status_str (pr_status p))
  else if String.eqb key "tags" then VArray (pr_tags p)
  else if String.eqb key "createdAt" then VDate (pr_createdAt p)
  else if String.eqb key "updatedAt" then VDate (pr_updatedAt p)
  else if JS.some (String.eqb key) inherited then VObject
  else VUndefined.

(** [a < b] on two defined values of one property: strings by code
    units, numbers and dates by value, arrays and objects by their
    string conversion. *)
Definition lt (a b : Value) : bool :=
  match a, b with
  | VString s, VString t => JS.string_lt s t
  | VNumber x, VNumber y => negb (Qle_bool y x)
  | VDate d, VDate e => d <? e
  | VArray l, VArray m => JS.string_lt (JS.join l) (JS.join m)
  | _, _ => false
  end.

(** The comparator given to [sort]. *)
Definition comparator (sortBy : string) (sortOrder : SortOrder)
    (a b : Product) : Z :=
  let aValue := get_property sortBy a in
  let bValue := get_property sortBy b in
  match aValue, bValue with
  | VUndefined, VUndefined => 0
  | VUndefined, _ => 1
  | _, VUndefined => -1
  | _, _ =>
      match sortOrder with
      | Asc => if lt bValue aValue then 1 else -1
      | Desc => if lt aValue bValue then 1 else -1
      end
  end.

(** [if (c) l = l.filter(f)] *)
Definition filter_if {A} (c : bool) (f : A → bool) (l : list A) : list A :=
  if c then List.filter f l else l.

Definition matches_search (env : Env) (search : string) (p : Product)
    : bool :=
  let searchTerm := toLowerCase env search in
  JS.includes (toLowerCase env (pr_title p)) searchTerm
  || JS.includes (toLowerCase env (pr_description p)) searchTerm
  || JS.some (λ tag, JS.includes (toLowerCase env tag) searchTerm)
             (pr_tags p).

(** The products the filters of the listing keep, before the sort. *)
Definition filtered (env : Env) (query : ProductQuery) (st : Store)
    : list Product :=
  let status := default Available (q_status query) in
  let l0 := List.filter (λ p, bool_decide (pr_status p = status))
                        (products st) in
  let l1 := filter_if (JS.truthy (q_category query))
              (λ p, String.eqb (pr_category p)
                               (default "" (q_category query))) l0 in
  let l2 := match q_minPrice query with
            | Some minPrice =>
                List.filter (λ p, Qle_bool minPrice (pr_price p)) l1
            | None => l1
            end in
  let l3 := match q_maxPrice query with
            | Some maxPrice =>
                List.filter (λ p, Qle_bool (pr_price p) maxPrice) l2
            | None => l2
            end in
  let l4 := match q_condition query with
            | Some condition =>
                List.filter (λ p, bool_decide (pr_condition p = condition))
                            l3
            | None => l3
            end in
  filter_if (JS.truthy (q_search query))
    (matches_search env (default "" (q_search query))) l4.

(** GET / *)
Definition list_products (env : Env) (query : ProductQuery) (st : Store)
    : Response :=
  let page := default 1%Q (q_page query) in
  let limit := default 20%Q (q_limit query) in
  let sortBy := default "createdAt" (q_sortBy query) in
  let sortOrder := default Desc (q_sortOrder query) in
  let filteredProducts :=
    JS.sort (comparator sortBy sortOrder) (filtered env query st) in
  let startIndex := JS.mul (JS.sub page 1) limit in
  let endIndex := JS.add startIndex limit in
  RProducts (JS.slice startIndex endIndex filteredProducts)
    {| pg_page := page;
       pg_limit := limit;
       pg_total := length filteredProducts;
       pg_totalPages :=
         JS.ceil (JS.div (inject_Z (Z.of_nat (length filteredProducts)))
                         limit) |}.

Definition has_id (id : string) (p : Product) : bool :=
  String.eqb (pr_id p) id.

(** GET /:id *)
Definition get (id : string) (st : Store) : Response :=
  match JS.find (has_id id) (products st) with
  | Some (_, product) => RProduct product None
  | None => RError "Produit non trouvé"
  end.

(** POST / *)
Definition create (env : Env) (body : CreateProductRequest)
    (currentUser : option CurrentUser) (st : Store) : Response * Store :=
  match currentUser with
  | None => (RError "Authentification requise", st)
  | Some user =>
      let newProduct :=
        {| pr_id := randomUUID env;
           pr_title := cpr_title body;
           pr_description := cpr_description body;
           pr_price := cpr_price body;
           pr_currency := cpr_currency body;
           pr_category := cpr_category body;
           pr_condition := cpr_condition body;
           pr_images := cpr_images body;
           pr_seller := user.1;
           pr_location := cpr_location body;
           pr_status := Available;
           pr_tags := cpr_tags body;
           pr_createdAt := now env 0;
           pr_updatedAt := now env 1 |} in
      (RProduct newProduct (Some "Produit créé avec succès"),
       set_products (JS.unshift newProduct) st)
  end.

(** [Object.assign(product, { ...updateData, updatedAt })] *)
Definition assign (p : Product) (body : UpdateProductRequest) (d : Date)
    : Product :=
  {| pr_id := pr_id p;
     pr_title := default (pr_title p) (upr_title body);
     pr_description := default (pr_description p) (upr_description body);
     pr_price := default (pr_price p) (upr_price body);
     pr_currency := pr_currency p;
     pr_category := pr_category p;
     pr_condition := default (pr_condition p) (upr_condition body);
     pr_images := default (pr_images p) (upr_images body);
     pr_seller := pr_seller p;
     pr_location := merge_opt (upr_location body) (pr_location p);
     pr_status := default (pr_status p) (upr_status body);
     pr_tags := default (pr_tags p) (upr_tags body);
     pr_createdAt := pr_createdAt p;
     pr_updatedAt := d |}.

(** PUT /:id *)
Definition update (env : Env) (id : string) (body : UpdateProductRequest)
    (currentUser : option CurrentUser) (st : Store) : Response * Store :=
  match currentUser with
  | None => (RError "Authentification requise", st)
  | Some user =>
      match JS.find (has_id id) (products st) with
      | None => (RError "Produit non trouvé", st)
      | Some (i, product) =>
          if negb (String.eqb (user_id st (pr_seller product))
                              (u_id user.2)) then
            (RError "Vous ne pouvez modifier que vos propres produits", st)
          else
            let product' := assign product body (now env 0) in
            (RProduct product' (Some "Produit mis à jour avec succès"),
             set_products (<[i := product']>) st)
      end
  end.

(** DELETE /:id *)
Definition remove (id : string) (currentUser : option CurrentUser)
    (st : Store) : Response * Store :=
  match currentUser with
  | None => (RError "Authentification requise", st)
  | Some user =>
      match JS.find (has_id id) (products st) with
      | None => (RError "Produit non trouvé", st)
      | Some (productIndex, product) =>
          if negb (String.eqb (user_id st (pr_seller product))
                              (u_id user.2)) then
            (RError "Vous ne pouvez supprimer que vos propres produits",
             st)
          else
            (RMessage "Produit supprimé avec succès",
             set_products (JS.splice1 productIndex) st)
      end
  end.

(** GET /seller/:sellerId *)
Definition by_seller (sellerId : string) (st : Store) : Response :=
  let sellerProducts :=
    List.filter (λ p, String.eqb (user_id st (pr_seller p)) sellerId)
                (products st) in
  RSellerProducts sellerProducts (length sellerProducts).

(** [Array.from(new Set(l))]: the first occurrence of each string, in
    order. *)
Fixpoint unique (seen l : list string) : list string :=
  match l with
  | [] => []
  | x :: l' =>
      if JS.some (String.eqb x) seen then unique seen l'
      else x :: unique (x :: seen) l'
  end.

(** GET /categories *)
Definition categories (st : Store) : Response :=
  RCategories (unique [] (pr_category <$> products st)).

Definition mark (d : Date) (p : Product) : Product :=
  {| pr_id := pr_id p; pr_title := pr_title p;
     pr_description := pr_description p; pr_price := pr_price p;
     pr_currency := pr_currency p; pr_category := pr_category p;
     pr_condition := pr_condition p; pr_images := pr_images p;
     pr_seller := pr_seller p; pr_location := pr_location p;
     pr_status := Sold; pr_tags := pr_tags p;
     pr_createdAt := pr_createdAt p; pr_updatedAt := d |}.

(** POST /:id/mark-sold *)
Definition mark_sold (env : Env) (id : string)
    (currentUser : option CurrentUser) (st : Store) : Response * Store :=
  match currentUser with
  | None => (RError "Authentification requise", st)
  | Some user =>
      match JS.find (has_id id) (products st) with
      | None => (RError "Produit non trouvé", st)
      | Some (i, product) =>
          if negb (String.eqb (user_id st (pr_seller product))
                              (u_id user.2)) then
            (RError "Vous ne pouvez modifier que vos propres produits", st)
          else
            let product' := mark (now env 0) product in
            (RProduct product' (Some "Produit marqué comme vendu"),
             set_products (<[i := product']>) st)
      end
  end.

End MarketplaceRoutes.

(** ** routes/video.ts *)

Module VideoRoutes.

Definition has_id (id : string) (r : VideoRoom) : bool :=
  String.eqb (r_id r) id.

(** [p => p.id === currentUser.id] on the participants of a room. *)
Definition is_user (st : Store) (currentUser : CurrentUser) (p : UserRef)
    : bool :=
  String.eqb (user_id st p) (u_id currentUser.2).

Definition set_password (password : option string) (r : VideoRoom)
    : VideoRoom :=
  {| r_id := r_id r; r_name := r_name r; r_description := r_description r;
     r_host := r_host r; r_participants := r_participants r;
     r_isPrivate := r_isPrivate r;
     r_maxParticipants := r_maxParticipants r; r_password := password;
     r_status := r_status r; r_createdAt := r_createdAt r;
     r_updatedAt := r_updatedAt r; r_endedAt := r_endedAt r |}.

Definition set_participants (participants : list UserRef) (r : VideoRoom)
    : VideoRoom :=
  {| r_id := r_id r; r_name := r_name r; r_description := r_description r;
     r_host := r_host r; r_participants := participants;
     r_isPrivate := r_isPrivate r;
     r_maxParticipants := r_maxParticipants r; r_password := r_password r;
     r_status := r_status r; r_createdAt := r_createdAt r;
     r_updatedAt := r_updatedAt r; r_endedAt := r_endedAt r |}.

Definition set_host (host : UserRef) (r : VideoRoom) : VideoRoom :=
  {| r_id := r_id r; r_name := r_name r; r_description := r_description r;
     r_host := host; r_participants := r_participants r;
     r_isPrivate := r_isPrivate r;
     r_maxParticipants := r_maxParticipants r; r_password := r_password r;
     r_status := r_status r; r_createdAt := r_createdAt r;
     r_updatedAt := r_updatedAt r; r_endedAt := r_endedAt r |}.

Definition set_status (status : RoomStatus) (r : VideoRoom) : VideoRoom :=
  {| r_id := r_id r; r_name := r_name r; r_description := r_description r;
     r_host := r_host r; r_participants := r_participants r;
     r_isPrivate := r_isPrivate r;
     r_maxParticipants := r_maxParticipants r; r_password := r_password r;
     r_status := status; r_createdAt := r_createdAt r;
     r_updatedAt := r_updatedAt r; r_endedAt := r_endedAt r |}.

Definition set_updatedAt (d : Date) (r : VideoRoom) : VideoRoom :=
  {| r_id := r_id r; r_name := r_name r; r_description := r_description r;
     r_host := r_host r; r_participants := r_participants r;
     r_isPrivate := r_isPrivate r;
     r_maxParticipants := r_maxParticipants r; r_password := r_password r;
     r_status := r_status r; r_createdAt := r_createdAt r;
     r_updatedAt := d; r_endedAt := r_endedAt r |}.

Definition set_endedAt (d : Date) (r : VideoRoom) : VideoRoom :=
  {| r_id := r_id r; r_name := r_name r; r_description := r_description r;
     r_host := r_host r; r_participants := r_participants r;
     r_isPrivate := r_isPrivate r;
     r_maxParticipants := r_maxParticipants r; r_password := r_password r;
     r_status := r_status r; r_createdAt := r_createdAt r;
     r_updatedAt := r_updatedAt r; r_endedAt := Some d |}.

(** [{ ...room, password, participantCount: room.participants.length }] *)
Definition with_count (password : option string) (room : VideoRoom)
    : RoomOut :=
  {| ro_room := set_password password room;
     ro_participantCount := Some (length (r_participants room)) |}.

(** The room object itself. *)
Definition plain (room : VideoRoom) : RoomOut :=
  {| ro_room := room; ro_participantCount := None |}.

(** POST /rooms *)
Definition create (env : Env) (body : CreateRoomRequest)
    (currentUser : CurrentUser) (st : Store) : Response * Store :=
  let newRoom :=
    {| r_id := randomUUID env;
       r_name := cr_name body;
       r_description := cr_description body;
       r_host := currentUser.1;
       r_participants := [currentUser.1];
       r_isPrivate := cr_isPrivate body;
       r_maxParticipants := cr_maxParticipants body;
       r_password := cr_password body;
       r_status := Waiting;
       r_createdAt := now env 0;
       r_updatedAt := now env 1;
       r_endedAt := None |} in
  (RRoom (plain newRoom) (Some "Salle de visio créée avec succès"),
   set_rooms (JS.unshift newRoom) st).

(** GET /rooms *)
Definition list_rooms (status : option RoomStatus) (st : Store)
    : Response :=
  let status := default Waiting status in
  let publicRooms :=
    with_count None <$>
      List.filter (λ room, negb (r_isPrivate room)
                           && bool_decide (r_status room = status))
                  (videoRooms st) in
  RRooms publicRooms (length publicRooms).

(** GET /rooms/:id *)
Definition get (id : string) (currentUser : CurrentUser) (st : Store)
    : Response :=
  match JS.find (has_id id) (videoRooms st) with
  | None => RError "Salle non trouvée"
  | Some (_, room) =>
      let isParticipant :=
        JS.some (is_user st currentUser) (r_participants room) in
      let isHost := is_user st currentUser (r_host room) in
      if r_isPrivate room && (negb isParticipant && negb isHost) then
        RError "Accès non autorisé à cette salle privée"
      else
        RRoom (with_count
                 (if is_user st currentUser (r_host room)
                  then r_password room else None)
                 room)
              None
  end.

(** POST /rooms/:id/join *)
Definition join (env : Env) (id : string) (body : JoinRoomRequest)
    (currentUser : CurrentUser) (st : Store) : Response * Store :=
  match JS.find (has_id id) (videoRooms st) with
  | None => (RError "Salle non trouvée", st)
  | Some (i, room) =>
      if bool_decide (r_status room = Ended) then
        (RError "Cette salle est terminée", st)
      else if JS.some (is_user st currentUser) (r_participants room) then
        (RRoom (plain room) (Some "Vous êtes déjà dans cette salle"), st)
      else if Qle_bool (r_maxParticipants room)
                       (inject_Z (Z.of_nat (length (r_participants room))))
      then (RError "La salle est pleine", st)
      else if JS.truthy (r_password room)
              && (negb (JS.truthy (jr_password body))
                  || negb (bool_decide (jr_password body = r_password room)))
      then (RError "Mot de passe incorrect", st)
      else
        let room1 :=
          set_updatedAt (now env 0)
            (set_participants (JS.push currentUser.1 (r_participants room))
                              room) in
        let room2 :=
          if (length (r_participants room1) =? 2)%nat
             && bool_decide (r_status room1 = Waiting)
          then set_status Active room1 else room1 in
        (RRoom (with_count None room2)
               (Some "Vous avez rejoint la salle avec succès"),
         set_rooms (<[i := room2]>) st)
  end.

(** POST /rooms/:id/leave *)
Definition leave (env : Env) (id : string) (currentUser : CurrentUser)
    (st : Store) : Response * Store :=
  match JS.find (has_id id) (videoRooms st) with
  | None => (RError "Salle non trouvée", st)
  | Some (i, room) =>
      match JS.findIndex (is_user st currentUser) (r_participants room) with
      | None => (RError "Vous n'êtes pas dans cette salle", st)
      | Some participantIndex =>
          let room1 :=
            set_updatedAt (now env 0)
              (set_participants
                 (JS.splice1 participantIndex (r_participants room)) room) in
          let room2 :=
            if is_user st currentUser (r_host room1) then
              match r_participants room1 with
              | newHost :: _ => set_host newHost room1
              | [] => set_endedAt (now env 1) (set_status Ended room1)
              end
            else room1 in
          let room3 :=
            match r_participants room2 with
            | [] =>
                set_endedAt
                  (now env (if is_user st currentUser (r_host room1)
                            then 2%nat else 1%nat))
                  (set_status Ended room2)
            | _ :: _ => room2
            end in
          (RMessage "Vous avez quitté la salle",
           set_rooms (<[i := room3]>) st)
      end
  end.

(** POST /rooms/:id/end *)
Definition end_room (env : Env) (id : string) (currentUser : CurrentUser)
    (st : Store) : Response * Store :=
  match JS.find (has_id id) (videoRooms st) with
  | None => (RError "Salle non trouvée", st)
  | Some (i, room) =>
      if negb (is_user st currentUser (r_host room)) then
        (RError "Seul l'hôte peut terminer la salle", st)
      else if bool_decide (r_status room = Ended) then
        (RError "La salle est déjà terminée", st)
      else
        let room' :=
          set_updatedAt (now env 1)
            (set_endedAt (now env 0) (set_status Ended room)) in
        (RRoom (plain room') (Some "Salle terminée avec succès"),
         set_rooms (<[i := room']>) st)
  end.

(** GET /history *)
Definition history (page limit : option Q) (currentUser : CurrentUser)
    (st : Store) : Response :=
  let page := default 1%Q page in
  let limit := default 20%Q limit in
  let userRooms :=
    List.filter
      (λ room, is_user st currentUser (r_host room)
               || JS.some (is_user st currentUser) (r_participants room))
      (videoRooms st) in
  RHistory (with_count None <$> paginate page limit userRooms)
           (pagination page limit (length userRooms)).

(** [Object.assign(room, { ...updateData, updatedAt })] *)
Definition assign (r : VideoRoom) (body : UpdateRoomRequest) (d : Date)
    : VideoRoom :=
  {| r_id := r_id r;
     r_name := default (r_name r) (ur_name body);
     r_description := merge_opt (ur_description body) (r_description r);
     r_host := r_host r;
     r_participants := r_participants r;
     r_isPrivate := default (r_isPrivate r) (ur_isPrivate body);
     r_maxParticipants :=
       default (r_maxParticipants r) (ur_maxParticipants body);
     r_password := merge_opt (ur_password body) (r_password r);
     r_status := r_status r;
     r_createdAt := r_createdAt r;
     r_updatedAt := d;
     r_endedAt := r_endedAt r |}.

(** PUT /rooms/:id *)
Definition update (env : Env) (id : string) (body : UpdateRoomRequest)
    (currentUser : CurrentUser) (st : Store) : Response * Store :=
  match JS.find (has_id id) (videoRooms st) with
  | None => (RError "Salle non trouvée", st)
  | Some (i, room) =>
      if negb (is_user st currentUser (r_host room)) then
        (RError "Seul l'hôte peut modifier la salle", st)
      else if bool_decide (r_status room = Ended) then
        (RError "Impossible de modifier une salle terminée", st)
      else
        let room' := assign room body (now env 0) in
        (RRoom (with_count (r_password room') room')
               (Some "Salle mise à jour avec succès"),
         set_rooms (<[i := room']>) st)
  end.

End VideoRoutes.

(** ** The application *)

Definition returned (r : Response * Store) : Outcome * Store :=
  (Returned r.1, r.2).

(** routes/auth.ts: no middleware. *)
Definition authRoutes (env : Env) (bearer : option string) (r : AuthRoute)
    (st : Store) : Response * Store :=
  match r with
  | PostRegister body => AuthRoutes.register env body st
  | PostLogin body => (AuthRoutes.login env body st, st)
  | GetVerify => (AuthRoutes.verify env bearer st, st)
  | PostLogout => (AuthRoutes.logout, st)
  end.

(** routes/users.ts, behind its [derive]. *)
Definition userRoutes (env : Env) (r : UserRoute) (currentUser : CurrentUser)
    (st : Store) : Response * Store :=
  match r with
  | GetMe => (UserRoutes.me currentUser, st)
  | GetUser id => (UserRoutes.get id st, st)
  | PutMe body => UserRoutes.update env body currentUser st
  | GetUserSearch q limit => (UserRoutes.search env q limit st, st)
  | GetSuggestions => (UserRoutes.suggestions currentUser st, st)
  end.

(** routes/posts.ts, behind its [derive]. *)
Definition postRoutes (env : Env) (r : PostRoute) (currentUser : CurrentUser)
    (st : Store) : Response * Store :=
  match r with
  | PostPost body => PostRoutes.create env body currentUser st
  | GetPosts page limit => (PostRoutes.feed page limit st, st)
  | GetPost id => (PostRoutes.get id st, st)
  | PutPost id body => PostRoutes.update env id body currentUser st
  | DeletePost id => PostRoutes.remove id currentUser st
  | PostLike id => PostRoutes.like id currentUser st
  | PostComment id body => PostRoutes.comment env id body currentUser st
  | GetComments id => (PostRoutes.comments id st, st)
  end.

(** routes/marketplace.ts, behind its [derive]. *)
Definition marketplaceRoutes (env : Env) (r : MarketplaceRoute)
    (currentUser : option CurrentUser) (st : Store) : Response * Store :=
  match r with
  | GetProducts query =>
      (MarketplaceRoutes.list_products env query st, st)
  | GetProduct id => (MarketplaceRoutes.get id st, st)
  | PostProduct body => MarketplaceRoutes.create env body currentUser st
  | PutProduct id body => MarketplaceRoutes.update env id body currentUser st
  | DeleteProduct id => MarketplaceRoutes.remove id currentUser st
  | GetSellerProducts sellerId => (MarketplaceRoutes.by_seller sellerId st, st)
  | GetCategories => (MarketplaceRoutes.categories st, st)
  | PostMarkSold id => MarketplaceRoutes.mark_sold env id currentUser st
  end.

(** routes/video.ts, behind its [derive]. *)
Definition videoRoutes (env : Env) (r : VideoRoute)
    (currentUser : CurrentUser) (st : Store) : Response * Store :=
  match r with
  | PostRoom body => VideoRoutes.create env body currentUser st
  | GetRooms status => (VideoRoutes.list_rooms status st, st)
  | GetRoom id => (VideoRoutes.get id currentUser st, st)
  | PostJoin id body => VideoRoutes.join env id body currentUser st
  | PostLeave id => VideoRoutes.leave env id currentUser st
  | PostEnd id => VideoRoutes.end_room env id currentUser st
  | GetHistory page limit => (VideoRoutes.history page limit currentUser st, st)
  | PutRoom id body => VideoRoutes.update env id body currentUser st
  end.

(** A module behind the throwing [derive]. *)
Definition guarded (env : Env) (req : Request) (st : Store)
    (routes : CurrentUser → Store → Response * Store) : Outcome * Store :=
  match derive_auth env st (bearer req) with
  | inl e => (Thrown e, st)
  | inr currentUser => returned (routes currentUser st)
  end.

(** index.ts: one request against the store; the outcome and the store it
    leaves. *)
Definition handle (env : Env) (req : Request) (st : Store)
    : Outcome * Store :=
  match route req with
  | Health => (Returned RHealth, st)
  | ApiAuth r => returned (authRoutes env (bearer req) r st)
  | ApiUsers r => guarded env req st (userRoutes env r)
  | ApiPosts r => guarded env req st (postRoutes env r)
  | ApiMarketplace r =>
      returned (marketplaceRoutes env r
                  (derive_optional env st (bearer req)) st)
  | ApiVideo r => guarded env req st (videoRoutes env r)
  end.

(** A sequence of requests, each with its environment, from a store. *)
Definition run (trace : list (Env * Request)) (st : Store) : Store :=
  fold_left (λ s er, (handle er.1 er.2 s).2) trace st.

(** ** shared/database.ts: the lookups *)

Definition findUserById (id : string) (st : Store) : option User :=
  snd <$> JS.find (λ u, String.eqb (u_id u) id) (users st).

Definition findUserByEmail (email : string) (st : Store) : option User :=
  snd <$> JS.find (λ u, String.eqb (u_email u) email) (users st).

Definition findUserByUsername (username : string) (st : Store)
    : option User :=
  snd <$> JS.find (λ u, String.eqb (u_username u) username) (users st).

(** ** Notions used in the statements *)

(** The store reached from the empty one by a sequence of requests. *)
Definition reached (trace : list (Env * Request)) : Store :=
  run trace empty_store.

(** The participants of a room are existing users with pairwise distinct
    ids. *)
Definition room_wf (st : Store) (room : VideoRoom) : Prop :=
  (∀ p, p ∈ r_participants room → (p < length (users st))%nat) ∧
  NoDup (user_id st <$> r_participants room).

Definition rooms_wf (st : Store) : Prop :=
  ∀ room, room ∈ videoRooms st → room_wf st room.

(** The user objects of [st] are those of [st'], with the same ids. *)
Definition users_extend (st st' : Store) : Prop :=
  (length (users st) ≤ length (users st'))%nat ∧
  ∀ r, (r < length (users st))%nat → user_id st' r = user_id st r.

(** No post is liked twice by one user id. *)
Definition posts_wf (st : Store) : Prop :=
  ∀ post, post ∈ posts st → NoDup (p_likes post).

(** The bearer token is missing or invalid: there is none, or
    [jwt.verify] does not resolve to a payload. *)
Definition token_rejected (env : Env) (bearer : option string) : bool :=
  match bearer with
  | Some token =>
      negb (JS.truthy bearer)
      || match jwt_verify env token with
         | VerifyPayload _ => false
         | _ => true
         end
  | None => true
  end.

(** The routes that need an authenticated user: those of the modules
    whose [derive] throws, and the marketplace handlers that test
    [currentUser]. *)
Definition requires_auth (r : Route) : bool :=
  match r with
  | ApiUsers _ | ApiPosts _ | ApiVideo _ => true
  | ApiMarketplace (PostProduct _) | ApiMarketplace (PutProduct _ _)
  | ApiMarketplace (DeleteProduct _) | ApiMarketplace (PostMarkSold _) => true
  | _ => false
  end.

(** The modules behind the throwing [derive]. *)
Definition guarded_module (r : Route) : bool :=
  match r with
  | ApiUsers _ | ApiPosts _ | ApiVideo _ => true
  | _ => false
  end.

(** Object merge, property by property: a property present in the body
    takes the body's value, an absent one keeps the stored value. *)
Definition merged {A} (given : option A) (old new : A) : Prop :=
  match given with
  | Some v => new = v
  | None => new = old
  end.

(** The array [l'] is [l] with the object at position [i] replaced by
    [x]: every other position holds what it held. *)
Definition replaced_at {A} (l l' : list A) (i : nat) (x : A) : Prop :=
  l' !! i = Some x ∧ length l' = length l ∧
  ∀ j, j ≠ i → l' !! j = l !! j.

(** What the store shows of a user held by reference: the posts,
    comments, products and rooms keep the user object itself, so their
    [author], [seller], [host] and [participants] read the object as it is
    now. *)
Definition shown (st : Store) (r : UserRef) : option User := users st !! r.

Definition product_merged (body : UpdateProductRequest) (d : Date)
    (old new : Product) : Prop :=
  merged (upr_title body) (pr_title old) (pr_title new) ∧
  merged (upr_description body) (pr_description old) (pr_description new) ∧
  merged (upr_price body) (pr_price old) (pr_price new) ∧
  merged (upr_condition body) (pr_condition old) (pr_condition new) ∧
  merged (upr_images body) (pr_images old) (pr_images new) ∧
  merged (Some <$> upr_location body) (pr_location old) (pr_location new) ∧
  merged (upr_status body) (pr_status old) (pr_status new) ∧
  merged (upr_tags body) (pr_tags old) (pr_tags new) ∧
  pr_updatedAt new = d ∧
  pr_id new = pr_id old ∧ pr_currency new = pr_currency old ∧
  pr_category new = pr_category old ∧ pr_seller new = pr_seller old ∧
  pr_createdAt new = pr_createdAt old.

Definition room_merged (body : UpdateRoomRequest) (d : Date)
    (old new : VideoRoom) : Prop :=
  merged (ur_name body) (r_name old) (r_name new) ∧
  merged (Some <$> ur_description body) (r_description old)
         (r_description new) ∧
  merged (ur_isPrivate body) (r_isPrivate old) (r_isPrivate new) ∧
  merged (ur_maxParticipants body) (r_maxParticipants old)
         (r_maxParticipants new) ∧
  merged (Some <$> ur_password body) (r_password old) (r_password new) ∧
  r_updatedAt new = d ∧
  r_id new = r_id old ∧ r_host new = r_host old ∧
  r_participants new = r_participants old ∧ r_status new = r_status old ∧
  r_createdAt new = r_createdAt old ∧ r_endedAt new = r_endedAt old.

Definition profile_merged (body : UpdateProfileRequest) (d : Date)
    (old new : User) : Prop :=
  merged (up_firstName body) (u_firstName old) (u_firstName new) ∧
  merged (up_lastName body) (u_lastName old) (u_lastName new) ∧
  merged (Some <$> up_bio body) (u_bio old) (u_bio new) ∧
  merged (Some <$> up_location body) (u_location old) (u_location new) ∧
  merged (Some <$> up_website body) (u_website old) (u_website new) ∧
  merged (Some <$> up_avatar body) (u_avatar old) (u_avatar new) ∧
  u_updatedAt new = d ∧
  u_id new = u_id old ∧ u_email new = u_email old ∧
  u_username new = u_username old ∧ u_createdAt new = u_createdAt old.

(** ** The listing, in the words of the specification *)











(** On ASCII text [toLowerCase] replaces the capital Latin letters by
    the small ones and keeps every other character. *)
Definition lower_letter (c : ascii) : ascii :=
  let n := nat_of_ascii c in
  if ((65 <=? n) && (n <=? 90))%nat then ascii_of_nat (n + 32) else c.

Fixpoint lower (s : string) : string :=
  match s with
  | EmptyString => EmptyString
  | String c s' => String (lower_letter c) (lower s')
  end.



(** A string given as the empty string counts as not given. *)
Definition given (s : option string) : option string :=
  match s with
  | Some "" => None
  | _ => s
  end.






(** The order of two sequences of code units: the first difference
    decides, and a prefix comes first. *)
Inductive lex_le : list Z → list Z → Prop :=
  | lex_le_prefix m : lex_le [] m
  | lex_le_less x y l m : x < y → lex_le (x :: l) (y :: m)
  | lex_le_same x l m : lex_le l m → lex_le (x :: l) (x :: m).

(** What products are ordered by: a text, a number or a date. *)
Inductive Key :=
  | KText (s : string)
  | KNumber (q : Q)
  | KDate (d : Date).

(** Texts are ordered as strings are, by their code units; numbers and
    dates by value. *)
Definition key_le (a b : Key) : Prop :=
  match a, b with
  | KText s, KText t => lex_le (JS.code_units s) (JS.code_units t)
  | KNumber x, KNumber y => (x <= y)%Q
  | KDate d, KDate e => d <= e
  | _, _ => False
  end.






(** ** Invariants of the stores *)

(** Emails and usernames identify the users. *)
Definition users_wf (st : Store) : Prop :=
  NoDup (u_email <$> users st) ∧ NoDup (u_username <$> users st).

(** The credentials are kept for the emails of the users, and no other. *)
Definition credentials_wf (st : Store) : Prop :=
  ∀ email, is_Some (userCredentials st !! email)
           ↔ ∃ user, user ∈ users st ∧ u_email user = email.

(** A reference designates a stored user. *)
Definition stored (st : Store) (r : UserRef) : Prop :=
  (r < length (users st))%nat.

(** Every author, seller, host and participant is a stored user. *)
Definition refs_wf (st : Store) : Prop :=
  (∀ post, post ∈ posts st →
     stored st (p_author post) ∧
     ∀ comment, comment ∈ p_comments post → stored st (c_author comment)) ∧
  (∀ product, product ∈ products st → stored st (pr_seller product)) ∧
  (∀ room, room ∈ videoRooms st →
     stored st (r_host room) ∧
     ∀ p, p ∈ r_participants room → stored st p).

(** The comments of a post carry its id. *)
Definition comments_wf (st : Store) : Prop :=
  ∀ post comment,
    post ∈ posts st → comment ∈ p_comments post →
    c_postId comment = p_id post.

(** The life cycle of a room: an empty room is ended; a room is ended
    exactly when [endedAt] is set; a waiting room holds one participant;
    the host of a room that has participants is one of them. *)
Definition room_lifecycle (st : Store) (room : VideoRoom) : Prop :=
  (r_participants room = [] → r_status room = Ended) ∧
  (r_status room = Ended ↔ is_Some (r_endedAt room)) ∧
  (r_status room = Waiting → length (r_participants room) = 1%nat) ∧
  (r_participants room ≠ [] →
   user_id st (r_host room) ∈ user_id st <$> r_participants room).

Definition rooms_lifecycle (st : Store) : Prop :=
  ∀ room, room ∈ videoRooms st →
    stored st (r_host room) ∧
    (∀ p, p ∈ r_participants room → stored st p) ∧
    room_lifecycle st room.

(** The identity of a user: what no request changes. *)
Definition same_identity (u u' : User) : Prop :=
  u_id u' = u_id u ∧ u_email u' = u_email u ∧
  u_username u' = u_username u ∧ u_createdAt u' = u_createdAt u.

(** ** A scenario

    Two users register; their tokens carry their ids.  The first opens a
    room without a password, the second joins it, and the first then sets
    a password.  The texts of the scenario are ASCII, which the engine
    lowers as [lower] does. *)

Module Scenario.

Definition env (uuid : string) (time : Z) : Env :=
  {| randomUUID := uuid;
     now := λ k, time + Z.of_nat k;
     jwt_sign := λ userId _, userId;
     jwt_verify := λ token,
       if String.eqb token "forged" then VerifyFalse
       else VerifyPayload (Some token);
     toLowerCase := lower |}.

Definition alice : RegisterRequest :=
  {| reg_email := "alice@vibe.io"; reg_username := "alice";
     reg_password := "correct horse"; reg_firstName := "Alice";
     reg_lastName := "A" |}.

Definition bob : RegisterRequest :=
  {| reg_email := "bob@vibe.io"; reg_username := "bob";
     reg_password := "battery staple"; reg_firstName := "Bob";
     reg_lastName := "B" |}.

Definition as_user (token : string) (r : Route) : Request :=
  {| bearer := Some token; route := r |}.

Definition anonymous (r : Route) : Request :=
  {| bearer := None; route := r |}.

Definition two_users : list (Env * Request) :=
  [ (env "u1" 1000, anonymous (ApiAuth (PostRegister alice)));
    (env "u2" 2000, anonymous (ApiAuth (PostRegister bob))) ].

Definition open_room : CreateRoomRequest :=
  {| cr_name := "standup"; cr_description := None; cr_isPrivate := false;
     cr_maxParticipants := 2; cr_password := None |}.

Definition protect : UpdateRoomRequest :=
  {| ur_name := None; ur_description := None; ur_isPrivate := None;
     ur_maxParticipants := None; ur_password := Some "s3cret" |}.

Definition room_of_two : list (Env * Request) :=
  two_users ++
  [ (env "r1" 3000, as_user "u1" (ApiVideo (PostRoom open_room)));
    (env "x" 4000,
     as_user "u2" (ApiVideo (PostJoin "r1" {| jr_password := None |}))) ].

Definition protected_room : list (Env * Request) :=
  room_of_two ++
  [ (env "x" 5000, as_user "u1" (ApiVideo (PutRoom "r1" protect))) ].

Definition hello : CreatePostRequest :=
  {| cp_content := "hello"; cp_images := None |}.

Definition one_post : list (Env * Request) :=
  two_users ++ [ (env "p1" 3000, as_user "u1" (ApiPosts (PostPost hello))) ].

Definition lamp : CreateProductRequest :=
  {| cpr_title := "Lamp"; cpr_description := "A desk lamp";
     cpr_price := 15; cpr_currency := "EUR"; cpr_category := "home";
     cpr_condition := CGood; cpr_images := []; cpr_location := None;
     cpr_tags := ["light"] |}.

Definition one_product : list (Env * Request) :=
  two_users ++
  [ (env "a1" 3000, as_user "u1" (ApiMarketplace (PostProduct lamp))) ].

Definition carol : RegisterRequest :=
  {| reg_email := "carol@vibe.io"; reg_username := "carol";
     reg_password := "tr0ub4dor&3"; reg_firstName := "Carol";
     reg_lastName := "C" |}.

(** The room is full, and a third user exists. *)
Definition full_room : list (Env * Request) :=
  room_of_two ++
  [ (env "u3" 4500, anonymous (ApiAuth (PostRegister carol))) ].

(** The users as the middleware derives them from the tokens. *)
Definition alice_user : CurrentUser :=
  (0%nat,
   {| u_id := "u1"; u_email := "alice@vibe.io"; u_username := "alice";
      u_firstName := "Alice"; u_lastName := "A"; u_avatar := None;
      u_bio := None; u_location := None; u_website := None;
      u_createdAt := 1000; u_updatedAt := 1001 |}).

Definition bob_user : CurrentUser :=
  (1%nat,
   {| u_id := "u2"; u_email := "bob@vibe.io"; u_username := "bob";
      u_firstName := "Bob"; u_lastName := "B"; u_avatar := None;
      u_bio := None; u_location := None; u_website := None;
      u_createdAt := 2000; u_updatedAt := 2001 |}).

Definition carol_user : CurrentUser :=
  (2%nat,
   {| u_id := "u3"; u_email := "carol@vibe.io"; u_username := "carol";
      u_firstName := "Carol"; u_lastName := "C"; u_avatar := None;
      u_bio := None; u_location := None; u_website := None;
      u_createdAt := 4500; u_updatedAt := 4501 |}).

(** The room once the second user has joined. *)
Definition standup : VideoRoom :=
  {| r_id := "r1"; r_name := "standup"; r_description := None;
     r_host := 0%nat; r_participants := [0%nat; 1%nat];
     r_isPrivate := false; r_maxParticipants := 2; r_password := None;
     r_status := Active; r_createdAt := 3000; r_updatedAt := 4000;
     r_endedAt := None |}.

(** The post and the product as stored. *)
Definition hello_post : Post :=
  {| p_id := "p1"; p_content := "hello"; p_author := 0%nat;
     p_images := []; p_likes := []; p_comments := [];
     p_createdAt := 3000; p_updatedAt := 3001 |}.

Definition lamp_product : Product :=
  {| pr_id := "a1"; pr_title := "Lamp"; pr_description := "A desk lamp";
     pr_price := 15; pr_currency := "EUR"; pr_category := "home";
     pr_condition := CGood; pr_images := []; pr_seller := 0%nat;
     pr_location := None; pr_status := Available; pr_tags := ["light"];
     pr_createdAt := 3000; pr_updatedAt := 3001 |}.

Definition reprice : UpdateProductRequest :=
  {| upr_title := None; upr_description := None; upr_price := Some 12%Q;
     upr_condition := None; upr_images := None; upr_location := None;
     upr_status := Some Reserved; upr_tags := None |}.

Definition everything : ProductQuery :=
  {| q_page := None; q_limit := None; q_category := None;
     q_minPrice := None; q_maxPrice := None; q_condition := None;
     q_status := None; q_search := None; q_sortBy := None;
     q_sortOrder := None |}.

End Scenario.

(** ** More of the scenario *)

Module Cases.

(** The first user opens a room and waits in it. *)
Definition waiting_room : list (Env * Request) :=
  Scenario.two_users ++
  [ (Scenario.env "r1" 3000,
     Scenario.as_user "u1" (ApiVideo (PostRoom Scenario.open_room))) ].

Definition lobby : VideoRoom :=
  {| r_id := "r1"; r_name := "standup"; r_description := None;
     r_host := 0%nat; r_participants := [0%nat];
     r_isPrivate := false; r_maxParticipants := 2; r_password := None;
     r_status := Waiting; r_createdAt := 3000; r_updatedAt := 3001;
     r_endedAt := None |}.

(** The host ends the room of two. *)
Definition ended_room : list (Env * Request) :=
  Scenario.room_of_two ++
  [ (Scenario.env "x" 5000, Scenario.as_user "u1" (ApiVideo (PostEnd "r1"))) ].

Definition adjourned : VideoRoom :=
  {| r_id := "r1"; r_name := "standup"; r_description := None;
     r_host := 0%nat; r_participants := [0%nat; 1%nat];
     r_isPrivate := false; r_maxParticipants := 2; r_password := None;
     r_status := Ended; r_createdAt := 3000; r_updatedAt := 5001;
     r_endedAt := Some 5000 |}.

(** The room of two once the host has set a password. *)
Definition locked : VideoRoom :=
  {| r_id := "r1"; r_name := "standup"; r_description := None;
     r_host := 0%nat; r_participants := [0%nat; 1%nat];
     r_isPrivate := false; r_maxParticipants := 2;
     r_password := Some "s3cret";
     r_status := Active; r_createdAt := 3000; r_updatedAt := 5000;
     r_endedAt := None |}.

Definition new_bio : UpdateProfileRequest :=
  {| up_firstName := None; up_lastName := None;
     up_bio := Some "Hello"; up_location := None; up_website := None;
     up_avatar := None |}.

Definition put_bio : Request :=
  Scenario.as_user "u1" (ApiUsers (PutMe new_bio)).

(** The first user once the bio is set. *)
Definition alice_with_bio : User :=
  {| u_id := "u1"; u_email := "alice@vibe.io"; u_username := "alice";
     u_firstName := "Alice"; u_lastName := "A"; u_avatar := None;
     u_bio := Some "Hello"; u_location := None; u_website := None;
     u_createdAt := 1000; u_updatedAt := 5000 |}.

Definition edit : CreatePostRequest :=
  {| cp_content := "hello, world"; cp_images := None |}.

Definition reply : CreateCommentRequest := {| cc_content := "hi" |}.

(** Three users; the first opens a room for five behind a password. *)
Definition boardroom : CreateRoomRequest :=
  {| cr_name := "board"; cr_description := None; cr_isPrivate := false;
     cr_maxParticipants := 5; cr_password := Some "s3cret" |}.

Definition guarded_room : list (Env * Request) :=
  Scenario.two_users ++
  [ (Scenario.env "u3" 4500,
     Scenario.anonymous (ApiAuth (PostRegister Scenario.carol)));
    (Scenario.env "r2" 5000,
     Scenario.as_user "u1" (ApiVideo (PostRoom boardroom))) ].

Definition board : VideoRoom :=
  {| r_id := "r2"; r_name := "board"; r_description := None;
     r_host := 0%nat; r_participants := [0%nat];
     r_isPrivate := false; r_maxParticipants := 5;
     r_password := Some "s3cret";
     r_status := Waiting; r_createdAt := 5000; r_updatedAt := 5001;
     r_endedAt := None |}.







(** The lamp once its seller has set a price of 12 and reserved it. *)
Definition repriced : Product :=
  {| pr_id := "a1"; pr_title := "Lamp"; pr_description := "A desk lamp";
     pr_price := 12; pr_currency := "EUR"; pr_category := "home";
     pr_condition := CGood; pr_images := []; pr_seller := 0%nat;
     pr_location := None; pr_status := Reserved; pr_tags := ["light"];
     pr_createdAt := 3000; pr_updatedAt := 5000 |}.

(** A wrong password, from the third user. *)
Definition guess : Request :=
  Scenario.as_user "u3"
    (ApiVideo (PostJoin "r2" {| jr_password := Some "guess" |})).

End Cases.

(** * Properties *)

(** ** Arrays *)

Section ArrayFacts.
Context {A : Type}.
Implicit Types (f : A → bool) (l : list A).

Lemma find_Some f l i x :
  JS.find f l = Some (i, x) ↔
  l !! i = Some x ∧ f x = true ∧
  ∀ j y, l !! j = Some y → (j < i)%nat → f y = false.
Proof.
  unfold JS.find. rewrite list_find_Some.
  split; intros (Hi & Hx & Hfirst); repeat split; auto.
  - intros j y Hj Hlt. specialize (Hfirst j y Hj Hlt).
    by destruct (f y).
  - intros j y Hj Hlt. rewrite (Hfirst j y Hj Hlt). discriminate.
Qed.

Lemma find_None f l :
  JS.find f l = None ↔ ∀ x, x ∈ l → f x = false.
Proof.
  unfold JS.find. rewrite list_find_None, Forall_forall.
  split; intros H x Hx; specialize (H x Hx).
  - by destruct (f x).
  - rewrite H. discriminate.
Qed.

Lemma some_true f l :
  JS.some f l = true ↔ ∃ x, x ∈ l ∧ f x = true.
Proof.
  unfold JS.some. rewrite existsb_exists.
  by setoid_rewrite list_elem_of_In.
Qed.

Lemma some_false f l :
  JS.some f l = false ↔ ∀ x, x ∈ l → f x = false.
Proof.
  rewrite <- not_true_iff_false, some_true. split.
  - intros H x Hx. destruct (f x) eqn:E; [| done].
    destruct H. eauto.
  - intros H (x & Hx & Hfx). rewrite (H x Hx) in Hfx. discriminate.
Qed.

Lemma some_find f l :
  JS.some f l = true → ∃ i x, JS.find f l = Some (i, x).
Proof.
  intros H. destruct (JS.find f l) as [[i x]|] eqn:E; [eauto |].
  apply some_true in H as (x & Hx & Hfx).
  rewrite (proj1 (find_None f l) E x Hx) in Hfx. discriminate.
Qed.

Lemma findIndex_Some f l k :
  JS.findIndex f l = Some k ↔ ∃ x, JS.find f l = Some (k, x).
Proof.
  unfold JS.findIndex. destruct (JS.find f l) as [[i x]|]; simpl.
  - split; [intros [= ->]; eauto | intros (y & [= -> _]); done].
  - split; [done | intros (y & ?); done].
Qed.

End ArrayFacts.

(** ** Video rooms: joining and leaving *)

(** C4. Joining a full room is rejected: when the room exists, is not
    ended, already holds at least [maxParticipants] users, and the user is
    not one of its participants, the join handler returns an error object
    and leaves the store, hence the participants of the room, as it was. *)
Theorem join_full_room_rejected env id body currentUser st i room :
  JS.find (VideoRoutes.has_id id) (videoRooms st) = Some (i, room) →
  r_status room ≠ Ended →
  (r_maxParticipants room <=
     inject_Z (Z.of_nat (length (r_participants room))))%Q →
  JS.some (VideoRoutes.is_user st currentUser) (r_participants room) = false →
  ∃ message,
    VideoRoutes.join env id body currentUser st = (RError message, st) ∧
    videoRooms st !! i = Some room.
Proof.
  intros Hfind Hstatus Hfull Hnew.
  exists "La salle est pleine". split.
  - unfold VideoRoutes.join. rewrite Hfind.
    rewrite bool_decide_eq_false_2 by done.
    rewrite Hnew.
    apply Qle_bool_iff in Hfull. by rewrite Hfull.
  - by apply find_Some in Hfind as (? & _).
Qed.

(** Once the entry at [k] is spliced out of a list whose images under [g]
    are pairwise distinct, no entry has the image of the removed one. *)
Lemma splice1_removes {A B} (g : A → B) (l : list A) k x y :
  NoDup (g <$> l) → l !! k = Some x → y ∈ JS.splice1 k l → g y ≠ g x.
Proof.
  intros Hnd Hk Hy Heq. unfold JS.splice1 in Hy.
  apply list_elem_of_lookup in Hy as [j Hj].
  assert (∃ j', j' ≠ k ∧ l !! j' = Some y) as (j' & Hne & Hj').
  { destruct (decide (j < k)%nat).
    - exists j. split; [lia |]. by rewrite list_lookup_delete_lt in Hj.
    - exists (S j). split; [lia |].
      by rewrite list_lookup_delete_ge in Hj by lia. }
  apply Hne. eapply (NoDup_lookup (g <$> l)); [done | |].
  - rewrite list_lookup_fmap, Hj'. simpl. by rewrite Heq.
  - by rewrite list_lookup_fmap, Hk.
Qed.

(** C1. A participant who leaves a room is removed from its participants;
    when the leaver was the host and participants remain, the first of
    them becomes the host; when no participant remains, the room is ended
    and [endedAt] is set. *)
Theorem leave_removes_participant env id currentUser st i room :
  JS.find (VideoRoutes.has_id id) (videoRooms st) = Some (i, room) →
  JS.some (VideoRoutes.is_user st currentUser) (r_participants room) = true →
  ∃ k p room',
    JS.find (VideoRoutes.is_user st currentUser) (r_participants room)
      = Some (k, p) ∧
    VideoRoutes.leave env id currentUser st
      = (RMessage "Vous avez quitté la salle",
         set_rooms (<[i := room']>) st) ∧
    videoRooms (VideoRoutes.leave env id currentUser st).2 !! i
      = Some room' ∧
    r_participants room' = delete k (r_participants room) ∧
    (NoDup (user_id st <$> r_participants room) →
     JS.some (VideoRoutes.is_user st currentUser) (r_participants room')
       = false) ∧
    (VideoRoutes.is_user st currentUser (r_host room) = true →
     ∀ first rest,
       r_participants room' = first :: rest → r_host room' = first) ∧
    (r_participants room' = [] →
     r_status room' = Ended ∧ is_Some (r_endedAt room')).
Proof.
  intros Hfind Hin.
  destruct (some_find _ _ Hin) as (k & p & Hk).
  assert (JS.findIndex (VideoRoutes.is_user st currentUser)
            (r_participants room) = Some k) as Hidx
    by (apply findIndex_Some; eauto).
  assert (i < length (videoRooms st))%nat as Hi.
  { apply find_Some in Hfind as (Hi & _). by apply lookup_lt_Some in Hi. }
  assert (NoDup (user_id st <$> r_participants room) →
          JS.some (VideoRoutes.is_user st currentUser)
                  (delete k (r_participants room)) = false) as Hgone.
  { intros Hnd. apply some_false. intros y Hy.
    apply find_Some in Hk as (Hk & Hp & _).
    unfold VideoRoutes.is_user in *. apply String.eqb_eq in Hp.
    apply String.eqb_neq. rewrite <- Hp.
    by apply (splice1_removes (user_id st) (r_participants room) k p y). }
  unfold VideoRoutes.leave. rewrite Hfind, Hidx. cbn zeta.
  eexists k, p, _. split; [done |]. split; [reflexivity |].
  split; [simpl; by apply list_lookup_insert_eq |].
  unfold JS.splice1. cbn [r_host r_participants VideoRoutes.set_updatedAt
    VideoRoutes.set_participants].
  destruct (VideoRoutes.is_user st currentUser (r_host room)) eqn:Hhost;
    destruct (delete k (r_participants room)) as [|first rest] eqn:Hrest;
    cbn; (split; [reflexivity |]); (split; [exact Hgone |]); split;
    try (intros; discriminate); try (intros _; split; [done | eauto]);
    try (intros _ ? ? [= <- _]; done).
Qed.

(** ** The authentication middleware hands out stored users *)

Lemma derive_auth_stored env st bearer currentUser :
  derive_auth env st bearer = inr currentUser →
  users st !! currentUser.1 = Some currentUser.2.
Proof.
  unfold derive_auth. intros H. repeat case_match; simplify_eq.
  destruct currentUser as [i u].
  match goal with H : JS.find _ _ = Some _ |- _ =>
    by apply find_Some in H as (? & _) end.
Qed.

Lemma derive_optional_stored env st bearer currentUser :
  derive_optional env st bearer = Some currentUser →
  users st !! currentUser.1 = Some currentUser.2.
Proof.
  unfold derive_optional. intros H. repeat case_match; simplify_eq.
  destruct currentUser as [i u]. by apply find_Some in H as (? & _).
Qed.

Lemma stored_user_id st (currentUser : CurrentUser) :
  users st !! currentUser.1 = Some currentUser.2 →
  user_id st currentUser.1 = u_id currentUser.2.
Proof. unfold user_id. by intros ->. Qed.

(** ** Participants are unique *)

Lemma elem_of_insert_inv {A} (l : list A) i x y :
  y ∈ <[i := x]> l → y = x ∨ y ∈ l.
Proof.
  intros [j Hj]%list_elem_of_lookup.
  apply list_lookup_insert_Some in Hj as [(-> & -> & _) | (_ & Hj)].
  - by left.
  - right. apply list_elem_of_lookup. eauto.
Qed.

Lemma users_extend_refl st : users_extend st st.
Proof. by split. Qed.

Lemma rooms_wf_frame st st' :
  users_extend st st' → videoRooms st' = videoRooms st →
  rooms_wf st → rooms_wf st'.
Proof.
  intros [Hlen Hid] Hrooms Hwf room Hin. rewrite Hrooms in Hin.
  destruct (Hwf room Hin) as [Hvalid Hnd]. split.
  - intros p Hp. specialize (Hvalid p Hp). lia.
  - erewrite list_fmap_ext; [exact Hnd |].
    intros j p Hj. apply Hid, Hvalid. apply list_elem_of_lookup. eauto.
Qed.

Lemma rooms_wf_insert st i room' :
  rooms_wf st → room_wf st room' →
  rooms_wf (set_rooms (<[i := room']>) st).
Proof.
  intros Hwf Hroom room Hin. simpl in Hin.
  apply elem_of_insert_inv in Hin as [-> | Hin]; [exact Hroom |].
  exact (Hwf room Hin).
Qed.

Lemma room_wf_same_participants st room room' :
  r_participants room' = r_participants room →
  room_wf st room → room_wf st room'.
Proof. unfold room_wf. by intros ->. Qed.

(** The video handlers keep the rooms well formed. *)
Lemma videoRoutes_wf env r currentUser st :
  users st !! currentUser.1 = Some currentUser.2 →
  rooms_wf st → rooms_wf (videoRoutes env r currentUser st).2.
Proof.
  intros Hcu Hwf.
  assert (∀ i room, JS.find (VideoRoutes.has_id i) (videoRooms st)
                      = Some room → room_wf st room.2) as Hfound.
  { intros i [j room] (Hj & _)%find_Some. apply Hwf.
    apply list_elem_of_lookup. eauto. }
  destruct r as [body | status | id | id body | id | id | page limit
                 | id body]; simpl; try done.
  - (* create *)
    intros room Hin. simpl in Hin. unfold JS.unshift in Hin.
    apply elem_of_cons in Hin as [-> | Hin]; [| by apply Hwf].
    split; simpl.
    + intros p ->%list_elem_of_singleton. by apply lookup_lt_Some in Hcu.
    + apply NoDup_singleton.
  - (* join *)
    unfold VideoRoutes.join.
    destruct (JS.find _ _) as [[i room]|] eqn:Hfind; [| done].
    specialize (Hfound _ _ Hfind) as [Hvalid Hnd]. simpl in Hvalid, Hnd.
    repeat case_match; try done; simpl.
    all: apply rooms_wf_insert; [done |].
    all: split; simpl; unfold JS.push.
    all: try (intros p [Hp | ->%list_elem_of_singleton]%elem_of_app;
              [by apply Hvalid | by apply lookup_lt_Some in Hcu]).
    all: rewrite fmap_snoc; apply NoDup_app; split; [done |].
    all: split; [| apply NoDup_singleton].
    all: intros x Hx ->%list_elem_of_singleton.
    all: apply list_elem_of_fmap in Hx as (p & Hid & Hp).
    all: match goal with H : JS.some _ _ = false |- _ =>
           apply (proj1 (some_false _ _)) with (x := p) in H; [| done];
           unfold VideoRoutes.is_user in H; apply String.eqb_neq in H;
           apply H end.
    all: by rewrite <- Hid, stored_user_id.
  - (* leave *)
    unfold VideoRoutes.leave.
    destruct (JS.find _ _) as [[i room]|] eqn:Hfind; [| done].
    specialize (Hfound _ _ Hfind) as [Hvalid Hnd]. simpl in Hvalid, Hnd.
    destruct (JS.findIndex _ _) as [k|]; [| done]. cbn zeta.
    apply rooms_wf_insert; [done |].
    apply room_wf_same_participants
      with (room := VideoRoutes.set_participants
                      (JS.splice1 k (r_participants room)) room).
    { repeat case_match; reflexivity. }
    split; simpl; unfold JS.splice1.
    + intros p Hp%list_elem_of_delete_inv. by apply Hvalid.
    + rewrite list_fmap_delete.
      eapply sublist_NoDup; [exact Hnd | apply sublist_delete].
  - (* end *)
    unfold VideoRoutes.end_room.
    destruct (JS.find _ _) as [[i room]|] eqn:Hfind; [| done].
    specialize (Hfound _ _ Hfind).
    repeat case_match; try done; simpl.
    apply rooms_wf_insert; [done |].
    by apply room_wf_same_participants with (room := room).
  - (* update *)
    unfold VideoRoutes.update.
    destruct (JS.find _ _) as [[i room]|] eqn:Hfind; [| done].
    specialize (Hfound _ _ Hfind).
    repeat case_match; try done; simpl.
    apply rooms_wf_insert; [done |].
    by apply room_wf_same_participants with (room := room).
Qed.

Lemma authRoutes_frame env bearer r st :
  users_extend st (authRoutes env bearer r st).2 ∧
  videoRooms (authRoutes env bearer r st).2 = videoRooms st.
Proof.
  destruct r; simpl; try (split; [apply users_extend_refl | done]).
  unfold AuthRoutes.register. case_match; simpl;
    [split; [apply users_extend_refl | done] |].
  split; [| done]. unfold users_extend, user_id, JS.push; simpl. split.
  - rewrite length_app. lia.
  - intros r Hr. by rewrite lookup_app_l.
Qed.

Lemma userRoutes_frame env r currentUser st :
  users st !! currentUser.1 = Some currentUser.2 →
  users_extend st (userRoutes env r currentUser st).2 ∧
  videoRooms (userRoutes env r currentUser st).2 = videoRooms st.
Proof.
  intros Hcu.
  destruct r; simpl; try (split; [apply users_extend_refl | done]).
  split; [| done]. unfold users_extend, user_id; simpl. split.
  - by rewrite length_insert.
  - intros r Hr. destruct (decide (r = currentUser.1)) as [-> | Hne].
    + rewrite list_lookup_insert_eq by done. by rewrite Hcu.
    + by rewrite list_lookup_insert_ne.
Qed.

Lemma postRoutes_frame env r currentUser st :
  users (postRoutes env r currentUser st).2 = users st ∧
  videoRooms (postRoutes env r currentUser st).2 = videoRooms st.
Proof.
  destruct r; simpl; try done;
    unfold PostRoutes.update, PostRoutes.remove, PostRoutes.like,
      PostRoutes.comment;
    repeat case_match; done.
Qed.

Lemma marketplaceRoutes_frame env r currentUser st :
  users (marketplaceRoutes env r currentUser st).2 = users st ∧
  videoRooms (marketplaceRoutes env r currentUser st).2 = videoRooms st.
Proof.
  destruct r; simpl; try done;
    unfold MarketplaceRoutes.create, MarketplaceRoutes.update,
      MarketplaceRoutes.remove, MarketplaceRoutes.mark_sold;
    repeat case_match; done.
Qed.

Lemma users_extend_same st st' : users st' = users st → users_extend st st'.
Proof. unfold users_extend, user_id. by intros ->. Qed.

Lemma handle_wf env req st :
  rooms_wf st → rooms_wf (handle env req st).2.
Proof.
  intros Hwf. unfold handle, guarded.
  destruct (route req) as [| r | r | r | r | r]; simpl; try done.
  - destruct (authRoutes_frame env (bearer req) r st).
    by eapply rooms_wf_frame.
  - destruct (derive_auth _ _ _) as [e | currentUser] eqn:Hd; [done |].
    apply derive_auth_stored in Hd.
    destruct (userRoutes_frame env r currentUser st Hd).
    by eapply rooms_wf_frame.
  - destruct (derive_auth _ _ _) as [e | currentUser] eqn:Hd; [done |].
    destruct (postRoutes_frame env r currentUser st).
    eapply rooms_wf_frame; [by apply users_extend_same | done | done].
  - destruct (marketplaceRoutes_frame env r
                (derive_optional env st (bearer req)) st).
    eapply rooms_wf_frame; [by apply users_extend_same | done | done].
  - destruct (derive_auth _ _ _) as [e | currentUser] eqn:Hd; [done |].
    apply derive_auth_stored in Hd. by apply videoRoutes_wf.
Qed.

Lemma run_wf trace st : rooms_wf st → rooms_wf (run trace st).
Proof.
  revert st. induction trace as [| [env req] trace IH]; intros st Hwf;
    [done |].
  apply IH. by apply handle_wf.
Qed.

(** C9. In every store reached from the empty one by a sequence of
    requests (room creation, join, leave, end and update among them), the
    participants of every room have pairwise distinct user ids. *)
Theorem participants_unique trace room :
  room ∈ videoRooms (reached trace) →
  NoDup (user_id (reached trace) <$> r_participants room).
Proof.
  intros Hin.
  assert (rooms_wf (reached trace)) as Hwf.
  { apply run_wf. intros r Hr. simpl in Hr. by apply elem_of_nil in Hr. }
  by destruct (Hwf room Hin).
Qed.

(** ** Likes *)

Lemma find_insert_same {A} (f : A → bool) (l : list A) i x x' :
  JS.find f l = Some (i, x) → f x' = true →
  JS.find f (<[i := x']> l) = Some (i, x').
Proof.
  intros (Hi & _ & Hfirst)%find_Some Hx'. apply find_Some.
  split; [| split; [done |]].
  - apply list_lookup_insert_eq. by apply lookup_lt_Some in Hi.
  - intros j y Hj Hlt. rewrite list_lookup_insert_ne in Hj by lia. eauto.
Qed.

Lemma indexOf_None x (l : list string) :
  JS.indexOf x l = None ↔ x ∉ l.
Proof.
  unfold JS.indexOf, JS.findIndex.
  destruct (JS.find _ _) as [[k y]|] eqn:E; simpl.
  - split; [done |]. intros Hx. exfalso. apply Hx.
    apply find_Some in E as (Hk & ->%String.eqb_eq & _).
    apply list_elem_of_lookup. eauto.
  - split; [| done]. intros _ Hx.
    pose proof (proj1 (find_None _ _) E x Hx) as H.
    by rewrite String.eqb_refl in H.
Qed.

Lemma indexOf_Some x (l : list string) k :
  JS.indexOf x l = Some k → l !! k = Some x.
Proof.
  unfold JS.indexOf. intros (y & Hf)%findIndex_Some.
  by apply find_Some in Hf as (Hk & ->%String.eqb_eq & _).
Qed.

Lemma indexOf_push x (l : list string) :
  x ∉ l → JS.indexOf x (JS.push x l) = Some (length l).
Proof.
  intros Hx. apply findIndex_Some. exists x. apply find_Some.
  unfold JS.push. split; [| split].
  - by rewrite lookup_app_r, Nat.sub_diag.
  - apply String.eqb_refl.
  - intros j y Hj Hlt. rewrite lookup_app_l in Hj by done.
    apply String.eqb_neq. intros ->. apply Hx.
    apply list_elem_of_lookup. eauto.
Qed.

Lemma splice1_push {A} (x : A) (l : list A) :
  JS.splice1 (length l) (JS.push x l) = l.
Proof.
  unfold JS.splice1, JS.push. induction l as [| y l IH]; simpl; [done |].
  f_equal. exact IH.
Qed.

Lemma set_likes_id post : PostRoutes.set_likes (p_likes post) post = post.
Proof. by destruct post. Qed.

Lemma set_likes_set_likes l l' post :
  PostRoutes.set_likes l (PostRoutes.set_likes l' post)
  = PostRoutes.set_likes l post.
Proof. done. Qed.

(** Two likes in a row by one user on a post without duplicate likes. *)
Lemma like_twice id currentUser st i post :
  JS.find (PostRoutes.has_id id) (posts st) = Some (i, post) →
  NoDup (p_likes post) →
  ∃ liked1 liked2 n1 m1 m2 st1 st2 post2,
    PostRoutes.like id currentUser st = (RLike liked1 n1 m1, st1) ∧
    PostRoutes.like id currentUser st1
      = (RLike liked2 (length (p_likes post)) m2, st2) ∧
    JS.find (PostRoutes.has_id id) (posts st2) = Some (i, post2) ∧
    length (p_likes post2) = length (p_likes post) ∧
    liked2 = negb liked1 ∧
    (liked1 = true ↔ u_id currentUser.2 ∉ p_likes post).
Proof.
  intros Hfind Hnd.
  assert (PostRoutes.has_id id post = true) as Hid
    by (by apply find_Some in Hfind as (_ & ? & _)).
  destruct (JS.indexOf (u_id currentUser.2) (p_likes post)) as [k|] eqn:Hidx.
  - (* the user had liked the post: unlike, then like *)
    pose proof (indexOf_Some _ _ _ Hidx) as Hk.
    assert (u_id currentUser.2 ∉ JS.splice1 k (p_likes post)) as Hgone.
    { intros Hin.
      apply (splice1_removes Datatypes.id (p_likes post) k
               (u_id currentUser.2) (u_id currentUser.2)); try done.
      by rewrite list_fmap_id. }
    apply indexOf_None in Hgone.
    eexists false, true, _, _, _, _, _, _.
    split; [unfold PostRoutes.like; rewrite Hfind, Hidx; reflexivity |].
    split.
    { unfold PostRoutes.like. simpl.
      erewrite find_insert_same; [| exact Hfind | exact Hid].
      simpl. rewrite Hgone. unfold JS.push, JS.splice1.
      rewrite length_app, (length_delete (p_likes post) k) by (by rewrite Hk). simpl.
      apply lookup_lt_Some in Hk.
      replace (length (p_likes post) - 1 + 1)%nat
        with (length (p_likes post)) by lia.
      reflexivity. }
    split; [| split; [| split; [done |]]].
    + simpl. eapply find_insert_same; [| exact Hid].
      eapply find_insert_same; [exact Hfind | exact Hid].
    + simpl. unfold JS.push, JS.splice1.
      rewrite length_app, (length_delete (p_likes post) k) by (by rewrite Hk). simpl.
      apply lookup_lt_Some in Hk. lia.
    + split; [done |]. intros Hnot. exfalso. apply Hnot.
      apply list_elem_of_lookup. eauto.
  - (* the user had not liked the post: like, then unlike *)
    pose proof (proj1 (indexOf_None _ _) Hidx) as Hnot.
    eexists true, false, _, _, _, _, _, _.
    split; [unfold PostRoutes.like; rewrite Hfind, Hidx; reflexivity |].
    split.
    { unfold PostRoutes.like. simpl.
      erewrite find_insert_same; [| exact Hfind | exact Hid].
      simpl. rewrite indexOf_push by done. rewrite splice1_push.
      reflexivity. }
    split; [| split; [| done]].
    + simpl. eapply find_insert_same; [| exact Hid].
      eapply find_insert_same; [exact Hfind | exact Hid].
    + done.
Qed.

Lemma posts_wf_insert st i post' :
  posts_wf st → NoDup (p_likes post') →
  posts_wf (set_posts (<[i := post']>) st).
Proof.
  intros Hwf Hpost post Hin. simpl in Hin.
  apply elem_of_insert_inv in Hin as [-> | Hin]; [done |].
  exact (Hwf post Hin).
Qed.

Lemma postRoutes_wf env r currentUser st :
  posts_wf st → posts_wf (postRoutes env r currentUser st).2.
Proof.
  intros Hwf.
  assert (∀ i post, JS.find (PostRoutes.has_id i) (posts st) = Some post →
                    NoDup (p_likes post.2)) as Hfound.
  { intros i [j post] (Hj & _)%find_Some. apply Hwf.
    apply list_elem_of_lookup. eauto. }
  destruct r as [body | page limit | id | id body | id | id | id body | id];
    simpl; try done.
  - intros post Hin. simpl in Hin. unfold JS.unshift in Hin.
    apply elem_of_cons in Hin as [-> | Hin]; [| by apply Hwf].
    simpl. apply NoDup_nil_2.
  - unfold PostRoutes.update.
    destruct (JS.find _ _) as [[i post]|] eqn:Hfind; [| done].
    specialize (Hfound _ _ Hfind). case_match; [done |].
    by apply posts_wf_insert.
  - unfold PostRoutes.remove.
    destruct (JS.find _ _) as [[i post]|] eqn:Hfind; [| done].
    case_match; [done |]. intros p Hin. simpl in Hin.
    apply list_elem_of_delete_inv in Hin. by apply Hwf.
  - unfold PostRoutes.like.
    destruct (JS.find _ _) as [[i post]|] eqn:Hfind; [| done].
    specialize (Hfound _ _ Hfind). simpl in Hfound.
    destruct (JS.indexOf _ _) as [k|] eqn:Hidx;
      apply posts_wf_insert; try done; simpl.
    + eapply sublist_NoDup; [exact Hfound | apply sublist_delete].
    + apply indexOf_None in Hidx. unfold JS.push.
      apply NoDup_app. split; [done |]. split; [| apply NoDup_singleton].
      by intros x Hx ->%list_elem_of_singleton.
  - unfold PostRoutes.comment.
    destruct (JS.find _ _) as [[i post]|] eqn:Hfind; [| done].
    specialize (Hfound _ _ Hfind). by apply posts_wf_insert.
Qed.

Lemma authRoutes_posts env bearer r st :
  posts (authRoutes env bearer r st).2 = posts st.
Proof.
  destruct r; simpl; try done. unfold AuthRoutes.register.
  by case_match.
Qed.

Lemma userRoutes_posts env r currentUser st :
  posts (userRoutes env r currentUser st).2 = posts st.
Proof. by destruct r. Qed.

Lemma marketplaceRoutes_posts env r currentUser st :
  posts (marketplaceRoutes env r currentUser st).2 = posts st.
Proof.
  destruct r; simpl; try done;
    unfold MarketplaceRoutes.create, MarketplaceRoutes.update,
      MarketplaceRoutes.remove, MarketplaceRoutes.mark_sold;
    repeat case_match; done.
Qed.

Lemma videoRoutes_posts env r currentUser st :
  posts (videoRoutes env r currentUser st).2 = posts st.
Proof.
  destruct r; simpl; try done;
    unfold VideoRoutes.join, VideoRoutes.leave, VideoRoutes.end_room,
      VideoRoutes.update;
    repeat case_match; done.
Qed.

Lemma handle_posts_wf env req st :
  posts_wf st → posts_wf (handle env req st).2.
Proof.
  intros Hwf. unfold handle, guarded, posts_wf.
  destruct (route req) as [| r | r | r | r | r]; simpl; try done.
  - by rewrite authRoutes_posts.
  - destruct (derive_auth _ _ _); [done |]. simpl.
    by rewrite userRoutes_posts.
  - destruct (derive_auth _ _ _); [done |]. by apply postRoutes_wf.
  - by rewrite marketplaceRoutes_posts.
  - destruct (derive_auth _ _ _); [done |]. simpl.
    by rewrite videoRoutes_posts.
Qed.

Lemma run_posts_wf trace st : posts_wf st → posts_wf (run trace st).
Proof.
  revert st. induction trace as [| [env req] trace IH]; intros st Hwf;
    [done |].
  apply IH. by apply handle_posts_wf.
Qed.

(** C5. On a post of a reached store, two likes in a row by one user
    restore the number of likes: the second call reports the count the
    post had before the first, and the post is left with that many likes;
    the first call reports [liked: true] exactly when the user's id was
    not among the likes, and the second reports the opposite. *)
Theorem like_twice_restores_count trace id currentUser i post :
  JS.find (PostRoutes.has_id id) (posts (reached trace)) = Some (i, post) →
  ∃ liked1 liked2 n1 m1 m2 st1 st2 post2,
    PostRoutes.like id currentUser (reached trace)
      = (RLike liked1 n1 m1, st1) ∧
    PostRoutes.like id currentUser st1
      = (RLike liked2 (length (p_likes post)) m2, st2) ∧
    JS.find (PostRoutes.has_id id) (posts st2) = Some (i, post2) ∧
    length (p_likes post2) = length (p_likes post) ∧
    liked2 = negb liked1 ∧
    (liked1 = true ↔ u_id currentUser.2 ∉ p_likes post).
Proof.
  intros Hfind. apply like_twice; [done |].
  assert (posts_wf (reached trace)) as Hwf.
  { apply run_posts_wf. intros p Hp. simpl in Hp.
    by apply elem_of_nil in Hp. }
  apply Hwf. apply find_Some in Hfind as (Hi & _).
  apply list_elem_of_lookup. eauto.
Qed.

(** ** Failure leaves the stores alone *)

Ltac error_path :=
  repeat case_match; simplify_eq; simpl in *; try done.

Lemma authRoutes_atomic env bearer r st :
  is_error (authRoutes env bearer r st).1 = true →
  (authRoutes env bearer r st).2 = st.
Proof.
  destruct r; simpl; try done. unfold AuthRoutes.register. error_path.
Qed.

Lemma userRoutes_atomic env r currentUser st :
  is_error (userRoutes env r currentUser st).1 = true →
  (userRoutes env r currentUser st).2 = st.
Proof. destruct r; simpl; done. Qed.

Lemma postRoutes_atomic env r currentUser st :
  is_error (postRoutes env r currentUser st).1 = true →
  (postRoutes env r currentUser st).2 = st.
Proof.
  destruct r; simpl; try done;
    unfold PostRoutes.update, PostRoutes.remove, PostRoutes.like,
      PostRoutes.comment; error_path.
Qed.

Lemma marketplaceRoutes_atomic env r currentUser st :
  is_error (marketplaceRoutes env r currentUser st).1 = true →
  (marketplaceRoutes env r currentUser st).2 = st.
Proof.
  destruct r; simpl; try done;
    unfold MarketplaceRoutes.create, MarketplaceRoutes.update,
      MarketplaceRoutes.remove, MarketplaceRoutes.mark_sold; error_path.
Qed.

Lemma videoRoutes_atomic env r currentUser st :
  is_error (videoRoutes env r currentUser st).1 = true →
  (videoRoutes env r currentUser st).2 = st.
Proof.
  destruct r; simpl; try done;
    unfold VideoRoutes.join, VideoRoutes.leave, VideoRoutes.end_room,
      VideoRoutes.update; error_path.
Qed.

(** C10. Every handler is atomic on failure: when a request is answered
    by an object with [error: true], the stores ([users],
    [userCredentials], [posts], [products], [videoRooms]) are as they were
    before the request. *)
Theorem error_leaves_store env req st response :
  (handle env req st).1 = Returned response →
  is_error response = true →
  (handle env req st).2 = st.
Proof.
  unfold handle, guarded, returned.
  destruct (route req) as [| r | r | r | r | r]; simpl.
  - done.
  - intros [= <-]. apply authRoutes_atomic.
  - destruct (derive_auth _ _ _); [done |]. simpl.
    intros [= <-]. apply userRoutes_atomic.
  - destruct (derive_auth _ _ _); [done |]. simpl.
    intros [= <-]. apply postRoutes_atomic.
  - intros [= <-]. apply marketplaceRoutes_atomic.
  - destruct (derive_auth _ _ _); [done |]. simpl.
    intros [= <-]. apply videoRoutes_atomic.
Qed.

(** ** Room passwords in responses *)

(** The public listing never carries a password. *)
Lemma list_rooms_hides_password status st rooms count out :
  VideoRoutes.list_rooms status st = RRooms rooms count →
  out ∈ rooms → r_password (ro_room out) = None.
Proof.
  unfold VideoRoutes.list_rooms. intros [= <- _] Hin.
  by apply list_elem_of_fmap in Hin as (room & -> & _).
Qed.

(** The history never carries a password. *)
Lemma history_hides_password page limit currentUser st rooms pg out :
  VideoRoutes.history page limit currentUser st = RHistory rooms pg →
  out ∈ rooms → r_password (ro_room out) = None.
Proof.
  unfold VideoRoutes.history. intros [= <- _] Hin.
  by apply list_elem_of_fmap in Hin as (room & -> & _).
Qed.

(** Fetching one room carries its password exactly for the host. *)
Lemma get_room_password id currentUser st out message :
  VideoRoutes.get id currentUser st = RRoom out message →
  ∃ i room,
    JS.find (VideoRoutes.has_id id) (videoRooms st) = Some (i, room) ∧
    r_password (ro_room out) =
      if String.eqb (user_id st (r_host room)) (u_id currentUser.2)
      then r_password room else None.
Proof.
  unfold VideoRoutes.get.
  destruct (JS.find _ _) as [[i room]|]; [| done].
  case_match; [done |]. intros [= <- _]. by exists i, room.
Qed.

(** C8. The join handler answers a user who is already in the room with
    the stored room object, password included: in the scenario the second
    user, who is not the host and joined before any password was set,
    reads the password the host set afterwards. *)
Theorem join_again_returns_password :
  let st := reached Scenario.protected_room in
  ∃ room,
    videoRooms st = [room] ∧
    user_id st (r_host room) = "u1" ∧
    r_password room = Some "s3cret" ∧
    handle (Scenario.env "x" 6000)
      (Scenario.as_user "u2"
         (ApiVideo (PostJoin "r1" {| jr_password := None |}))) st
    = (Returned (RRoom (VideoRoutes.plain room)
                       (Some "Vous êtes déjà dans cette salle")), st).
Proof. eexists. vm_compute. repeat split. Qed.

(** ** Authentication failures *)

Lemma derive_auth_rejected env st bearer :
  token_rejected env bearer = true →
  ∃ e, derive_auth env st bearer = inl e.
Proof.
  unfold token_rejected, derive_auth.
  destruct bearer as [token|]; [| eauto].
  destruct (JS.truthy (Some token)); simpl; [| eauto].
  destruct (jwt_verify env token); eauto. done.
Qed.

Lemma derive_optional_rejected env st bearer :
  token_rejected env bearer = true →
  derive_optional env st bearer = None.
Proof.
  unfold token_rejected, derive_optional.
  destruct bearer as [token|]; [| done].
  destruct (JS.truthy (Some token)); simpl; [| done].
  by destruct (jwt_verify env token).
Qed.

(** C2 as stated fails on the marketplace: an unauthenticated creation is
    answered with an error object, its middleware does not throw. *)
Lemma marketplace_auth_returns_error :
  ¬ (∀ env req st,
       requires_auth (route req) = true →
       token_rejected env (bearer req) = true →
       ∃ e, (handle env req st).1 = Thrown e).
Proof.
  intros H.
  destruct (H (Scenario.env "x" 0)
              (Scenario.anonymous (ApiMarketplace (PostProduct Scenario.lamp)))
              empty_store eq_refl eq_refl) as [e He].
  discriminate He.
Qed.

(** C2, amended. With a missing or invalid bearer token, the middleware of
    the users, posts and video modules throws and the store is untouched;
    the marketplace middleware does not throw: its handlers that need a
    user return the error object "Authentification requise", the others
    answer as usual; the auth module and the health check return an
    object.  Whenever a request throws at all, it is the middleware of the
    users, posts or video module that threw: no handler does. *)
Theorem auth_failure_outcomes env req st :
  (token_rejected env (bearer req) = true →
   match route req with
   | ApiUsers _ | ApiPosts _ | ApiVideo _ =>
       ∃ e, handle env req st = (Thrown e, st)
   | ApiMarketplace _ =>
       if requires_auth (route req)
       then handle env req st
            = (Returned (RError "Authentification requise"), st)
       else ∃ response, handle env req st = (Returned response, st)
   | _ => ∃ response st', handle env req st = (Returned response, st')
   end) ∧
  (∀ e, (handle env req st).1 = Thrown e →
        guarded_module (route req) = true ∧
        derive_auth env st (bearer req) = inl e).
Proof.
  split.
  - intros Hrej. unfold handle, guarded.
    destruct (route req) as [| r | r | r | r | r]; simpl; eauto.
    + destruct (derive_auth_rejected env st _ Hrej) as [e ->]. eauto.
    + destruct (derive_auth_rejected env st _ Hrej) as [e ->]. eauto.
    + rewrite (derive_optional_rejected env st _ Hrej).
      destruct r; simpl; eauto.
    + destruct (derive_auth_rejected env st _ Hrej) as [e ->]. eauto.
  - intros e. unfold handle, guarded.
    destruct (route req) as [| r | r | r | r | r]; simpl; try done.
    all: destruct (derive_auth _ _ _); simpl; [| done].
    all: by intros [= ->].
Qed.

(** ** Creation and uniqueness *)

(** C3 as stated fails on registration: registering an email twice fails
    the second time. *)
Lemma register_enforces_uniqueness :
  ¬ (∀ env body st, is_error (AuthRoutes.register env body st).1 = false).
Proof.
  intros H.
  specialize (H (Scenario.env "u3" 3000) Scenario.alice
                (reached Scenario.two_users)).
  discriminate H.
Qed.

(** C3, amended. Creating a post, a product or a room never fails for an
    authenticated user, whatever is stored: the new entity is put in front
    of the store, next to any entity with the same field values, and the
    rest of the store is as it was.  A comment is created whenever its
    post exists: it is appended to the comments of the post found, with
    the content sent, the caller as author and the id asked for as
    [postId].
    Registration does enforce uniqueness: it fails exactly when a stored
    user has the same email or the same username, and then leaves the
    store as it was; otherwise the new user is appended to [users], the
    password is recorded for the email, and nothing else changes. *)
Theorem creation_uniqueness env currentUser st :
  (∀ body, ∃ post message,
     PostRoutes.create env body currentUser st
     = (RPost (PostRoutes.plain post) message, set_posts (cons post) st) ∧
     p_content post = cp_content body ∧
     p_author post = currentUser.1) ∧
  (∀ body, ∃ product message,
     MarketplaceRoutes.create env body (Some currentUser) st
     = (RProduct product message, set_products (cons product) st) ∧
     pr_title product = cpr_title body ∧
     pr_seller product = currentUser.1) ∧
  (∀ body, ∃ room message,
     VideoRoutes.create env body currentUser st
     = (RRoom (VideoRoutes.plain room) message, set_rooms (cons room) st) ∧
     r_name room = cr_name body ∧
     r_host room = currentUser.1) ∧
  (∀ id body i post,
     JS.find (PostRoutes.has_id id) (posts st) = Some (i, post) →
     ∃ comment message,
       PostRoutes.comment env id body currentUser st
       = (RComment comment message,
          set_posts
            (<[i := PostRoutes.set_comments
                      (JS.push comment (p_comments post)) post]>) st) ∧
       c_content comment = cc_content body ∧
       c_author comment = currentUser.1 ∧
       c_postId comment = id) ∧
  (∀ body,
     is_error (AuthRoutes.register env body st).1 = true ↔
     ∃ user, user ∈ users st ∧
             (u_email user = reg_email body
              ∨ u_username user = reg_username body)) ∧
  (∀ body,
     is_error (AuthRoutes.register env body st).1 = true →
     (AuthRoutes.register env body st).2 = st) ∧
  (∀ body,
     is_error (AuthRoutes.register env body st).1 = false →
     ∃ user token,
       AuthRoutes.register env body st
       = (RAuth user token,
          set_credentials (insert (reg_email body) (reg_password body))
            (set_users (JS.push user) st)) ∧
       u_email user = reg_email body ∧
       u_username user = reg_username body).
Proof.
  split; [| split; [| split; [| split; [| split; [| split]]]]].
  - intros body. eexists _, _. split; [reflexivity | done].
  - intros body. eexists _, _. split; [reflexivity | done].
  - intros body. eexists _, _. split; [reflexivity | done].
  - intros id body i post Hfind. unfold PostRoutes.comment. rewrite Hfind.
    eexists _, _. split; [reflexivity | done].
  - intros body. unfold AuthRoutes.register. split.
    + destruct (JS.find _ _) as [[i user]|] eqn:Hfind; simpl; [| done].
      intros _. exists user.
      apply find_Some in Hfind as (Hi & Hmatch & _). split.
      * apply list_elem_of_lookup. eauto.
      * apply orb_true_iff in Hmatch
          as [H%String.eqb_eq | H%String.eqb_eq]; eauto.
    + intros (user & Hin & Hsame).
      destruct (JS.find _ _) as [[i u]|] eqn:Hfind; simpl; [done |].
      pose proof (proj1 (find_None _ _) Hfind user Hin) as Hno.
      apply orb_false_iff in Hno as [He%String.eqb_neq Hu%String.eqb_neq].
      by destruct Hsame.
  - intros body. unfold AuthRoutes.register.
    by destruct (JS.find _ _) as [[i user]|].
  - intros body. unfold AuthRoutes.register.
    destruct (JS.find _ _) as [[i user]|] eqn:Hfind; simpl; [done |].
    intros _. eexists _, _. split; [reflexivity | done].
Qed.

(** ** Updates merge in place *)

Lemma merged_default {A} (given : option A) old :
  merged given old (default old given).
Proof. by destruct given. Qed.

Lemma merged_merge_opt {A} (given old : option A) :
  merged (Some <$> given) old (merge_opt given old).
Proof. by destruct given. Qed.

Lemma replaced_at_insert {A} (l : list A) i x :
  (i < length l)%nat → replaced_at l (<[i := x]> l) i x.
Proof.
  intros Hi. split; [| split].
  - by apply list_lookup_insert_eq.
  - apply length_insert.
  - intros j Hj. by apply list_lookup_insert_ne.
Qed.

Create HintDb merge.
#[local] Hint Resolve merged_default merged_merge_opt : merge.

(** The three PUT requests. *)
Lemma put_product_effect env bearer id body st response st' :
  handle env {| bearer := bearer;
                route := ApiMarketplace (PutProduct id body) |} st
    = (Returned response, st') →
  is_error response = false →
  ∃ currentUser i product product',
    derive_optional env st bearer = Some currentUser ∧
    JS.find (MarketplaceRoutes.has_id id) (products st)
      = Some (i, product) ∧
    user_id st (pr_seller product) = u_id currentUser.2 ∧
    response = RProduct product' (Some "Produit mis à jour avec succès") ∧
    product_merged body (now env 0) product product' ∧
    replaced_at (products st) (products st') i product' ∧
    users st' = users st ∧ userCredentials st' = userCredentials st ∧
    posts st' = posts st ∧ videoRooms st' = videoRooms st.
Proof.
  unfold handle, returned. simpl. unfold MarketplaceRoutes.update.
  destruct (derive_optional env st bearer) as [currentUser|];
    [| by intros [= <- <-]].
  destruct (JS.find _ _) as [[i product]|] eqn:Hfind;
    [| by intros [= <- <-]].
  destruct (String.eqb _ _) eqn:Hseller; simpl; [| by intros [= <- <-]].
  intros [= <- <-] _. apply String.eqb_eq in Hseller.
  eexists currentUser, i, product, _.
  do 4 (split; [done |]).
  split; [unfold product_merged; simpl; repeat split; auto with merge |].
  split; [| done]. apply replaced_at_insert.
  apply find_Some in Hfind as (Hi & _). by apply lookup_lt_Some in Hi.
Qed.

Lemma put_room_effect env bearer id body st response st' :
  handle env {| bearer := bearer; route := ApiVideo (PutRoom id body) |} st
    = (Returned response, st') →
  is_error response = false →
  ∃ currentUser i room room',
    derive_auth env st bearer = inr currentUser ∧
    JS.find (VideoRoutes.has_id id) (videoRooms st) = Some (i, room) ∧
    user_id st (r_host room) = u_id currentUser.2 ∧
    r_status room ≠ Ended ∧
    response = RRoom (VideoRoutes.with_count (r_password room') room')
                     (Some "Salle mise à jour avec succès") ∧
    room_merged body (now env 0) room room' ∧
    replaced_at (videoRooms st) (videoRooms st') i room' ∧
    users st' = users st ∧ userCredentials st' = userCredentials st ∧
    posts st' = posts st ∧ products st' = products st.
Proof.
  unfold handle, guarded, returned. simpl.
  destruct (derive_auth env st bearer) as [e | currentUser]; [done |].
  simpl. unfold VideoRoutes.update, VideoRoutes.is_user.
  destruct (JS.find _ _) as [[i room]|] eqn:Hfind;
    [| by intros [= <- <-]].
  destruct (String.eqb _ _) eqn:Hhost; simpl; [| by intros [= <- <-]].
  case_bool_decide as Hstatus; [by intros [= <- <-] |].
  intros [= <- <-] _. apply String.eqb_eq in Hhost.
  exists currentUser, i, room, (VideoRoutes.assign room body (now env 0)).
  do 5 (split; [done |]).
  split; [unfold room_merged; simpl; repeat split; auto with merge |].
  split; [| done]. apply replaced_at_insert.
  apply find_Some in Hfind as (Hi & _). by apply lookup_lt_Some in Hi.
Qed.

Lemma put_me_effect env bearer body st response st' :
  handle env {| bearer := bearer; route := ApiUsers (PutMe body) |} st
    = (Returned response, st') →
  ∃ (currentUser : CurrentUser) user',
    derive_auth env st bearer = inr currentUser ∧
    response = RUser user' (Some "Profil mis à jour avec succès") ∧
    profile_merged body (now env 0) currentUser.2 user' ∧
    replaced_at (users st) (users st') currentUser.1 user' ∧
    userCredentials st' = userCredentials st ∧
    posts st' = posts st ∧ products st' = products st ∧
    videoRooms st' = videoRooms st ∧
    ∀ r, shown st' r = if decide (r = currentUser.1) then Some user'
                       else shown st r.
Proof.
  unfold handle, guarded, returned. simpl.
  destruct (derive_auth env st bearer) as [e | currentUser] eqn:Hd;
    [done |].
  simpl. intros [= <- <-]. eexists currentUser, _.
  do 2 (split; [done |]).
  split; [unfold profile_merged; simpl; repeat split; auto with merge |].
  apply derive_auth_stored, lookup_lt_Some in Hd.
  split; [by apply replaced_at_insert |].
  do 4 (split; [done |]).
  intros r. unfold shown. simpl. case_decide as Hr.
  - subst r. by apply list_lookup_insert_eq.
  - by apply list_lookup_insert_ne.
Qed.

(** C6 as stated fails on an ended room: the PUT of its host is refused,
    and the room stays as it was, whatever the body holds. *)
Lemma put_ended_room_refused :
  ¬ (∀ env bearer id body st currentUser i room,
       derive_auth env st bearer = inr currentUser →
       JS.find (VideoRoutes.has_id id) (videoRooms st) = Some (i, room) →
       user_id st (r_host room) = u_id currentUser.2 →
       ∃ room',
         room_merged body (now env 0) room room' ∧
         replaced_at (videoRooms st)
           (videoRooms
              (handle env {| bearer := bearer;
                             route := ApiVideo (PutRoom id body) |} st).2)
           i room').
Proof.
  intros H.
  destruct (H (Scenario.env "x" 6000) (Some "u1") "r1" Scenario.protect
              (reached Cases.ended_room) Scenario.alice_user 0%nat
              Cases.adjourned) as (room' & Hmerged & Hat & _).
  - vm_compute. reflexivity.
  - vm_compute. reflexivity.
  - vm_compute. reflexivity.
  - vm_compute in Hat. injection Hat as <-.
    destruct Hmerged as (_ & _ & _ & _ & Hpassword & _).
    discriminate Hpassword.
Qed.

(** The posts are the same objects after PUT /me, and the post of the
    user who changed the profile shows the new profile as its author. *)
Lemma put_me_shows_in_posts :
  let st := reached Scenario.one_post in
  let st' := (handle (Scenario.env "x" 5000) Cases.put_bio st).2 in
  posts st' = posts st ∧
  u_bio <$> shown st (p_author Scenario.hello_post) = Some None ∧
  u_bio <$> shown st' (p_author Scenario.hello_post) = Some (Some "Hello").
Proof. vm_compute. done. Qed.

(** C6, amended. A PUT update that succeeds merges in place.  Whenever
    the update of a product, of a room or of the current user's profile
    succeeds, the caller is the seller of the product found, the host of
    the room found, which is not ended, or the user the token names; the
    object is replaced, at its position, by one in which every property
    present in the body has the body's value, [updatedAt] is the current
    date and every other property is as before; every other object of
    that array and the other stores are unchanged.  The posts, comments,
    products and rooms hold their users by reference: after PUT /me they
    are the same objects, and those that hold the updated user show the
    merged profile.
    The update does succeed for the seller, for the host of a room that
    is not ended, and for every authenticated user; the host's update of
    an ended room is refused and changes nothing. *)
Theorem put_merges_in_place env bearer st :
  (∀ id body response st',
     handle env {| bearer := bearer;
                   route := ApiMarketplace (PutProduct id body) |} st
       = (Returned response, st') →
     is_error response = false →
     ∃ currentUser i product product',
       derive_optional env st bearer = Some currentUser ∧
       JS.find (MarketplaceRoutes.has_id id) (products st)
         = Some (i, product) ∧
       user_id st (pr_seller product) = u_id currentUser.2 ∧
       response
         = RProduct product' (Some "Produit mis à jour avec succès") ∧
       product_merged body (now env 0) product product' ∧
       replaced_at (products st) (products st') i product' ∧
       users st' = users st ∧ userCredentials st' = userCredentials st ∧
       posts st' = posts st ∧ videoRooms st' = videoRooms st) ∧
  (∀ id body response st',
     handle env {| bearer := bearer;
                   route := ApiVideo (PutRoom id body) |} st
       = (Returned response, st') →
     is_error response = false →
     ∃ currentUser i room room',
       derive_auth env st bearer = inr currentUser ∧
       JS.find (VideoRoutes.has_id id) (videoRooms st) = Some (i, room) ∧
       user_id st (r_host room) = u_id currentUser.2 ∧
       r_status room ≠ Ended ∧
       response = RRoom (VideoRoutes.with_count (r_password room') room')
                        (Some "Salle mise à jour avec succès") ∧
       room_merged body (now env 0) room room' ∧
       replaced_at (videoRooms st) (videoRooms st') i room' ∧
       users st' = users st ∧ userCredentials st' = userCredentials st ∧
       posts st' = posts st ∧ products st' = products st) ∧
  (∀ body response st',
     handle env {| bearer := bearer; route := ApiUsers (PutMe body) |} st
       = (Returned response, st') →
     ∃ (currentUser : CurrentUser) user',
       derive_auth env st bearer = inr currentUser ∧
       response = RUser user' (Some "Profil mis à jour avec succès") ∧
       profile_merged body (now env 0) currentUser.2 user' ∧
       replaced_at (users st) (users st') currentUser.1 user' ∧
       userCredentials st' = userCredentials st ∧
       posts st' = posts st ∧ products st' = products st ∧
       videoRooms st' = videoRooms st ∧
       ∀ r, shown st' r = if decide (r = currentUser.1) then Some user'
                          else shown st r) ∧
  (∀ id body currentUser i product,
     derive_optional env st bearer = Some currentUser →
     JS.find (MarketplaceRoutes.has_id id) (products st)
       = Some (i, product) →
     user_id st (pr_seller product) = u_id currentUser.2 →
     ∃ response st',
       handle env {| bearer := bearer;
                     route := ApiMarketplace (PutProduct id body) |} st
         = (Returned response, st') ∧
       is_error response = false) ∧
  (∀ id body currentUser i room,
     derive_auth env st bearer = inr currentUser →
     JS.find (VideoRoutes.has_id id) (videoRooms st) = Some (i, room) →
     user_id st (r_host room) = u_id currentUser.2 →
     r_status room ≠ Ended →
     ∃ response st',
       handle env {| bearer := bearer;
                     route := ApiVideo (PutRoom id body) |} st
         = (Returned response, st') ∧
       is_error response = false) ∧
  (∀ body currentUser,
     derive_auth env st bearer = inr currentUser →
     ∃ response st',
       handle env {| bearer := bearer; route := ApiUsers (PutMe body) |} st
         = (Returned response, st') ∧
       is_error response = false) ∧
  (∀ id body currentUser i room,
     derive_auth env st bearer = inr currentUser →
     JS.find (VideoRoutes.has_id id) (videoRooms st) = Some (i, room) →
     user_id st (r_host room) = u_id currentUser.2 →
     r_status room = Ended →
     handle env {| bearer := bearer;
                   route := ApiVideo (PutRoom id body) |} st
     = (Returned (RError "Impossible de modifier une salle terminée"),
        st)).
Proof.
  split; [| split; [| split; [| split; [| split; [| split]]]]].
  - intros id body response st'. apply put_product_effect.
  - intros id body response st'. apply put_room_effect.
  - intros body response st'. apply put_me_effect.
  - intros id body currentUser i product Hd Hfind Hseller.
    unfold handle, returned. simpl. unfold MarketplaceRoutes.update.
    rewrite Hd, Hfind, Hseller, String.eqb_refl. simpl. eauto.
  - intros id body currentUser i room Hd Hfind Hhost Hstatus.
    unfold handle, guarded, returned. simpl. rewrite Hd. simpl.
    unfold VideoRoutes.update, VideoRoutes.is_user.
    rewrite Hfind, Hhost, String.eqb_refl. simpl.
    rewrite bool_decide_eq_false_2 by done. simpl. eauto.
  - intros body currentUser Hd.
    unfold handle, guarded, returned. simpl. rewrite Hd. simpl. eauto.
  - intros id body currentUser i room Hd Hfind Hhost Hstatus.
    unfold handle, guarded, returned. simpl. rewrite Hd. simpl.
    unfold VideoRoutes.update, VideoRoutes.is_user.
    rewrite Hfind, Hhost, String.eqb_refl. simpl.
    by rewrite bool_decide_eq_true_2.
Qed.

(** ** Strings *)



(** ** Letters and their case *)









(** ** The order of strings *)



Lemma lex_le_trans l m n : lex_le l m → lex_le m n → lex_le l n.
Proof.
  intros H. revert n. induction H as [m | x y l m Hxy | x l m _ IH];
    intros n Hn.
  - constructor.
  - inversion Hn; subst; [apply lex_le_less; lia | by apply lex_le_less].
  - inversion Hn; subst; [by apply lex_le_less | apply lex_le_same; auto].
Qed.

Lemma key_le_trans a b c : key_le a b → key_le b c → key_le a c.
Proof.
  destruct a, b, c; simpl; try done.
  - apply lex_le_trans.
  - apply Qle_trans.
  - lia.
Qed.





(** ** Sorting *)

Section SortFacts.
Context {A : Type} (cmp : A → A → Z) (R : A → A → Prop).
Hypothesis below : ∀ x y, cmp x y < 0 → R x y.
Hypothesis not_below : ∀ x y, ¬ cmp x y < 0 → R y x.
Hypothesis R_trans : ∀ x y z, R x y → R y z → R x z.

Lemma insert_sorted_perm x l : JS.insert_sorted cmp x l ≡ₚ x :: l.
Proof.
  induction l as [| y l IH]; simpl; [done |].
  destruct (cmp x y <? 0); [done |].
  rewrite IH. apply Permutation_swap.
Qed.

Lemma sort_perm_acc l acc :
  fold_left (λ acc x, JS.insert_sorted cmp x acc) l acc ≡ₚ acc ++ l.
Proof.
  revert acc. induction l as [| x l IH]; intros acc; simpl.
  - by rewrite app_nil_r.
  - rewrite IH, insert_sorted_perm. simpl. apply Permutation_middle.
Qed.

Lemma sort_perm l : JS.sort cmp l ≡ₚ l.
Proof. unfold JS.sort. by rewrite sort_perm_acc. Qed.

Lemma insert_sorted_sorted x l :
  StronglySorted R l → StronglySorted R (JS.insert_sorted cmp x l).
Proof.
  induction 1 as [| y l Hsorted IH Hy]; simpl.
  - repeat constructor.
  - destruct (cmp x y <? 0) eqn:Hcmp.
    + apply Z.ltb_lt in Hcmp. constructor; [by constructor |].
      constructor; [by apply below |].
      eapply Forall_impl; [exact Hy |].
      intros z Hz. simpl in Hz. eapply R_trans; [| exact Hz].
      by apply below.
    + apply Z.ltb_ge in Hcmp. constructor; [exact IH |].
      rewrite insert_sorted_perm. constructor; [| exact Hy].
      apply not_below. lia.
Qed.

Lemma sort_sorted_acc l acc :
  StronglySorted R acc →
  StronglySorted R (fold_left (λ acc x, JS.insert_sorted cmp x acc) l acc).
Proof.
  revert acc. induction l as [| x l IH]; intros acc Hacc; simpl; [done |].
  by apply IH, insert_sorted_sorted.
Qed.

Lemma sort_sorted l : StronglySorted R (JS.sort cmp l).
Proof. apply sort_sorted_acc. constructor. Qed.

End SortFacts.

(** ** The order of the listing *)






(** ** The filters of the listing *)







Lemma truthy_Some s : s ≠ "" → JS.truthy (Some s) = true.
Proof. intros H. simpl. by apply negb_true_iff, String.eqb_neq. Qed.

Lemma truthy_false s : JS.truthy (Some s) = false → s = "".
Proof. simpl. by intros H%negb_false_iff%String.eqb_eq. Qed.








(** ** Doubles *)

Section Doubles.
Local Open Scope Q_scope.















End Doubles.

(** ** Pagination *)

Lemma trunc_comp x y : (x == y)%Q → JS.trunc x = JS.trunc y.
Proof.
  intros H. unfold JS.trunc.
  rewrite (Qleb_comp 0%Q 0%Q (Qeq_refl 0%Q) x y H).
  by rewrite (Qfloor_comp x y H), (Qceiling_comp x y H).
Qed.

Lemma trunc_Z z : JS.trunc (inject_Z z) = z.
Proof. unfold JS.trunc. rewrite Qfloor_Z, Qceiling_Z. by case_match. Qed.

Lemma start_index page limit P L :
  (page == inject_Z P)%Q → (limit == inject_Z L)%Q →
  JS.trunc ((page - 1) * limit) = (P - 1) * L.
Proof.
  intros Hp Hl. rewrite <- trunc_Z. apply trunc_comp.
  rewrite Hp, Hl, inject_Z_mult. unfold Z.sub. by rewrite inject_Z_plus.
Qed.

Lemma end_index page limit P L :
  (page == inject_Z P)%Q → (limit == inject_Z L)%Q →
  JS.trunc ((page - 1) * limit + limit) = (P - 1) * L + L.
Proof.
  intros Hp Hl. rewrite <- trunc_Z. apply trunc_comp.
  rewrite Hp, Hl, inject_Z_plus, inject_Z_mult. unfold Z.sub.
  by rewrite inject_Z_plus.
Qed.

(** [slice] between two non-negative integral indices. *)
Lemma slice_window {A} (l : list A) s e S N k :
  JS.trunc s = S → JS.trunc e = S + N → 0 <= S → 0 <= N →
  JS.slice s e l !! k
  = if decide (k < Z.to_nat N)%nat then l !! (Z.to_nat S + k)%nat else None.
Proof.
  intros Hs He HS HN. unfold JS.slice, JS.clamp. rewrite Hs, He.
  rewrite !(proj2 (Z.ltb_ge _ _)) by lia.
  rewrite lookup_take, lookup_drop.
  repeat case_decide; try done; try lia.
  - f_equal. lia.
  - symmetry. apply lookup_ge_None. lia.
Qed.

Lemma total_pages total limit L :
  (limit == inject_Z L)%Q → 1 <= L →
  (JS.ceil (inject_Z (Z.of_nat total) / limit) - 1) * L < Z.of_nat total
  ∧ Z.of_nat total <= JS.ceil (inject_Z (Z.of_nat total) / limit) * L.
Proof.
  intros Hl HL.
  assert (0 < inject_Z L)%Q as Hpos
    by (change (inject_Z 0 < inject_Z L)%Q; rewrite <- Zlt_Qlt; lia).
  assert (JS.ceil (inject_Z (Z.of_nat total) / limit)
          = Qceiling (inject_Z (Z.of_nat total) / inject_Z L)) as ->.
  { unfold JS.ceil. apply Qceiling_comp. by rewrite Hl. }
  set (x := (inject_Z (Z.of_nat total) / inject_Z L)%Q).
  assert (x * inject_Z L == inject_Z (Z.of_nat total))%Q as Hx.
  { unfold x. rewrite Qmult_comm. apply Qmult_div_r. intros H0.
    rewrite H0 in Hpos. by apply Qlt_irrefl in Hpos. }
  split.
  - rewrite Zlt_Qlt, inject_Z_mult, <- Hx.
    apply Qmult_lt_compat_r; [done |]. apply Qceiling_lt.
  - rewrite Zle_Qle, inject_Z_mult, <- Hx.
    apply Qmult_le_compat_r; [| by apply Qlt_le_weak]. apply Qle_ceiling.
Qed.



(** ** The page of the marketplace listing *)






(** The doubles at work: the page 1.2 with the limit 5 starts at index 0,
    the double below 1; and 21 entries in pages of 1.4 make 16 pages. *)
Lemma page_arithmetic_rounds :
  JS.trunc (JS.mul (JS.sub (JS.fl (12 # 10)) 1) 5) = 0 ∧
  JS.trunc (JS.add (JS.mul (JS.sub (JS.fl (12 # 10)) 1) 5) 5) = 6 ∧
  JS.ceil (JS.div 21 (JS.fl (14 # 10))) = 16.
Proof. vm_compute. done. Qed.

(** ** The marketplace listing *)



(** The order of strings is that of the code units, not of the bytes: a
    character beyond the basic plane, stored as a surrogate pair, comes
    before the characters at the end of the basic plane; and [length]
    counts code units. *)
Lemma code_units_order :
  JS.code_units "😀" = [55357; 56832] ∧
  JS.string_lt "😀" "～" = true ∧
  String.ltb "😀" "～" = false ∧
  JS.length "é" = 1%nat.
Proof. vm_compute. done. Qed.

(** * The theorems at work on the scenario *)

Lemma join_full_room_rejected_witness :
  ∃ message,
    VideoRoutes.join (Scenario.env "x" 5000) "r1" {| jr_password := None |}
      Scenario.carol_user (reached Scenario.full_room)
    = (RError message, reached Scenario.full_room) ∧
    videoRooms (reached Scenario.full_room) !! 0%nat = Some Scenario.standup.
Proof.
  apply (join_full_room_rejected (Scenario.env "x" 5000) "r1"
           {| jr_password := None |} Scenario.carol_user
           (reached Scenario.full_room) 0 Scenario.standup).
  - vm_compute. reflexivity.
  - discriminate.
  - vm_compute. discriminate.
  - vm_compute. reflexivity.
Defined.

Lemma leave_removes_participant_witness :
  ∃ k p room',
    JS.find (VideoRoutes.is_user (reached Scenario.room_of_two)
               Scenario.bob_user)
            (r_participants Scenario.standup) = Some (k, p) ∧
    VideoRoutes.leave (Scenario.env "x" 5000) "r1" Scenario.bob_user
      (reached Scenario.room_of_two)
    = (RMessage "Vous avez quitté la salle",
       set_rooms (<[0%nat := room']>) (reached Scenario.room_of_two)) ∧
    videoRooms
      (VideoRoutes.leave (Scenario.env "x" 5000) "r1" Scenario.bob_user
         (reached Scenario.room_of_two)).2 !! 0%nat = Some room' ∧
    r_participants room' = delete k (r_participants Scenario.standup) ∧
    (NoDup (user_id (reached Scenario.room_of_two)
              <$> r_participants Scenario.standup) →
     JS.some (VideoRoutes.is_user (reached Scenario.room_of_two)
                Scenario.bob_user)
             (r_participants room') = false) ∧
    (VideoRoutes.is_user (reached Scenario.room_of_two) Scenario.bob_user
       (r_host Scenario.standup) = true →
     ∀ first rest,
       r_participants room' = first :: rest → r_host room' = first) ∧
    (r_participants room' = [] →
     r_status room' = Ended ∧ is_Some (r_endedAt room')).
Proof.
  apply (leave_removes_participant (Scenario.env "x" 5000) "r1"
           Scenario.bob_user (reached Scenario.room_of_two) 0
           Scenario.standup).
  - vm_compute. reflexivity.
  - vm_compute. reflexivity.
Defined.

Lemma participants_unique_witness :
  NoDup (user_id (reached Scenario.room_of_two)
           <$> r_participants Scenario.standup).
Proof.
  apply (participants_unique Scenario.room_of_two Scenario.standup).
  vm_compute. apply list_elem_of_here.
Defined.

Lemma like_twice_restores_count_witness :
  ∃ liked1 liked2 n1 m1 m2 st1 st2 post2,
    PostRoutes.like "p1" Scenario.bob_user (reached Scenario.one_post)
      = (RLike liked1 n1 m1, st1) ∧
    PostRoutes.like "p1" Scenario.bob_user st1
      = (RLike liked2 (length (p_likes Scenario.hello_post)) m2, st2) ∧
    JS.find (PostRoutes.has_id "p1") (posts st2) = Some (0%nat, post2) ∧
    length (p_likes post2) = length (p_likes Scenario.hello_post) ∧
    liked2 = negb liked1 ∧
    (liked1 = true ↔ u_id Scenario.bob_user.2 ∉ p_likes Scenario.hello_post).
Proof.
  apply (like_twice_restores_count Scenario.one_post "p1" Scenario.bob_user
           0 Scenario.hello_post).
  vm_compute. reflexivity.
Defined.

Lemma error_leaves_store_witness :
  (handle (Scenario.env "x" 5000)
     (Scenario.as_user "u3"
        (ApiVideo (PostJoin "r1" {| jr_password := None |})))
     (reached Scenario.full_room)).2
  = reached Scenario.full_room.
Proof.
  apply (error_leaves_store (Scenario.env "x" 5000)
           (Scenario.as_user "u3"
              (ApiVideo (PostJoin "r1" {| jr_password := None |})))
           (reached Scenario.full_room) (RError "La salle est pleine")).
  - vm_compute. reflexivity.
  - reflexivity.
Defined.

Lemma auth_failure_outcomes_witness :
  ∃ e, handle (Scenario.env "x" 5000)
         (Scenario.as_user "forged" (ApiVideo (GetRooms None)))
         (reached Scenario.room_of_two)
       = (Thrown e, reached Scenario.room_of_two).
Proof.
  apply (proj1 (auth_failure_outcomes (Scenario.env "x" 5000)
                  (Scenario.as_user "forged" (ApiVideo (GetRooms None)))
                  (reached Scenario.room_of_two))).
  vm_compute. reflexivity.
Defined.

Lemma put_merges_in_place_witness :
  handle (Scenario.env "x" 5000)
    (Scenario.as_user "u1"
       (ApiMarketplace (PutProduct "a1" Scenario.reprice)))
    (reached Scenario.one_product)
  = (Returned (RProduct Cases.repriced
                 (Some "Produit mis à jour avec succès")),
     set_products (<[0%nat := Cases.repriced]>)
       (reached Scenario.one_product)) ∧
  ∃ response st',
    handle (Scenario.env "x" 5000)
      (Scenario.as_user "u1"
         (ApiMarketplace (PutProduct "a1" Scenario.reprice)))
      (reached Scenario.one_product)
    = (Returned response, st') ∧
    is_error response = false.
Proof.
  split; [vm_compute; reflexivity |].
  apply (proj1 (proj2 (proj2 (proj2
           (put_merges_in_place (Scenario.env "x" 5000) (Some "u1")
              (reached Scenario.one_product)))))
           "a1" Scenario.reprice Scenario.alice_user 0%nat
           Scenario.lamp_product).
  - vm_compute. reflexivity.
  - vm_compute. reflexivity.
  - vm_compute. reflexivity.
Defined.


(** * Further properties of the handlers *)

(** ** What each module writes *)

Lemma authRoutes_writes env bearer r st :
  posts (authRoutes env bearer r st).2 = posts st ∧
  products (authRoutes env bearer r st).2 = products st ∧
  videoRooms (authRoutes env bearer r st).2 = videoRooms st.
Proof.
  destruct r; simpl; try done. unfold AuthRoutes.register. by case_match.
Qed.

Lemma userRoutes_writes env r currentUser st :
  userCredentials (userRoutes env r currentUser st).2 = userCredentials st ∧
  posts (userRoutes env r currentUser st).2 = posts st ∧
  products (userRoutes env r currentUser st).2 = products st ∧
  videoRooms (userRoutes env r currentUser st).2 = videoRooms st.
Proof. by destruct r. Qed.

Lemma postRoutes_writes env r currentUser st :
  users (postRoutes env r currentUser st).2 = users st ∧
  userCredentials (postRoutes env r currentUser st).2 = userCredentials st ∧
  products (postRoutes env r currentUser st).2 = products st ∧
  videoRooms (postRoutes env r currentUser st).2 = videoRooms st.
Proof.
  destruct r; simpl; try done;
    unfold PostRoutes.update, PostRoutes.remove, PostRoutes.like,
      PostRoutes.comment;
    repeat case_match; done.
Qed.

Lemma marketplaceRoutes_writes env r currentUser st :
  users (marketplaceRoutes env r currentUser st).2 = users st ∧
  userCredentials (marketplaceRoutes env r currentUser st).2
    = userCredentials st ∧
  posts (marketplaceRoutes env r currentUser st).2 = posts st ∧
  videoRooms (marketplaceRoutes env r currentUser st).2 = videoRooms st.
Proof.
  destruct r; simpl; try done;
    unfold MarketplaceRoutes.create, MarketplaceRoutes.update,
      MarketplaceRoutes.remove, MarketplaceRoutes.mark_sold;
    repeat case_match; done.
Qed.

Lemma videoRoutes_writes env r currentUser st :
  users (videoRoutes env r currentUser st).2 = users st ∧
  userCredentials (videoRoutes env r currentUser st).2 = userCredentials st ∧
  posts (videoRoutes env r currentUser st).2 = posts st ∧
  products (videoRoutes env r currentUser st).2 = products st.
Proof.
  destruct r; simpl; try done;
    unfold VideoRoutes.join, VideoRoutes.leave, VideoRoutes.end_room,
      VideoRoutes.update;
    repeat case_match; done.
Qed.

(** X1. Each route module writes its own store only: the auth routes
    leave posts, products and rooms alone; the user routes change nothing
    but [users]; the post routes nothing but [posts]; the marketplace
    routes nothing but [products]; the video routes nothing but
    [videoRooms]; the health check changes nothing. *)
Theorem modules_write_their_store env req st :
  let st' := (handle env req st).2 in
  match route req with
  | Health => st' = st
  | ApiAuth _ =>
      posts st' = posts st ∧ products st' = products st ∧
      videoRooms st' = videoRooms st
  | ApiUsers _ =>
      userCredentials st' = userCredentials st ∧ posts st' = posts st ∧
      products st' = products st ∧ videoRooms st' = videoRooms st
  | ApiPosts _ =>
      users st' = users st ∧ userCredentials st' = userCredentials st ∧
      products st' = products st ∧ videoRooms st' = videoRooms st
  | ApiMarketplace _ =>
      users st' = users st ∧ userCredentials st' = userCredentials st ∧
      posts st' = posts st ∧ videoRooms st' = videoRooms st
  | ApiVideo _ =>
      users st' = users st ∧ userCredentials st' = userCredentials st ∧
      posts st' = posts st ∧ products st' = products st
  end.
Proof.
  unfold handle, guarded.
  destruct (route req) as [| r | r | r | r | r]; simpl; try done.
  - apply authRoutes_writes.
  - destruct (derive_auth _ _ _); [done |]. apply userRoutes_writes.
  - destruct (derive_auth _ _ _); [done |]. apply postRoutes_writes.
  - apply marketplaceRoutes_writes.
  - destruct (derive_auth _ _ _); [done |]. apply videoRoutes_writes.
Qed.

(** ** Invariants, in general *)

Lemma run_app trace1 trace2 st :
  run (trace1 ++ trace2) st = run trace2 (run trace1 st).
Proof. unfold run. apply fold_left_app. Qed.

Lemma run_invariant (I : Store → Prop) :
  (∀ env req st, I st → I (handle env req st).2) →
  ∀ trace st, I st → I (run trace st).
Proof.
  intros Hstep trace. induction trace as [| [env req] trace IH];
    intros st Hst; [done |].
  apply IH. by apply Hstep.
Qed.

(** A property of the store after a request, module by module; the user
    the middleware derives is a stored one. *)
Lemma handle_cases (I : Store → Prop) env req st :
  I st →
  (∀ bearer r, I (authRoutes env bearer r st).2) →
  (∀ r currentUser, users st !! currentUser.1 = Some currentUser.2 →
                    I (userRoutes env r currentUser st).2) →
  (∀ r currentUser, users st !! currentUser.1 = Some currentUser.2 →
                    I (postRoutes env r currentUser st).2) →
  (∀ r currentUser,
     (∀ user, currentUser = Some user → users st !! user.1 = Some user.2) →
     I (marketplaceRoutes env r currentUser st).2) →
  (∀ r currentUser, users st !! currentUser.1 = Some currentUser.2 →
                    I (videoRoutes env r currentUser st).2) →
  I (handle env req st).2.
Proof.
  intros Hst Hauth Husers Hposts Hmarket Hvideo. unfold handle, guarded.
  destruct (route req) as [| r | r | r | r | r]; simpl.
  - exact Hst.
  - apply Hauth.
  - destruct (derive_auth _ _ _) eqn:Hd; [done |].
    apply Husers. by apply derive_auth_stored in Hd.
  - destruct (derive_auth _ _ _) eqn:Hd; [done |].
    apply Hposts. by apply derive_auth_stored in Hd.
  - apply Hmarket. intros user Hd. by apply derive_optional_stored in Hd.
  - destruct (derive_auth _ _ _) eqn:Hd; [done |].
    apply Hvideo. by apply derive_auth_stored in Hd.
Qed.

(** ** Accounts *)

Lemma fmap_insert_same {A B} (f : A → B) (l : list A) i x y :
  l !! i = Some x → f y = f x → f <$> <[i := y]> l = f <$> l.
Proof.
  intros Hi Hf. rewrite list_fmap_insert, Hf.
  apply list_insert_id. by rewrite list_lookup_fmap, Hi.
Qed.

Lemma accounts_step env req st :
  users_wf st ∧ credentials_wf st →
  users_wf (handle env req st).2 ∧ credentials_wf (handle env req st).2.
Proof.
  intros Hst. apply (handle_cases (λ s, users_wf s ∧ credentials_wf s));
    [done | | | | |].
  - intros bearer r. destruct r; simpl; try done.
    unfold AuthRoutes.register.
    destruct (JS.find _ _) eqn:Hfind; [done |]. simpl.
    destruct Hst as [[Hemail Hname] Hcred].
    pose proof (proj1 (find_None _ _) Hfind) as Hfresh.
    split; [split |]; unfold JS.push; simpl.
    + rewrite fmap_snoc. apply NoDup_app.
      split; [done |]. split; [| apply NoDup_singleton].
      intros e (u & -> & Hu)%list_elem_of_fmap Heq%list_elem_of_singleton.
      apply Hfresh in Hu. apply orb_false_iff in Hu as [Hu _].
      by apply String.eqb_neq in Hu.
    + rewrite fmap_snoc. apply NoDup_app.
      split; [done |]. split; [| apply NoDup_singleton].
      intros e (u & -> & Hu)%list_elem_of_fmap Heq%list_elem_of_singleton.
      apply Hfresh in Hu. apply orb_false_iff in Hu as [_ Hu].
      by apply String.eqb_neq in Hu.
    + intros email. unfold credentials_wf in Hcred. simpl.
      destruct (decide (reg_email body = email)) as [<- | Hne].
      * rewrite lookup_insert_eq. split; [| eauto]. intros _.
        eexists. split; [apply elem_of_app; right; by left | done].
      * rewrite lookup_insert_ne by done. rewrite Hcred. split.
        -- intros (u & Hu & <-). exists u. split; [| done].
           apply elem_of_app. by left.
        -- intros (u & [Hu | ->%list_elem_of_singleton]%elem_of_app & <-);
             [eauto | done].
  - intros r currentUser Hcu. destruct r; simpl; try done.
    destruct Hst as [[Hemail Hname] Hcred].
    assert (u_email <$> <[currentUser.1 :=
              UserRoutes.assign currentUser.2 body (now env 0)]> (users st)
            = u_email <$> users st) as Hsame
      by (by apply fmap_insert_same with currentUser.2).
    split; [split |]; simpl.
    + by rewrite Hsame.
    + by erewrite fmap_insert_same.
    + intros email. rewrite (Hcred email).
      split; intros (u & Hu & <-).
      * assert (u_email u ∈ u_email <$> users st) as Hin
          by (apply list_elem_of_fmap; eauto).
        rewrite <- Hsame in Hin.
        apply list_elem_of_fmap in Hin as (u' & -> & Hu'). eauto.
      * assert (u_email u ∈ u_email <$> users st) as Hin
          by (rewrite <- Hsame; apply list_elem_of_fmap; eauto).
        apply list_elem_of_fmap in Hin as (u' & -> & Hu'). eauto.
  - intros r currentUser _.
    destruct (postRoutes_writes env r currentUser st) as (Hu & Hc & _).
    unfold users_wf, credentials_wf. rewrite Hu.
    split; [apply Hst |]. intros email. rewrite Hc. apply Hst.
  - intros r currentUser _.
    destruct (marketplaceRoutes_writes env r currentUser st)
      as (Hu & Hc & _).
    unfold users_wf, credentials_wf. rewrite Hu.
    split; [apply Hst |]. intros email. rewrite Hc. apply Hst.
  - intros r currentUser _.
    destruct (videoRoutes_writes env r currentUser st) as (Hu & Hc & _).
    unfold users_wf, credentials_wf. rewrite Hu.
    split; [apply Hst |]. intros email. rewrite Hc. apply Hst.
Qed.

Lemma accounts_reached trace :
  users_wf (reached trace) ∧ credentials_wf (reached trace).
Proof.
  apply (run_invariant (λ s, users_wf s ∧ credentials_wf s)).
  - intros env req st. apply accounts_step.
  - split; [split; apply NoDup_nil_2 |].
    intros email. simpl. rewrite lookup_empty. split.
    + by intros [? ?].
    + intros (u & Hu & _). by apply elem_of_nil in Hu.
Qed.

(** X2. In every store reached from the empty one, no two users share an
    email and no two users share a username. *)
Theorem accounts_are_unique trace :
  NoDup (u_email <$> users (reached trace)) ∧
  NoDup (u_username <$> users (reached trace)).
Proof. apply accounts_reached. Qed.

Lemma find_unique {A B} (key : A → B) (f : A → bool) (l : list A) x :
  NoDup (key <$> l) → x ∈ l → f x = true →
  (∀ y, f y = true → key y = key x) →
  ∃ i, JS.find f l = Some (i, x).
Proof.
  intros Hnd [i Hi]%list_elem_of_lookup Hfx Hkey. exists i.
  apply find_Some. split; [done |]. split; [done |].
  intros j y Hj Hlt. destruct (f y) eqn:Hfy; [| done]. exfalso.
  assert (j = i); [| lia].
  apply (NoDup_lookup (key <$> l) j i (key x)); [done | |].
  - by rewrite list_lookup_fmap, Hj, <- (Hkey y Hfy).
  - by rewrite list_lookup_fmap, Hi.
Qed.

(** X3. In every reached store the lookups of shared/database.ts by email
    and by username find each stored user by its own email and username,
    and find nothing for an email or username no user has. *)
Theorem lookups_find_each_user trace :
  let st := reached trace in
  (∀ user, user ∈ users st →
     findUserByEmail (u_email user) st = Some user ∧
     findUserByUsername (u_username user) st = Some user) ∧
  (∀ email, findUserByEmail email st = None
            ↔ ∀ user, user ∈ users st → u_email user ≠ email) ∧
  (∀ username, findUserByUsername username st = None
               ↔ ∀ user, user ∈ users st → u_username user ≠ username).
Proof.
  destruct (accounts_reached trace) as [[Hemail Hname] _]. cbn zeta.
  split; [| split].
  - intros user Hin. unfold findUserByEmail, findUserByUsername. split.
    + destruct (find_unique u_email
                  (λ u, String.eqb (u_email u) (u_email user))
                  (users (reached trace)) user) as [i ->]; try done.
      * apply String.eqb_refl.
      * by intros y ->%String.eqb_eq.
    + destruct (find_unique u_username
                  (λ u, String.eqb (u_username u) (u_username user))
                  (users (reached trace)) user) as [i ->]; try done.
      * apply String.eqb_refl.
      * by intros y ->%String.eqb_eq.
  - intros email. unfold findUserByEmail.
    destruct (JS.find _ _) as [[i u]|] eqn:Hfind; simpl.
    + split; [done |]. intros Hno.
      apply find_Some in Hfind as (Hi & Heq%String.eqb_eq & _).
      exfalso. apply (Hno u); [| done]. apply list_elem_of_lookup. eauto.
    + split; [| done]. intros _ user Hin.
      apply String.eqb_neq. exact (proj1 (find_None _ _) Hfind user Hin).
  - intros username. unfold findUserByUsername.
    destruct (JS.find _ _) as [[i u]|] eqn:Hfind; simpl.
    + split; [done |]. intros Hno.
      apply find_Some in Hfind as (Hi & Heq%String.eqb_eq & _).
      exfalso. apply (Hno u); [| done]. apply list_elem_of_lookup. eauto.
    + split; [| done]. intros _ user Hin.
      apply String.eqb_neq. exact (proj1 (find_None _ _) Hfind user Hin).
Qed.

(** X4. In every reached store, login succeeds exactly with the stored
    password of a registered email: it then returns the user with that
    email and a token signed for that user; otherwise it returns the one
    error "Email ou mot de passe incorrect".  The branch "Utilisateur non
    trouvé" is never taken. *)
Theorem login_checks_credentials trace env body :
  let st := reached trace in
  (userCredentials st !! login_email body = Some (login_password body) →
   ∃ user,
     user ∈ users st ∧ u_email user = login_email body ∧
     AuthRoutes.login env body st
     = RAuth user (jwt_sign env (u_id user) (u_email user))) ∧
  (userCredentials st !! login_email body ≠ Some (login_password body) →
   AuthRoutes.login env body st = RError "Email ou mot de passe incorrect").
Proof.
  destruct (accounts_reached trace) as [_ Hcred]. cbn zeta.
  unfold AuthRoutes.login. split.
  - intros Hpw. rewrite Hpw, String.eqb_refl.
    destruct (JS.find _ _) as [[i user]|] eqn:Hfind.
    + apply find_Some in Hfind as (Hi & Heq%String.eqb_eq & _).
      exists user. split; [apply list_elem_of_lookup; eauto | done].
    + exfalso.
      destruct (proj1 (Hcred (login_email body))) as (u & Hu & Heq);
        [by rewrite Hpw |].
      pose proof (proj1 (find_None _ _) Hfind u Hu) as Hno.
      simpl in Hno. apply String.eqb_neq in Hno. done.
  - intros Hpw.
    destruct (userCredentials _ !! _) as [password|]; [| done].
    destruct (String.eqb password (login_password body)) eqn:Heq; [| done].
    apply String.eqb_eq in Heq as ->. done.
Qed.

(** X5. Register, then log in: after a registration that succeeds, on any
    store, a login with the registered email and password returns the user
    just created; with any other password it is refused. *)
Theorem register_then_login env env' body st :
  is_error (AuthRoutes.register env body st).1 = false →
  ∃ user token,
    (AuthRoutes.register env body st).1 = RAuth user token ∧
    u_email user = reg_email body ∧
    u_username user = reg_username body ∧
    AuthRoutes.login env'
      {| login_email := reg_email body;
         login_password := reg_password body |}
      (AuthRoutes.register env body st).2
    = RAuth user (jwt_sign env' (u_id user) (u_email user)) ∧
    ∀ password,
      password ≠ reg_password body →
      AuthRoutes.login env'
        {| login_email := reg_email body; login_password := password |}
        (AuthRoutes.register env body st).2
      = RError "Email ou mot de passe incorrect".
Proof.
  unfold AuthRoutes.register.
  destruct (JS.find _ _) eqn:Hfind; [done |]. intros _. simpl.
  eexists _, _. split; [reflexivity |]. do 2 (split; [done |]).
  pose proof (proj1 (find_None _ _) Hfind) as Hfresh.
  unfold AuthRoutes.login. simpl. rewrite lookup_insert_eq. split.
  - rewrite String.eqb_refl.
    match goal with |- context [JS.find ?f ?l] =>
      assert (JS.find f l = Some (length (users st),
                {| u_id := randomUUID env; u_email := reg_email body;
                   u_username := reg_username body;
                   u_firstName := reg_firstName body;
                   u_lastName := reg_lastName body; u_avatar := None;
                   u_bio := None; u_location := None; u_website := None;
                   u_createdAt := now env 0; u_updatedAt := now env 1 |}))
        as ->; [| done] end.
    apply find_Some. unfold JS.push. split; [| split].
    + by rewrite lookup_app_r, Nat.sub_diag.
    + apply String.eqb_refl.
    + intros j y Hj Hlt. rewrite lookup_app_l in Hj by done.
      assert (y ∈ users st) as Hy by (apply list_elem_of_lookup; eauto).
      apply Hfresh in Hy. by apply orb_false_iff in Hy as [Hy _].
  - intros password Hne.
    destruct (String.eqb (reg_password body) password) eqn:Heq; [| done].
    apply String.eqb_eq in Heq. congruence.
Qed.

(** X6. The token issued at registration authenticates its user: when
    [jwt.verify] gives back the [userId] that [jwt.sign] was given, the
    token is not empty and no stored user has the new id, the middleware
    derives the user just created from the token, and GET /verify returns
    that user. *)
Theorem register_then_authenticate env env' body st user token :
  (AuthRoutes.register env body st).1 = RAuth user token →
  jwt_verify env' token = VerifyPayload (Some (u_id user)) →
  token ≠ "" →
  (∀ u, u ∈ users st → u_id u ≠ u_id user) →
  derive_auth env' (AuthRoutes.register env body st).2 (Some token)
    = inr (length (users st), user) ∧
  AuthRoutes.verify env' (Some token) (AuthRoutes.register env body st).2
    = RUser user None.
Proof.
  unfold AuthRoutes.register.
  destruct (JS.find _ _) eqn:Hfind; [done |]. simpl.
  intros [= <- <-] Hverify Htoken Hfresh.
  assert (JS.find (has_id (Some (randomUUID env)))
            (JS.push
               {| u_id := randomUUID env; u_email := reg_email body;
                  u_username := reg_username body;
                  u_firstName := reg_firstName body;
                  u_lastName := reg_lastName body; u_avatar := None;
                  u_bio := None; u_location := None; u_website := None;
                  u_createdAt := now env 0; u_updatedAt := now env 1 |}
               (users st))
          = Some (length (users st),
               {| u_id := randomUUID env; u_email := reg_email body;
                  u_username := reg_username body;
                  u_firstName := reg_firstName body;
                  u_lastName := reg_lastName body; u_avatar := None;
                  u_bio := None; u_location := None; u_website := None;
                  u_createdAt := now env 0; u_updatedAt := now env 1 |}))
    as Hfound.
  { apply find_Some. unfold JS.push. split; [| split].
    - by rewrite lookup_app_r, Nat.sub_diag.
    - apply String.eqb_refl.
    - intros j y Hj Hlt. rewrite lookup_app_l in Hj by done.
      apply String.eqb_neq, Hfresh. apply list_elem_of_lookup. eauto. }
  unfold derive_auth, AuthRoutes.verify.
  pose proof (truthy_Some _ Htoken) as Htruthy. simpl in *.
  by rewrite Htruthy, Hverify, Hfound.
Qed.

(** ** Users are kept *)

Lemma same_identity_refl u : same_identity u u.
Proof. by repeat split. Qed.

Lemma same_identity_trans u v w :
  same_identity u v → same_identity v w → same_identity u w.
Proof.
  unfold same_identity. intros (-> & -> & -> & ->) (-> & -> & -> & ->).
  done.
Qed.

Lemma authRoutes_kept env bearer r st i u :
  users st !! i = Some u →
  ∃ u', users (authRoutes env bearer r st).2 !! i = Some u'
        ∧ same_identity u u'.
Proof.
  intros Hi. exists u. split; [| apply same_identity_refl].
  destruct r; simpl; try done. unfold AuthRoutes.register.
  case_match; simpl; [done |]. unfold JS.push. by apply lookup_app_l_Some.
Qed.

Lemma userRoutes_kept env r (currentUser : CurrentUser) st i u :
  users st !! currentUser.1 = Some currentUser.2 →
  users st !! i = Some u →
  ∃ u', users (userRoutes env r currentUser st).2 !! i = Some u'
        ∧ same_identity u u'.
Proof.
  intros Hcu Hi. destruct r; simpl;
    try (exists u; split; [done | apply same_identity_refl]).
  destruct (decide (i = currentUser.1)) as [-> | Hne].
  - eexists. split.
    + apply list_lookup_insert_eq. by apply lookup_lt_Some in Hi.
    + pose proof (eq_trans (eq_sym Hi) Hcu) as Heq.
      injection Heq as ->. by repeat split.
  - exists u. split; [| apply same_identity_refl].
    by rewrite list_lookup_insert_ne.
Qed.

Lemma users_kept_step env req st i u :
  users st !! i = Some u →
  ∃ u', users (handle env req st).2 !! i = Some u' ∧ same_identity u u'.
Proof.
  intros Hi.
  apply (handle_cases
           (λ s, ∃ u', users s !! i = Some u' ∧ same_identity u u')).
  - exists u. split; [done | apply same_identity_refl].
  - intros bearer r. by apply authRoutes_kept.
  - intros r currentUser Hcu. by apply userRoutes_kept.
  - intros r currentUser _. exists u. split; [| apply same_identity_refl].
    destruct (postRoutes_writes env r currentUser st) as (-> & _). done.
  - intros r currentUser _. exists u. split; [| apply same_identity_refl].
    destruct (marketplaceRoutes_writes env r currentUser st) as (-> & _).
    done.
  - intros r currentUser _. exists u. split; [| apply same_identity_refl].
    destruct (videoRoutes_writes env r currentUser st) as (-> & _). done.
Qed.

(** X7. No request removes a user or changes who a user is: after any
    sequence of requests the user object at each position of [users] is
    still there, with the id, email, username and creation date it
    had. *)
Theorem users_are_kept trace st i user :
  users st !! i = Some user →
  ∃ user', users (run trace st) !! i = Some user' ∧
           same_identity user user'.
Proof.
  revert st user. induction trace as [| [env req] trace IH];
    intros st user Hi.
  - exists user. split; [done | apply same_identity_refl].
  - destruct (users_kept_step env req st i user Hi) as (u1 & H1 & Hid1).
    destruct (IH _ _ H1) as (u2 & H2 & Hid2).
    exists u2. split; [exact H2 |]. by apply same_identity_trans with u1.
Qed.

Lemma password_kept_step env req st email password :
  credentials_wf st →
  userCredentials st !! email = Some password →
  userCredentials (handle env req st).2 !! email = Some password.
Proof.
  intros Hcred Hpw.
  apply (handle_cases (λ s, userCredentials s !! email = Some password));
    [done | | | | |].
  - intros bearer r. destruct r; simpl; try done.
    unfold AuthRoutes.register.
    destruct (JS.find _ _) eqn:Hfind; [done |]. simpl.
    destruct (decide (reg_email body = email)) as [Heq | Hne];
      [| by rewrite lookup_insert_ne].
    exfalso. destruct (proj1 (Hcred email)) as (u & Hu & Hemail);
      [by rewrite Hpw |].
    pose proof (proj1 (find_None _ _) Hfind u Hu) as Hno.
    apply orb_false_iff in Hno as [Hno%String.eqb_neq _]. congruence.
  - intros r currentUser _.
    by destruct (userRoutes_writes env r currentUser st) as (-> & _).
  - intros r currentUser _.
    by destruct (postRoutes_writes env r currentUser st) as (_ & -> & _).
  - intros r currentUser _.
    by destruct (marketplaceRoutes_writes env r currentUser st)
      as (_ & -> & _).
  - intros r currentUser _.
    by destruct (videoRoutes_writes env r currentUser st) as (_ & -> & _).
Qed.

(** X8. A stored password is never changed: the password recorded for an
    email in a reached store is still the one recorded after any further
    requests (registering that email again is refused). *)
Theorem passwords_are_kept trace1 trace2 email password :
  userCredentials (reached trace1) !! email = Some password →
  userCredentials (reached (trace1 ++ trace2)) !! email = Some password.
Proof.
  unfold reached. rewrite run_app. intros Hpw.
  assert (users_wf (run trace1 empty_store)
          ∧ credentials_wf (run trace1 empty_store)) as Hacc
    by apply accounts_reached.
  revert Hpw Hacc. generalize (run trace1 empty_store).
  induction trace2 as [| [env req] trace2 IH]; intros st Hpw Hacc; [done |].
  apply IH.
  - apply password_kept_step; [apply Hacc | done].
  - by apply accounts_step.
Qed.

Lemma derive_auth_env env env' st bearer :
  jwt_verify env' = jwt_verify env →
  derive_auth env' st bearer = derive_auth env st bearer.
Proof. unfold derive_auth. by intros ->. Qed.

(** The user derived is the first one with its id. *)
Lemma derive_auth_first env st bearer i me :
  derive_auth env st bearer = inr (i, me) →
  JS.find (λ u, String.eqb (u_id u) (u_id me)) (users st) = Some (i, me).
Proof.
  unfold derive_auth.
  destruct bearer as [token|]; [| done].
  destruct (JS.truthy (Some token)); [| done].
  destruct (jwt_verify env token) as [| | [userId|]]; try done.
  - destruct (JS.find _ _) as [[j u]|] eqn:Hfind; [| done].
    intros [= -> ->].
    pose proof (proj1 (find_Some _ _ _ _) Hfind) as (_ & Hid & _).
    simpl in Hid. apply String.eqb_eq in Hid as <-. exact Hfind.
  - destruct (JS.find _ _) as [[j u]|] eqn:Hfind; [| done].
    by apply find_Some in Hfind as (_ & ? & _).
Qed.

Lemma derive_auth_insert env st bearer i me user' :
  derive_auth env st bearer = inr (i, me) →
  u_id user' = u_id me →
  derive_auth env (set_users (<[i := user']>) st) bearer = inr (i, user').
Proof.
  unfold derive_auth.
  destruct bearer as [token|]; [| done].
  destruct (JS.truthy (Some token)); [| done].
  destruct (jwt_verify env token) as [| | userId]; try done.
  destruct (JS.find _ _) as [[j u]|] eqn:Hfind; [| done].
  intros [= -> ->] Hid. simpl.
  erewrite find_insert_same; [done | exact Hfind |].
  apply find_Some in Hfind as (_ & Hme & _).
  destruct userId; [| done]. simpl in *. by rewrite Hid.
Qed.

(** X9. Read your writes on the profile: after PUT /me has returned the
    updated user, GET /me with the same token returns that user, and so
    does GET /:id with the user's id. *)
Theorem put_me_then_get env env' bearer body st user message st' :
  handle env {| bearer := bearer; route := ApiUsers (PutMe body) |} st
    = (Returned (RUser user message), st') →
  jwt_verify env' = jwt_verify env →
  handle env' {| bearer := bearer; route := ApiUsers GetMe |} st'
    = (Returned (RUser user None), st') ∧
  handle env' {| bearer := bearer;
                 route := ApiUsers (GetUser (u_id user)) |} st'
    = (Returned (RUser user None), st').
Proof.
  unfold handle, guarded, returned. simpl.
  destruct (derive_auth env st bearer) as [e | [i me]] eqn:Hd; [done |].
  simpl. intros [= <- _ <-] Hverify.
  rewrite (derive_auth_env env env') by done.
  rewrite (derive_auth_insert env st bearer i me) by done.
  simpl. split; [done |].
  unfold UserRoutes.get. simpl.
  apply derive_auth_first in Hd.
  erewrite find_insert_same; [done | exact Hd |].
  apply String.eqb_refl.
Qed.

(** ** Create, then fetch *)

Lemma find_head {A} (f : A → bool) (x : A) (l : list A) :
  f x = true → JS.find f (x :: l) = Some (0%nat, x).
Proof.
  intros Hx. apply find_Some. split; [done |]. split; [done |].
  intros j y _ Hlt. lia.
Qed.

(** X10. A post just created is the one GET /:id returns for its id, with
    the content sent, no likes and no comments, whatever was stored
    before (an older post with the same id is shadowed). *)
Theorem create_post_then_get env body currentUser st :
  ∃ post message,
    (PostRoutes.create env body currentUser st).1
      = RPost (PostRoutes.plain post) message ∧
    p_content post = cp_content body ∧
    p_author post = currentUser.1 ∧
    posts (PostRoutes.create env body currentUser st).2 = post :: posts st ∧
    PostRoutes.get (p_id post) (PostRoutes.create env body currentUser st).2
      = RPost {| po_post := post; po_likesCount := Some 0%nat;
                 po_commentsCount := Some 0%nat |} None.
Proof.
  eexists _, _. split; [reflexivity |]. do 3 (split; [reflexivity |]).
  unfold PostRoutes.get, PostRoutes.create, JS.unshift.
  cbn [snd posts set_posts p_id].
  rewrite find_head; [done |]. apply String.eqb_refl.
Qed.

(** X11. A product just created by an authenticated user is the one
    GET /:id returns for its id, with the fields sent and the status
    available. *)
Theorem create_product_then_get env body currentUser st :
  ∃ product message,
    (MarketplaceRoutes.create env body (Some currentUser) st).1
      = RProduct product message ∧
    pr_title product = cpr_title body ∧
    pr_description product = cpr_description body ∧
    pr_price product = cpr_price body ∧
    pr_currency product = cpr_currency body ∧
    pr_category product = cpr_category body ∧
    pr_condition product = cpr_condition body ∧
    pr_images product = cpr_images body ∧
    pr_location product = cpr_location body ∧
    pr_tags product = cpr_tags body ∧
    pr_seller product = currentUser.1 ∧
    pr_status product = Available ∧
    MarketplaceRoutes.get (pr_id product)
      (MarketplaceRoutes.create env body (Some currentUser) st).2
      = RProduct product None.
Proof.
  eexists _, _. split; [reflexivity |]. do 11 (split; [reflexivity |]).
  unfold MarketplaceRoutes.get, MarketplaceRoutes.create, JS.unshift.
  cbn [snd products set_products pr_id].
  rewrite find_head; [done |]. apply String.eqb_refl.
Qed.

(** X12. A room just created is waiting, has its creator as host and only
    participant, and GET /rooms/:id answers the creator with the room, its
    password included and a participant count of one, be the room private
    or not. *)
Theorem create_room_then_get env body (currentUser : CurrentUser) st :
  users st !! currentUser.1 = Some currentUser.2 →
  ∃ room message,
    (VideoRoutes.create env body currentUser st).1
      = RRoom (VideoRoutes.plain room) message ∧
    r_status room = Waiting ∧
    r_host room = currentUser.1 ∧
    r_participants room = [currentUser.1] ∧
    r_password room = cr_password body ∧
    VideoRoutes.get (r_id room) currentUser
      (VideoRoutes.create env body currentUser st).2
      = RRoom {| ro_room := room; ro_participantCount := Some 1%nat |} None.
Proof.
  intros Hcu. eexists _, _. split; [reflexivity |].
  do 4 (split; [reflexivity |]).
  unfold VideoRoutes.get, VideoRoutes.create, JS.unshift.
  cbn [snd videoRooms set_rooms r_id].
  rewrite find_head by apply String.eqb_refl. simpl.
  unfold VideoRoutes.is_user, user_id. simpl. rewrite Hcu. simpl.
  rewrite String.eqb_refl. simpl. by rewrite andb_false_r.
Qed.

(** ** Deleting *)

Lemma find_delete_unique {A B} (key : A → B) (k : B) (f : A → bool)
    (l : list A) i x :
  NoDup (key <$> l) → JS.find f l = Some (i, x) →
  (∀ y, f y = true ↔ key y = k) →
  JS.find f (delete i l) = None.
Proof.
  intros Hnd (Hi & Hx & _)%find_Some Hkey. apply find_None. intros y Hy.
  destruct (f y) eqn:Hfy; [| done]. exfalso.
  apply (splice1_removes key l i x y Hnd Hi Hy).
  apply Hkey in Hx, Hfy. congruence.
Qed.

(** X13. DELETE /posts/:id: the author removes exactly the post found, the
    others keep their order; anyone else is refused.  When the ids of the
    stored posts are distinct, the post can no longer be fetched. *)
Theorem delete_post_effect id currentUser st i post :
  JS.find (PostRoutes.has_id id) (posts st) = Some (i, post) →
  (user_id st (p_author post) = u_id currentUser.2 →
   PostRoutes.remove id currentUser st
     = (RMessage "Post supprimé avec succès", set_posts (delete i) st) ∧
   length (posts (PostRoutes.remove id currentUser st).2)
     = (length (posts st) - 1)%nat ∧
   (NoDup (p_id <$> posts st) →
    PostRoutes.get id (PostRoutes.remove id currentUser st).2
      = RError "Post non trouvé")) ∧
  (user_id st (p_author post) ≠ u_id currentUser.2 →
   PostRoutes.remove id currentUser st
     = (RError "Vous ne pouvez supprimer que vos propres posts", st)).
Proof.
  intros Hfind. unfold PostRoutes.remove. rewrite Hfind. split.
  - intros ->. rewrite String.eqb_refl. simpl. split; [done |]. split.
    + apply length_delete. apply find_Some in Hfind as (-> & _). eauto.
    + intros Hnd. unfold PostRoutes.get, JS.splice1.
      cbn [snd posts set_posts].
      erewrite (find_delete_unique p_id id); [done | done | done |].
      intros y. unfold PostRoutes.has_id. apply String.eqb_eq.
  - intros Hne. apply String.eqb_neq in Hne. by rewrite Hne.
Qed.

(** X14. DELETE /marketplace/:id: the seller removes exactly the product
    found; another user is refused, and so is a request without a valid
    token.  When the ids of the stored products are distinct, the product
    can no longer be fetched. *)
Theorem delete_product_effect id (currentUser : CurrentUser) st i product :
  JS.find (MarketplaceRoutes.has_id id) (products st) = Some (i, product) →
  (user_id st (pr_seller product) = u_id currentUser.2 →
   MarketplaceRoutes.remove id (Some currentUser) st
     = (RMessage "Produit supprimé avec succès",
        set_products (delete i) st) ∧
   (NoDup (pr_id <$> products st) →
    MarketplaceRoutes.get id
      (MarketplaceRoutes.remove id (Some currentUser) st).2
      = RError "Produit non trouvé")) ∧
  (user_id st (pr_seller product) ≠ u_id currentUser.2 →
   MarketplaceRoutes.remove id (Some currentUser) st
     = (RError "Vous ne pouvez supprimer que vos propres produits", st)) ∧
  MarketplaceRoutes.remove id None st
    = (RError "Authentification requise", st).
Proof.
  intros Hfind. unfold MarketplaceRoutes.remove. rewrite Hfind.
  split; [| split; [| done]].
  - intros ->. rewrite String.eqb_refl. simpl. split; [done |].
    intros Hnd. unfold MarketplaceRoutes.get, JS.splice1.
    cbn [snd products set_products].
    erewrite (find_delete_unique pr_id id); [done | done | done |].
    intros y. unfold MarketplaceRoutes.has_id. apply String.eqb_eq.
  - intros Hne. apply String.eqb_neq in Hne. by rewrite Hne.
Qed.

(** ** Posts: update and comments *)

(** X15. PUT /posts/:id by the author replaces the content, replaces the
    images when the body has some, sets [updatedAt], and keeps the id, the
    author, the likes, the comments and the creation date; the other posts
    are unchanged.  Anyone else is refused. *)
Theorem update_post_effect env id body currentUser st i post :
  JS.find (PostRoutes.has_id id) (posts st) = Some (i, post) →
  (user_id st (p_author post) = u_id currentUser.2 →
   ∃ post',
     PostRoutes.update env id body currentUser st
       = (RPost (PostRoutes.plain post')
                (Some "Post mis à jour avec succès"),
          set_posts (<[i := post']>) st) ∧
     replaced_at (posts st) (posts (set_posts (<[i := post']>) st))
       i post' ∧
     p_content post' = cp_content body ∧
     merged (cp_images body) (p_images post) (p_images post') ∧
     p_updatedAt post' = now env 0 ∧
     p_id post' = p_id post ∧ p_author post' = p_author post ∧
     p_likes post' = p_likes post ∧ p_comments post' = p_comments post ∧
     p_createdAt post' = p_createdAt post) ∧
  (user_id st (p_author post) ≠ u_id currentUser.2 →
   PostRoutes.update env id body currentUser st
     = (RError "Vous ne pouvez modifier que vos propres posts", st)).
Proof.
  intros Hfind. unfold PostRoutes.update. rewrite Hfind. split.
  - intros ->. rewrite String.eqb_refl. simpl.
    eexists. split; [reflexivity |]. split.
    + apply replaced_at_insert.
      apply find_Some in Hfind as (Hi & _). by apply lookup_lt_Some in Hi.
    + simpl. repeat split; auto with merge.
  - intros Hne. apply String.eqb_neq in Hne. by rewrite Hne.
Qed.

(** X16. A comment is appended to the comments of the post found, with
    the content sent, the caller as author and the id of the request as
    [postId]; GET /:id/comments then returns the earlier comments followed
    by the new one, and GET /:id counts one comment more and the same
    likes. *)
Theorem comment_then_read env id body currentUser st i post :
  JS.find (PostRoutes.has_id id) (posts st) = Some (i, post) →
  ∃ comment message,
    (PostRoutes.comment env id body currentUser st).1
      = RComment comment message ∧
    c_content comment = cc_content body ∧
    c_author comment = currentUser.1 ∧
    c_postId comment = id ∧
    PostRoutes.comments id (PostRoutes.comment env id body currentUser st).2
      = RComments (JS.push comment (p_comments post)) ∧
    ∃ post',
      PostRoutes.get id (PostRoutes.comment env id body currentUser st).2
        = RPost {| po_post := post';
                   po_likesCount := Some (length (p_likes post));
                   po_commentsCount :=
                     Some (S (length (p_comments post))) |} None.
Proof.
  intros Hfind.
  assert (PostRoutes.has_id id post = true) as Hid
    by (by apply find_Some in Hfind as (_ & ? & _)).
  unfold PostRoutes.comment, PostRoutes.comments, PostRoutes.get.
  rewrite Hfind. cbn [fst snd posts set_posts].
  eexists _, _. split; [reflexivity |]. do 3 (split; [reflexivity |]).
  erewrite find_insert_same; [| exact Hfind | exact Hid].
  split; [reflexivity |]. eexists. unfold PostRoutes.with_counts.
  cbn [p_likes p_comments PostRoutes.set_comments].
  unfold JS.push. rewrite length_app. simpl.
  by rewrite Nat.add_1_r.
Qed.

(** ** Pages *)

(** The page of an integral page number and limit. *)
Lemma paginate_integral {A} (l : list A) page limit P L :
  (page == inject_Z P)%Q → (limit == inject_Z L)%Q → 1 <= P → 1 <= L →
  paginate page limit l
  = take (Z.to_nat L) (drop (Z.to_nat ((P - 1) * L)) l).
Proof.
  intros HP HL HP1 HL1. apply list_eq. intros k. unfold paginate.
  rewrite (slice_window l _ _ ((P - 1) * L) L k); try nia.
  - by rewrite lookup_take, lookup_drop.
  - by apply start_index.
  - by apply end_index.
Qed.

(** X17. Pages tile the list: for an integral limit of at least one, the
    pages 1 to [n] computed by the handlers' [slice], one after the other,
    are the first [n * limit] entries of the list, each once and in
    order. *)
Theorem pages_tile_the_list {A} (l : list A) limit L n :
  (limit == inject_Z (Z.of_nat L))%Q → (1 <= L)%nat →
  concat ((λ P, paginate (inject_Z (Z.of_nat P)) limit l) <$> seq 1 n)
  = take (n * L) l.
Proof.
  intros HL HL1. induction n as [| n IH]; [done |].
  rewrite seq_S, fmap_app, concat_app, IH. simpl. rewrite app_nil_r.
  rewrite (paginate_integral l _ _ (Z.of_nat (S n)) (Z.of_nat L));
    [| done | done | lia | lia].
  replace (Z.to_nat ((Z.of_nat (S n) - 1) * Z.of_nat L)) with (n * L)%nat
    by nia.
  rewrite Nat2Z.id, take_take_drop. f_equal. lia.
Qed.

(** X18. GET /posts: for an integral page and limit of at least one, the
    feed returns the posts at positions [(page - 1) * limit] to
    [page * limit - 1] of the store, newest first as stored, each with its
    numbers of likes and comments; [total] is the number of stored posts
    and [totalPages] the ceiling of [total / limit].  A page past the end
    is empty. *)
Theorem feed_page page limit st P L :
  (default 1%Q page == inject_Z P)%Q →
  (default 20%Q limit == inject_Z L)%Q →
  1 <= P → 1 <= L →
  ∃ items totalPages,
    PostRoutes.feed page limit st
    = RPosts items {| pg_page := default 1%Q page;
                      pg_limit := default 20%Q limit;
                      pg_total := length (posts st);
                      pg_totalPages := totalPages |} ∧
    items = PostRoutes.with_counts
              <$> take (Z.to_nat L) (drop (Z.to_nat ((P - 1) * L)) (posts st)) ∧
    (∀ post, post ∈ items →
       po_likesCount post = Some (length (p_likes (po_post post))) ∧
       po_commentsCount post = Some (length (p_comments (po_post post)))) ∧
    (Z.of_nat (length (posts st)) <= (P - 1) * L → items = []) ∧
    (totalPages - 1) * L < Z.of_nat (length (posts st)) <= totalPages * L.
Proof.
  intros HP HL HP1 HL1. unfold PostRoutes.feed, pagination.
  eexists _, _. split; [reflexivity |].
  rewrite (paginate_integral _ _ _ P L) by done.
  split; [reflexivity |]. split; [| split].
  - by intros post (p & -> & _)%list_elem_of_fmap.
  - intros Hpast. rewrite drop_ge by lia. by rewrite take_nil.
  - by apply total_pages.
Qed.

(** ** Likes, again *)

Lemma elem_of_delete_other {A} (l : list A) k x y :
  l !! k = Some x → y ≠ x → y ∈ delete k l ↔ y ∈ l.
Proof.
  intros Hk Hne. split; [apply list_elem_of_delete_inv |].
  intros [j Hj]%list_elem_of_lookup. apply list_elem_of_lookup.
  assert (j ≠ k) by (intros ->; congruence).
  destruct (decide (j < k)%nat).
  - exists j. by rewrite list_lookup_delete_lt.
  - exists (j - 1)%nat. rewrite list_lookup_delete_ge by lia.
    by replace (S (j - 1)) with j by lia.
Qed.

(** X19. One like toggles one membership: on a post of a reached store,
    after POST /:id/like the caller's id is among the likes exactly when
    it was not before, the membership of every other id is as before, the
    answer reports the new membership and the new count, and the other
    properties of the post and the other posts are unchanged. *)
Theorem like_toggles_membership trace id currentUser i post :
  JS.find (PostRoutes.has_id id) (posts (reached trace)) = Some (i, post) →
  ∃ likes message,
    PostRoutes.like id currentUser (reached trace)
    = (RLike (bool_decide (u_id currentUser.2 ∈ likes)) (length likes)
             message,
       set_posts (<[i := PostRoutes.set_likes likes post]>)
                 (reached trace)) ∧
    (u_id currentUser.2 ∈ likes ↔ u_id currentUser.2 ∉ p_likes post) ∧
    (∀ other, other ≠ u_id currentUser.2 →
              other ∈ likes ↔ other ∈ p_likes post).
Proof.
  intros Hfind.
  assert (NoDup (p_likes post)) as Hnd.
  { assert (posts_wf (reached trace)) as Hwf.
    { apply run_posts_wf. intros p Hp. by apply elem_of_nil in Hp. }
    apply Hwf. apply find_Some in Hfind as (Hi & _).
    apply list_elem_of_lookup. eauto. }
  unfold PostRoutes.like. rewrite Hfind.
  destruct (JS.indexOf _ _) as [k|] eqn:Hidx.
  - pose proof (indexOf_Some _ _ _ Hidx) as Hk.
    assert (u_id currentUser.2 ∉ JS.splice1 k (p_likes post)) as Hgone.
    { intros Hin.
      apply (splice1_removes Datatypes.id (p_likes post) k
               (u_id currentUser.2) (u_id currentUser.2)); try done.
      by rewrite list_fmap_id. }
    eexists _, _. split; [| split].
    + rewrite bool_decide_eq_false_2 by exact Hgone. reflexivity.
    + split; [done |]. intros Hnot. exfalso. apply Hnot.
      apply list_elem_of_lookup. eauto.
    + intros other Hne. by apply elem_of_delete_other with (u_id currentUser.2).
  - pose proof (proj1 (indexOf_None _ _) Hidx) as Hnot.
    eexists _, _. split; [| split].
    + rewrite bool_decide_eq_true_2; [reflexivity |].
      unfold JS.push. apply elem_of_app. right. by left.
    + split; [done |]. intros _. unfold JS.push.
      apply elem_of_app. right. by left.
    + intros other Hne. unfold JS.push. rewrite elem_of_app.
      split; [intros [H | H%list_elem_of_singleton]; done | by left].
Qed.

Lemma likes_known_step env req st :
  (∀ post v, post ∈ posts st → v ∈ p_likes post → v ∈ u_id <$> users st) →
  ∀ post v, post ∈ posts (handle env req st).2 → v ∈ p_likes post →
            v ∈ u_id <$> users (handle env req st).2.
Proof.
  intros Hst.
  assert (∀ s, posts s = posts st →
               (∀ i u, users st !! i = Some u →
                       ∃ u', users s !! i = Some u' ∧ same_identity u u') →
               ∀ post v, post ∈ posts s → v ∈ p_likes post →
                         v ∈ u_id <$> users s) as Hframe.
  { intros s Hposts Hkept post v Hin Hv. rewrite Hposts in Hin.
    pose proof (Hst post v Hin Hv) as Hu.
    apply list_elem_of_fmap in Hu
      as (u & -> & [j Hj]%list_elem_of_lookup).
    destruct (Hkept j u Hj) as (u' & Hj' & <- & _).
    apply list_elem_of_fmap. exists u'. split; [done |].
    apply list_elem_of_lookup. eauto. }
  assert (∀ s, posts s = posts st → users s = users st →
               ∀ post v, post ∈ posts s → v ∈ p_likes post →
                         v ∈ u_id <$> users s) as Hsame.
  { intros s Hposts Husers. apply Hframe; [done |].
    intros i u Hi. exists u. rewrite Husers.
    split; [done | apply same_identity_refl]. }
  apply (handle_cases
           (λ s, ∀ post v, post ∈ posts s → v ∈ p_likes post →
                           v ∈ u_id <$> users s)); [done | | | | |].
  - intros bearer r. apply Hframe.
    + apply authRoutes_writes.
    + intros i u. apply authRoutes_kept.
  - intros r currentUser Hcu. apply Hframe.
    + apply userRoutes_writes.
    + intros i u. by apply userRoutes_kept.
  - intros r currentUser Hcu.
    destruct (postRoutes_writes env r currentUser st) as (Husers & _).
    rewrite Husers.
    assert (∀ i post, JS.find (PostRoutes.has_id i) (posts st) = Some post →
                      ∀ v, v ∈ p_likes post.2 → v ∈ u_id <$> users st)
      as Hfound.
    { intros i [j post] (Hj & _)%find_Some v. apply Hst.
      apply list_elem_of_lookup. eauto. }
    destruct r as [body | page limit | id | id body | id | id | id body | id];
      simpl; try done.
    + intros post v [-> | Hin]%elem_of_cons; [| by apply Hst].
      simpl. by intros ?%elem_of_nil.
    + unfold PostRoutes.update.
      destruct (JS.find _ _) as [[i p]|] eqn:Hfind; [| done].
      case_match; [done |]. simpl.
      intros post v [-> | Hin]%elem_of_insert_inv; [| by apply Hst].
      simpl. by apply (Hfound _ _ Hfind).
    + unfold PostRoutes.remove.
      destruct (JS.find _ _) as [[i p]|] eqn:Hfind; [| done].
      case_match; [done |]. simpl.
      intros post v Hin%list_elem_of_delete_inv. by apply Hst.
    + unfold PostRoutes.like.
      destruct (JS.find _ _) as [[i p]|] eqn:Hfind; [| done].
      destruct (JS.indexOf _ _); simpl.
      * intros post v [-> | Hin]%elem_of_insert_inv; [| by apply Hst].
        simpl. intros Hv%list_elem_of_delete_inv.
        by apply (Hfound _ _ Hfind).
      * intros post v [-> | Hin]%elem_of_insert_inv; [| by apply Hst].
        simpl. unfold JS.push.
        intros [Hv | ->%list_elem_of_singleton]%elem_of_app;
          [by apply (Hfound _ _ Hfind) |].
        apply list_elem_of_fmap. exists currentUser.2. split; [done |].
        apply list_elem_of_lookup. eauto.
    + unfold PostRoutes.comment.
      destruct (JS.find _ _) as [[i p]|] eqn:Hfind; [| done]. simpl.
      intros post v [-> | Hin]%elem_of_insert_inv; [| by apply Hst].
      simpl. by apply (Hfound _ _ Hfind).
  - intros r currentUser _.
    destruct (marketplaceRoutes_writes env r currentUser st)
      as (Hu & _ & Hp & _).
    by apply Hsame.
  - intros r currentUser _.
    destruct (videoRoutes_writes env r currentUser st) as (Hu & _ & Hp & _).
    by apply Hsame.
Qed.

(** X20. In every reached store the likes of a post are ids of stored
    users, each at most once; so a post never has more likes than there
    are users. *)
Theorem likes_are_distinct_users trace post :
  post ∈ posts (reached trace) →
  NoDup (p_likes post) ∧
  (∀ v, v ∈ p_likes post → ∃ user, user ∈ users (reached trace)
                                   ∧ u_id user = v) ∧
  (length (p_likes post) ≤ length (users (reached trace)))%nat.
Proof.
  intros Hin.
  assert (NoDup (p_likes post)) as Hnd.
  { assert (posts_wf (reached trace)) as Hwf.
    { apply run_posts_wf. intros p Hp. by apply elem_of_nil in Hp. }
    by apply Hwf. }
  assert (∀ v, v ∈ p_likes post → v ∈ u_id <$> users (reached trace))
    as Hknown.
  { intros v. apply (λ H, H post v Hin). clear post Hin Hnd v.
    apply (run_invariant
             (λ s, ∀ post v, post ∈ posts s → v ∈ p_likes post
                             → v ∈ u_id <$> users s)).
    - intros env req st. apply likes_known_step.
    - intros p v Hp. by apply elem_of_nil in Hp. }
  split; [done |]. split.
  - intros v Hv. apply Hknown, list_elem_of_fmap in Hv as (u & -> & Hu).
    eauto.
  - rewrite <- (length_fmap u_id (users (reached trace))).
    apply submseteq_length. by apply NoDup_submseteq.
Qed.

(** ** The life cycle of rooms *)

Lemma rooms_lifecycle_frame st st' :
  users_extend st st' → videoRooms st' = videoRooms st →
  rooms_lifecycle st → rooms_lifecycle st'.
Proof.
  intros [Hlen Hid] Hrooms Hwf room Hin. rewrite Hrooms in Hin.
  destruct (Hwf room Hin) as (Hhost & Hps & H1 & H2 & H3 & H4).
  unfold stored in *.
  split; [lia |]. split; [intros p Hp; specialize (Hps p Hp); lia |].
  split; [done |]. split; [done |]. split; [done |].
  intros Hne. rewrite (Hid _ Hhost).
  erewrite list_fmap_ext; [by apply H4 |].
  intros j p Hj. apply Hid, Hps. apply list_elem_of_lookup. eauto.
Qed.

Lemma rooms_lifecycle_insert st i room' :
  rooms_lifecycle st →
  stored st (r_host room') →
  (∀ p, p ∈ r_participants room' → stored st p) →
  room_lifecycle st room' →
  rooms_lifecycle (set_rooms (<[i := room']>) st).
Proof.
  intros Hwf Hhost Hps Hroom room Hin. simpl in Hin.
  apply elem_of_insert_inv in Hin as [-> | Hin]; [done |].
  exact (Hwf room Hin).
Qed.

Lemma videoRoutes_lifecycle env r (currentUser : CurrentUser) st :
  users st !! currentUser.1 = Some currentUser.2 →
  rooms_lifecycle st → rooms_lifecycle (videoRoutes env r currentUser st).2.
Proof.
  intros Hcu Hwf.
  assert (stored st currentUser.1) as Hstored
    by (by apply lookup_lt_Some in Hcu).
  pose proof (stored_user_id st currentUser Hcu) as Hme.
  assert (∀ i room, JS.find (VideoRoutes.has_id i) (videoRooms st)
                      = Some room →
                    stored st (r_host room.2) ∧
                    (∀ p, p ∈ r_participants room.2 → stored st p) ∧
                    room_lifecycle st room.2) as Hfound.
  { intros i [j room] (Hj & _)%find_Some. apply Hwf.
    apply list_elem_of_lookup. eauto. }
  destruct r as [body | status | id | id body | id | id | page limit
                 | id body]; simpl; try done.
  - (* create *)
    intros room [-> | Hin]%elem_of_cons; [| by apply Hwf]. simpl.
    split; [done |]. split; [by intros p ->%list_elem_of_singleton |].
    split; [done |]. split; [split; [done | by intros [? ?]] |].
    split; [done |]. intros _. by left.
  - (* join *)
    unfold VideoRoutes.join.
    destruct (JS.find _ _) as [[i room]|] eqn:Hfind; [| done].
    destruct (Hfound _ _ Hfind) as (Hhost & Hps & H1 & H2 & H3 & H4).
    simpl in *.
    case_bool_decide as Hended; [done |].
    destruct (JS.some _ _) eqn:Hsome; [done |].
    destruct (Qle_bool _ _); [done |].
    destruct (_ && _); [done |]. cbn zeta.
    assert (r_participants room ≠ []) as Hne
      by (intros Hnil; by apply Hended, H1).
    apply rooms_lifecycle_insert; [done | | |].
    + by case_match.
    + assert (∀ p, p ∈ JS.push currentUser.1 (r_participants room) →
                   stored st p) as Hps'.
      { intros p [Hp | ->%list_elem_of_singleton]%elem_of_app; eauto. }
      by case_match.
    + assert (¬ is_Some (r_endedAt room)) as Hnone
        by (intros Hs; by apply Hended, H2).
      unfold JS.push. split; [| split; [| split]].
      * case_match; simpl; intros Hnil; by apply app_eq_nil in Hnil as [_ ?].
      * case_match; simpl; (split; [done | intros Hs; by destruct Hnone]).
      * case_match eqn:Hif; simpl; [done |].
        intros Hw. exfalso. apply andb_false_iff in Hif as [Hlen | Hst].
        -- simpl in Hlen. apply Nat.eqb_neq in Hlen.
           rewrite length_app, (H3 Hw) in Hlen. simpl in Hlen. lia.
        -- simpl in Hst. by rewrite bool_decide_eq_true_2 in Hst.
      * intros _.
        assert (user_id st (r_host room)
                ∈ user_id st <$> JS.push currentUser.1 (r_participants room))
          as Hin.
        { unfold JS.push. rewrite fmap_app. apply elem_of_app. left.
          by apply H4. }
        by case_match.
  - (* leave *)
    unfold VideoRoutes.leave.
    destruct (JS.find _ _) as [[i room]|] eqn:Hfind; [| done].
    destruct (Hfound _ _ Hfind) as (Hhost & Hps & H1 & H2 & H3 & H4).
    simpl in *.
    destruct (JS.findIndex _ _) as [k|] eqn:Hidx; [| done]. cbn zeta.
    apply findIndex_Some in Hidx as (p & Hk).
    apply find_Some in Hk as (Hk & Hp & _).
    unfold VideoRoutes.is_user in Hp. apply String.eqb_eq in Hp.
    assert (∀ q, q ∈ delete k (r_participants room) → stored st q) as Hps'.
    { intros q Hq%list_elem_of_delete_inv. by apply Hps. }
    assert (length (r_participants room) = 1%nat →
            delete k (r_participants room) = []) as Hone.
    { intros Hlen. apply length_zero_iff_nil.
      rewrite length_delete by eauto. lia. }
    unfold JS.splice1.
    cbn [r_host r_participants VideoRoutes.set_updatedAt
         VideoRoutes.set_participants].
    destruct (VideoRoutes.is_user st currentUser (r_host room)) eqn:Hishost;
      destruct (delete k (r_participants room)) as [| first rest] eqn:Hrest;
      cbn; apply rooms_lifecycle_insert; try done.
    + apply Hps'. by left.
    + unfold room_lifecycle. simpl.
      split; [done |]. split; [exact H2 |]. split.
      * intros Hw. by specialize (Hone (H3 Hw)).
      * intros _. by left.
    + unfold room_lifecycle. simpl.
      split; [done |]. split; [exact H2 |]. split.
      * intros Hw. by specialize (Hone (H3 Hw)).
      * intros _.
        assert (r_participants room ≠ []) as Hne
          by (intros Hnil; by rewrite Hnil in Hk).
        specialize (H4 Hne).
        assert (user_id st (r_host room)
                ∈ user_id st <$> delete k (r_participants room)) as Hin.
        { rewrite list_fmap_delete.
          apply (elem_of_delete_other _ k (user_id st p)); [| | done].
          - by rewrite list_lookup_fmap, Hk.
          - unfold VideoRoutes.is_user in Hishost.
            apply String.eqb_neq in Hishost. congruence. }
        by rewrite Hrest in Hin.
  - (* end *)
    unfold VideoRoutes.end_room.
    destruct (JS.find _ _) as [[i room]|] eqn:Hfind; [| done].
    destruct (Hfound _ _ Hfind) as (Hhost & Hps & H1 & H2 & H3 & H4).
    simpl in *.
    destruct (negb _); [done |]. case_bool_decide; [done |]. simpl.
    apply rooms_lifecycle_insert; try done.
    all: unfold room_lifecycle; simpl.
    all: split; [done |]; split; [split; [eauto | done] |];
      split; [done |]; done.
  - (* update *)
    unfold VideoRoutes.update.
    destruct (JS.find _ _) as [[i room]|] eqn:Hfind; [| done].
    destruct (Hfound _ _ Hfind) as (Hhost & Hps & Hlife).
    destruct (negb _); [done |]. case_bool_decide; [done |]. simpl.
    by apply rooms_lifecycle_insert.
Qed.

Lemma rooms_lifecycle_step env req st :
  rooms_lifecycle st → rooms_lifecycle (handle env req st).2.
Proof.
  intros Hwf. apply (handle_cases rooms_lifecycle); [done | | | | |].
  - intros bearer r. destruct (authRoutes_frame env bearer r st).
    by eapply rooms_lifecycle_frame.
  - intros r currentUser Hcu.
    destruct (userRoutes_frame env r currentUser st Hcu).
    by eapply rooms_lifecycle_frame.
  - intros r currentUser _.
    destruct (postRoutes_frame env r currentUser st).
    eapply rooms_lifecycle_frame; [by apply users_extend_same | done | done].
  - intros r currentUser _.
    destruct (marketplaceRoutes_frame env r currentUser st).
    eapply rooms_lifecycle_frame; [by apply users_extend_same | done | done].
  - intros r currentUser Hcu. by apply videoRoutes_lifecycle.
Qed.

(** X21. The life cycle of rooms, in every reached store: a room without
    participants is ended; a room is ended exactly when [endedAt] is set;
    a waiting room has exactly one participant; and the host of a room
    that has participants is one of them. *)
Theorem rooms_follow_their_lifecycle trace room :
  room ∈ videoRooms (reached trace) →
  (r_participants room = [] → r_status room = Ended) ∧
  (r_status room = Ended ↔ is_Some (r_endedAt room)) ∧
  (r_status room = Waiting → length (r_participants room) = 1%nat) ∧
  (r_participants room ≠ [] →
   user_id (reached trace) (r_host room)
   ∈ user_id (reached trace) <$> r_participants room).
Proof.
  intros Hin.
  assert (rooms_lifecycle (reached trace)) as Hwf.
  { apply (run_invariant rooms_lifecycle).
    - apply rooms_lifecycle_step.
    - intros r Hr. by apply elem_of_nil in Hr. }
  by destruct (Hwf room Hin) as (_ & _ & Hlife).
Qed.

(** ** References and comments *)

Lemma posts_refs_step env req st :
  (∀ post, post ∈ posts st →
     stored st (p_author post) ∧
     ∀ c, c ∈ p_comments post →
          stored st (c_author c) ∧ c_postId c = p_id post) →
  ∀ post, post ∈ posts (handle env req st).2 →
    stored (handle env req st).2 (p_author post) ∧
    ∀ c, c ∈ p_comments post →
         stored (handle env req st).2 (c_author c) ∧ c_postId c = p_id post.
Proof.
  intros Hst.
  assert (∀ s, posts s = posts st → users_extend st s →
               ∀ post, post ∈ posts s →
                 stored s (p_author post) ∧
                 ∀ c, c ∈ p_comments post →
                      stored s (c_author c) ∧ c_postId c = p_id post)
    as Hframe.
  { intros s Hposts [Hlen _] post Hin. rewrite Hposts in Hin.
    destruct (Hst post Hin) as [Ha Hc]. unfold stored in *.
    split; [lia |]. intros c Hcin. destruct (Hc c Hcin). split; [lia | done]. }
  apply (handle_cases
           (λ s, ∀ post, post ∈ posts s →
                   stored s (p_author post) ∧
                   ∀ c, c ∈ p_comments post →
                        stored s (c_author c) ∧ c_postId c = p_id post));
    [done | | | | |].
  - intros bearer r. apply Hframe; [apply authRoutes_writes |].
    apply authRoutes_frame.
  - intros r currentUser Hcu. apply Hframe; [apply userRoutes_writes |].
    by apply userRoutes_frame.
  - intros r currentUser Hcu.
    assert (stored st currentUser.1) as Hme
      by (by apply lookup_lt_Some in Hcu).
    destruct (postRoutes_writes env r currentUser st) as (Husers & _).
    unfold stored. rewrite Husers. fold (stored st).
    assert (∀ i post, JS.find (PostRoutes.has_id i) (posts st) = Some post →
                      PostRoutes.has_id i post.2 = true ∧
                      stored st (p_author post.2) ∧
                      ∀ c, c ∈ p_comments post.2 →
                           stored st (c_author c)
                           ∧ c_postId c = p_id post.2) as Hfound.
    { intros i [j post] (Hj & Hid & _)%find_Some. split; [done |].
      apply Hst. apply list_elem_of_lookup. eauto. }
    destruct r as [body | page limit | id | id body | id | id | id body | id];
      simpl; try done.
    + intros post [-> | Hin]%elem_of_cons; [| by apply Hst].
      simpl. split; [done |]. by intros c ?%elem_of_nil.
    + unfold PostRoutes.update.
      destruct (JS.find _ _) as [[i p]|] eqn:Hfind; [| done].
      case_match; [done |]. simpl.
      intros post [-> | Hin]%elem_of_insert_inv; [| by apply Hst].
      simpl. by destruct (Hfound _ _ Hfind) as (_ & ? & ?).
    + unfold PostRoutes.remove.
      destruct (JS.find _ _) as [[i p]|] eqn:Hfind; [| done].
      case_match; [done |]. simpl.
      intros post Hin%list_elem_of_delete_inv. by apply Hst.
    + unfold PostRoutes.like.
      destruct (JS.find _ _) as [[i p]|] eqn:Hfind; [| done].
      destruct (Hfound _ _ Hfind) as (_ & ? & ?).
      destruct (JS.indexOf _ _); simpl;
        intros post [-> | Hin]%elem_of_insert_inv; try by apply Hst.
      all: done.
    + unfold PostRoutes.comment.
      destruct (JS.find _ _) as [[i p]|] eqn:Hfind; [| done].
      destruct (Hfound _ _ Hfind) as (Hid & Ha & Hc). simpl in *.
      intros post [-> | Hin]%elem_of_insert_inv; [| by apply Hst].
      simpl. split; [done |]. unfold JS.push.
      intros c [Hcin | ->%list_elem_of_singleton]%elem_of_app;
        [by apply Hc |].
      simpl. split; [done |].
      unfold PostRoutes.has_id in Hid. by apply String.eqb_eq in Hid.
  - intros r currentUser _. apply Hframe.
    + apply marketplaceRoutes_writes.
    + apply users_extend_same, marketplaceRoutes_writes.
  - intros r currentUser _. apply Hframe.
    + apply videoRoutes_writes.
    + apply users_extend_same, videoRoutes_writes.
Qed.

Lemma products_refs_step env req st :
  (∀ product, product ∈ products st → stored st (pr_seller product)) →
  ∀ product, product ∈ products (handle env req st).2 →
             stored (handle env req st).2 (pr_seller product).
Proof.
  intros Hst.
  assert (∀ s, products s = products st → users_extend st s →
               ∀ product, product ∈ products s →
                          stored s (pr_seller product)) as Hframe.
  { intros s Hproducts [Hlen _] product Hin. rewrite Hproducts in Hin.
    specialize (Hst product Hin). unfold stored in *. lia. }
  apply (handle_cases
           (λ s, ∀ product, product ∈ products s →
                            stored s (pr_seller product)));
    [done | | | | |].
  - intros bearer r. apply Hframe; [apply authRoutes_writes |].
    apply authRoutes_frame.
  - intros r currentUser Hcu. apply Hframe; [apply userRoutes_writes |].
    by apply userRoutes_frame.
  - intros r currentUser _. apply Hframe.
    + apply postRoutes_writes.
    + apply users_extend_same, postRoutes_writes.
  - intros r currentUser Hcu.
    destruct (marketplaceRoutes_writes env r currentUser st) as (Husers & _).
    unfold stored. rewrite Husers. fold (stored st).
    assert (∀ i product,
              JS.find (MarketplaceRoutes.has_id i) (products st)
                = Some product →
              stored st (pr_seller product.2)) as Hfound.
    { intros i [j product] (Hj & _)%find_Some. apply Hst.
      apply list_elem_of_lookup. eauto. }
    destruct r as [query | id | body | id body | id | sellerId | | id];
      simpl; try done.
    + unfold MarketplaceRoutes.create.
      destruct currentUser as [user|]; [| done]. simpl.
      intros product [-> | Hin]%elem_of_cons; [| by apply Hst].
      simpl. specialize (Hcu user eq_refl). by apply lookup_lt_Some in Hcu.
    + unfold MarketplaceRoutes.update.
      destruct currentUser as [user|]; [| done].
      destruct (JS.find _ _) as [[i p]|] eqn:Hfind; [| done].
      case_match; [done |]. simpl.
      intros product [-> | Hin]%elem_of_insert_inv; [| by apply Hst].
      simpl. by apply (Hfound _ _ Hfind).
    + unfold MarketplaceRoutes.remove.
      destruct currentUser as [user|]; [| done].
      destruct (JS.find _ _) as [[i p]|] eqn:Hfind; [| done].
      case_match; [done |]. simpl.
      intros product Hin%list_elem_of_delete_inv. by apply Hst.
    + unfold MarketplaceRoutes.mark_sold.
      destruct currentUser as [user|]; [| done].
      destruct (JS.find _ _) as [[i p]|] eqn:Hfind; [| done].
      case_match; [done |]. simpl.
      intros product [-> | Hin]%elem_of_insert_inv; [| by apply Hst].
      simpl. by apply (Hfound _ _ Hfind).
  - intros r currentUser _. apply Hframe.
    + apply videoRoutes_writes.
    + apply users_extend_same, videoRoutes_writes.
Qed.

(** X22. References never dangle: in every reached store the author of
    every post and of every comment, the seller of every product, the host
    and every participant of every room is a stored user. *)
Theorem references_are_stored trace : refs_wf (reached trace).
Proof.
  split; [| split].
  - intros post Hin.
    assert (stored (reached trace) (p_author post) ∧
            ∀ c, c ∈ p_comments post →
                 stored (reached trace) (c_author c)
                 ∧ c_postId c = p_id post) as [Ha Hc].
    { apply (λ H, H post Hin). clear post Hin.
      apply (run_invariant
               (λ s, ∀ post, post ∈ posts s →
                       stored s (p_author post) ∧
                       ∀ c, c ∈ p_comments post →
                            stored s (c_author c)
                            ∧ c_postId c = p_id post)).
      - intros env req st. apply posts_refs_step.
      - intros p Hp. by apply elem_of_nil in Hp. }
    split; [done |]. intros c Hcin. by destruct (Hc c Hcin).
  - apply (run_invariant
             (λ s, ∀ product, product ∈ products s →
                              stored s (pr_seller product))).
    + intros env req st. apply products_refs_step.
    + intros p Hp. by apply elem_of_nil in Hp.
  - intros room Hin.
    assert (rooms_lifecycle (reached trace)) as Hwf.
    { apply (run_invariant rooms_lifecycle).
      - apply rooms_lifecycle_step.
      - intros r Hr. by apply elem_of_nil in Hr. }
    by destruct (Hwf room Hin) as (? & ? & _).
Qed.

(** X23. In every reached store each comment kept on a post carries the
    id of that post as [postId]. *)
Theorem comments_belong_to_their_post trace : comments_wf (reached trace).
Proof.
  intros post c Hin Hcin.
  assert (stored (reached trace) (p_author post) ∧
          ∀ c, c ∈ p_comments post →
               stored (reached trace) (c_author c)
               ∧ c_postId c = p_id post) as [_ Hc].
  { apply (λ H, H post Hin). clear post Hin Hcin.
    apply (run_invariant
             (λ s, ∀ post, post ∈ posts s →
                     stored s (p_author post) ∧
                     ∀ c, c ∈ p_comments post →
                          stored s (c_author c) ∧ c_postId c = p_id post)).
    - intros env req st. apply posts_refs_step.
    - intros p Hp. by apply elem_of_nil in Hp. }
  by destruct (Hc c Hcin).
Qed.

(** ** Rooms: ended rooms, passwords, joining and leaving *)

(** X24. An ended room is closed: joining it, ending it again and updating
    it are refused and change nothing, whoever asks; and leaving it leaves
    it ended. *)
Theorem ended_room_is_closed env id currentUser st i room :
  JS.find (VideoRoutes.has_id id) (videoRooms st) = Some (i, room) →
  r_status room = Ended →
  (∀ body, VideoRoutes.join env id body currentUser st
           = (RError "Cette salle est terminée", st)) ∧
  (∃ message, VideoRoutes.end_room env id currentUser st
              = (RError message, st)) ∧
  (∀ body, ∃ message, VideoRoutes.update env id body currentUser st
                      = (RError message, st)) ∧
  (∀ room', videoRooms (VideoRoutes.leave env id currentUser st).2 !! i
            = Some room' → r_status room' = Ended).
Proof.
  intros Hfind Hended. split; [| split; [| split]].
  - intros body. unfold VideoRoutes.join. rewrite Hfind.
    by rewrite bool_decide_eq_true_2.
  - unfold VideoRoutes.end_room. rewrite Hfind.
    destruct (negb _); [eauto |]. rewrite bool_decide_eq_true_2 by done.
    eauto.
  - intros body. unfold VideoRoutes.update. rewrite Hfind.
    destruct (negb _); [eauto |]. rewrite bool_decide_eq_true_2 by done.
    eauto.
  - intros room'. unfold VideoRoutes.leave. rewrite Hfind.
    assert (videoRooms st !! i = Some room) as Hi
      by (by apply find_Some in Hfind as (? & _)).
    destruct (JS.findIndex _ _) as [k|]; simpl.
    + rewrite list_lookup_insert_eq by (by apply lookup_lt_Some in Hi).
      intros [= <-]. repeat case_match; done.
    + rewrite Hi. by intros [= <-].
Qed.

(** X25. A room with a password admits nobody without it: a caller who is
    not yet a participant and whose body carries no password, or another
    one than the room's, is refused, and the store is unchanged. *)
Theorem join_requires_password env id body currentUser st i room :
  JS.find (VideoRoutes.has_id id) (videoRooms st) = Some (i, room) →
  JS.truthy (r_password room) = true →
  jr_password body ≠ r_password room →
  JS.some (VideoRoutes.is_user st currentUser) (r_participants room) = false →
  ∃ message,
    VideoRoutes.join env id body currentUser st = (RError message, st).
Proof.
  intros Hfind Hpw Hwrong Hnew. unfold VideoRoutes.join.
  rewrite Hfind, Hnew, Hpw. simpl.
  rewrite (bool_decide_eq_false_2 _ Hwrong). simpl. rewrite orb_true_r.
  repeat case_match; eauto.
Qed.

(** X26. Join, then leave: when a user who is not the host joins a room
    that has participants, and then leaves it, the participants and the
    host are as they were before; the status is not restored: a waiting
    room that was joined stays active.  The answer to the join carries no
    password and counts the participants. *)
Theorem join_then_leave env env' id body (currentUser : CurrentUser) st
    i room :
  users st !! currentUser.1 = Some currentUser.2 →
  JS.find (VideoRoutes.has_id id) (videoRooms st) = Some (i, room) →
  r_status room ≠ Ended →
  r_participants room ≠ [] →
  JS.some (VideoRoutes.is_user st currentUser) (r_participants room) = false →
  VideoRoutes.is_user st currentUser (r_host room) = false →
  Qle_bool (r_maxParticipants room)
           (inject_Z (Z.of_nat (length (r_participants room)))) = false →
  (JS.truthy (r_password room) = true →
   jr_password body = r_password room) →
  ∃ joined message st1 left,
    VideoRoutes.join env id body currentUser st
      = (RRoom (VideoRoutes.with_count None joined) message, st1) ∧
    r_participants joined = JS.push currentUser.1 (r_participants room) ∧
    r_status joined
      = (if bool_decide (r_status room = Waiting)
            && (length (r_participants room) =? 1)%nat
         then Active else r_status room) ∧
    VideoRoutes.leave env' id currentUser st1
      = (RMessage "Vous avez quitté la salle",
         set_rooms (<[i := left]>) st1) ∧
    r_participants left = r_participants room ∧
    r_host left = r_host room ∧
    r_status left = r_status joined.
Proof.
  intros Hcu Hfind Hstatus Hne Hnew Hhost Hroom Hpw.
  assert (VideoRoutes.has_id id room = true) as Hid
    by (by apply find_Some in Hfind as (_ & ? & _)).
  assert (VideoRoutes.is_user st currentUser currentUser.1 = true) as Hme.
  { unfold VideoRoutes.is_user. rewrite (stored_user_id _ _ Hcu).
    apply String.eqb_refl. }
  unfold VideoRoutes.join. rewrite Hfind, Hnew, Hroom.
  rewrite (bool_decide_eq_false_2 _ Hstatus).
  assert (JS.truthy (r_password room)
          && (negb (JS.truthy (jr_password body))
              || negb (bool_decide (jr_password body = r_password room)))
          = false) as ->.
  { destruct (JS.truthy (r_password room)) eqn:Ht; [| done].
    rewrite (Hpw eq_refl), Ht. by rewrite bool_decide_eq_true_2. }
  cbn zeta.
  set (joined := if _ && _ then _ else _).
  assert (r_participants joined
          = JS.push currentUser.1 (r_participants room)) as Hps
    by (unfold joined; by case_match).
  assert (r_host joined = r_host room) as Hh
    by (unfold joined; by case_match).
  assert (VideoRoutes.has_id id joined = true) as Hidj
    by (unfold joined; by case_match).
  assert (r_status joined
          = (if bool_decide (r_status room = Waiting)
                && (length (r_participants room) =? 1)%nat
             then Active else r_status room)) as Hst.
  { unfold joined. simpl. unfold JS.push. rewrite length_app. simpl.
    rewrite Nat.add_1_r. simpl. rewrite andb_comm. by case_match. }
  exists joined. eexists _, _.
  exists (VideoRoutes.set_updatedAt (now env' 0)
            (VideoRoutes.set_participants (r_participants room) joined)).
  split; [reflexivity |].
  split; [exact Hps |]. split; [exact Hst |].
  unfold VideoRoutes.leave. cbn [videoRooms set_rooms].
  erewrite find_insert_same; [| exact Hfind | exact Hidj].
  assert (JS.findIndex (VideoRoutes.is_user st currentUser)
            (r_participants joined)
          = Some (length (r_participants room))) as Hidx.
  { rewrite Hps. apply findIndex_Some. exists currentUser.1.
    apply find_Some. unfold JS.push. split; [| split; [exact Hme |]].
    - by rewrite lookup_app_r, Nat.sub_diag.
    - intros j y Hj Hlt. rewrite lookup_app_l in Hj by done.
      apply (proj1 (some_false _ _) Hnew). apply list_elem_of_lookup. eauto. }
  change (VideoRoutes.is_user (set_rooms (<[i:=joined]>) st) currentUser)
    with (VideoRoutes.is_user st currentUser).
  rewrite Hidx. cbn zeta.
  cbn [r_host r_participants VideoRoutes.set_updatedAt
       VideoRoutes.set_participants].
  rewrite Hh, Hhost, Hps, splice1_push.
  destruct (r_participants room) as [| first rest] eqn:Hrest; [done |].
  split; [reflexivity |]. done.
Qed.

(** ** Rooms: what is shown to whom *)

(** X27. Private rooms are not shown: the public listing holds exactly the
    stored rooms that are not private and have the status asked for
    (default waiting), each without its password; and GET /rooms/:id of a
    private room answers a caller who is neither a participant nor the
    host with an error. *)
Theorem private_rooms_are_hidden status currentUser st :
  (∃ rooms,
     VideoRoutes.list_rooms status st = RRooms rooms (length rooms) ∧
     ∀ out, out ∈ rooms ↔
            ∃ room, room ∈ videoRooms st ∧
                    r_isPrivate room = false ∧
                    r_status room = default Waiting status ∧
                    out = VideoRoutes.with_count None room) ∧
  (∀ id i room,
     JS.find (VideoRoutes.has_id id) (videoRooms st) = Some (i, room) →
     r_isPrivate room = true →
     JS.some (VideoRoutes.is_user st currentUser) (r_participants room)
       = false →
     VideoRoutes.is_user st currentUser (r_host room) = false →
     VideoRoutes.get id currentUser st
     = RError "Accès non autorisé à cette salle privée").
Proof.
  split.
  - eexists. split; [reflexivity |]. intros out.
    rewrite list_elem_of_fmap. split.
    + intros (room & -> & Hin). exists room.
      apply list_elem_of_In, filter_In in Hin as [Hin Hkeep].
      apply andb_true_iff in Hkeep as [Hpub Hst].
      apply negb_true_iff in Hpub. apply bool_decide_eq_true in Hst.
      split; [by apply list_elem_of_In | done].
    + intros (room & Hin & Hpub & Hst & ->). exists room.
      split; [done |]. apply list_elem_of_In, filter_In.
      split; [by apply list_elem_of_In |].
      rewrite Hpub. simpl. by apply bool_decide_eq_true.
  - intros id i room Hfind Hprivate Hnot Hhost.
    unfold VideoRoutes.get. by rewrite Hfind, Hprivate, Hnot, Hhost.
Qed.

Lemma elem_of_slice {A} (l : list A) s e x : x ∈ JS.slice s e l → x ∈ l.
Proof.
  unfold JS.slice. intros Hx.
  eapply elem_of_sublist; [| apply sublist_drop].
  eapply elem_of_sublist; [exact Hx | apply sublist_take].
Qed.

(** X28. The history shows a user nothing but rooms of their own: every
    room on a page of GET /history is a stored room of which the caller is
    the host or a participant, shown without its password, and [total]
    is at most the number of stored rooms. *)
Theorem history_is_the_callers page limit currentUser st rooms pg out :
  VideoRoutes.history page limit currentUser st = RHistory rooms pg →
  out ∈ rooms →
  ∃ room,
    room ∈ videoRooms st ∧
    (VideoRoutes.is_user st currentUser (r_host room) = true
     ∨ JS.some (VideoRoutes.is_user st currentUser) (r_participants room)
       = true) ∧
    out = VideoRoutes.with_count None room ∧
    (pg_total pg ≤ length (videoRooms st))%nat.
Proof.
  unfold VideoRoutes.history. intros [= <- <-] Hin.
  apply list_elem_of_fmap in Hin as (room & -> & Hin).
  unfold paginate in Hin. apply elem_of_slice in Hin.
  apply list_elem_of_In, filter_In in Hin as [Hin Hkeep].
  exists room. split; [by apply list_elem_of_In |].
  split; [by apply orb_true_iff in Hkeep |]. split; [done |].
  simpl. apply List.filter_length_le.
Qed.

(** ** Categories and suggestions *)

Lemma unique_spec seen l x :
  x ∈ MarketplaceRoutes.unique seen l ↔ x ∈ l ∧ x ∉ seen.
Proof.
  revert seen. induction l as [| y l IH]; intros seen; simpl.
  - split; [by intros ?%elem_of_nil | by intros [?%elem_of_nil _]].
  - destruct (JS.some (String.eqb y) seen) eqn:Hseen.
    + apply some_true in Hseen as (z & Hz & ->%String.eqb_eq).
      rewrite IH, elem_of_cons. split; [intros [? ?]; auto |].
      intros [[-> | ?] Hnot]; [done | auto].
    + pose proof (proj1 (some_false _ _) Hseen) as Hnot.
      assert (y ∉ seen) as Hy.
      { intros Hin. specialize (Hnot y Hin).
        by rewrite String.eqb_refl in Hnot. }
      rewrite !elem_of_cons, IH, elem_of_cons. split.
      * intros [-> | [Hin Hno]]; [auto |]. split; [auto |].
        intros Hs. apply Hno. by right.
      * intros [[-> | Hin] Hno]; [by left |].
        destruct (decide (x = y)) as [-> | Hne]; [by left |].
        right. split; [done |]. by intros [? | ?].
Qed.

Lemma unique_NoDup seen l : NoDup (MarketplaceRoutes.unique seen l).
Proof.
  revert seen. induction l as [| y l IH]; intros seen; simpl.
  - apply NoDup_nil_2.
  - destruct (JS.some (String.eqb y) seen); [apply IH |].
    apply NoDup_cons. split; [| apply IH].
    intros [_ Hnot]%unique_spec. apply Hnot. by left.
Qed.

(** X29. GET /marketplace/categories lists each category of a stored
    product exactly once, and nothing else. *)
Theorem categories_are_listed_once st :
  ∃ categories,
    MarketplaceRoutes.categories st = RCategories categories ∧
    NoDup categories ∧
    ∀ c, c ∈ categories ↔ ∃ product, product ∈ products st
                                     ∧ pr_category product = c.
Proof.
  eexists. split; [reflexivity |]. split; [apply unique_NoDup |].
  intros c. rewrite unique_spec, list_elem_of_fmap. split.
  - intros [(p & -> & Hp) _]. eauto.
  - intros (p & Hp & <-). split; [eauto |]. by intros ?%elem_of_nil.
Qed.

Lemma StronglySorted_take {A} (R : A → A → Prop) (l : list A) n :
  StronglySorted R l → StronglySorted R (take n l).
Proof.
  intros Hl. revert n. induction Hl as [| x l Hl IH Hx]; intros n.
  - rewrite take_nil. constructor.
  - destruct n; simpl; constructor; [apply IH |].
    by apply Forall_take.
Qed.

(** X30. GET /users/suggestions returns at most ten stored users, none of
    them with the caller's id, the most recently created first. *)
Theorem suggestions_are_recent_others currentUser st :
  ∃ suggestions,
    UserRoutes.suggestions currentUser st = RSuggestions suggestions ∧
    (length suggestions ≤ 10)%nat ∧
    (∀ user, user ∈ suggestions →
             user ∈ users st ∧ u_id user ≠ u_id currentUser.2) ∧
    StronglySorted (λ a b, u_createdAt b <= u_createdAt a) suggestions.
Proof.
  eexists. split; [reflexivity |].
  set (others := List.filter _ (users st)).
  set (sorted := JS.sort _ others).
  assert (JS.slice 0 10 sorted = take 10 sorted) as ->.
  { apply list_eq. intros k.
    rewrite (slice_window sorted 0%Q 10%Q 0 10 k) by done.
    by rewrite lookup_take. }
  split; [| split].
  - rewrite length_take. lia.
  - intros user Hin.
    eapply elem_of_sublist in Hin; [| apply sublist_take].
    unfold sorted in Hin. rewrite sort_perm in Hin.
    apply list_elem_of_In, filter_In in Hin as [Hin Hkeep].
    split; [by apply list_elem_of_In |].
    by apply negb_true_iff, String.eqb_neq in Hkeep.
  - apply StronglySorted_take. unfold sorted. apply sort_sorted.
    + intros x y. lia.
    + intros x y. lia.
    + intros x y z. lia.
Qed.

(** * The further properties at work on the scenario *)

Lemma register_then_login_witness :
  ∃ user token,
    (AuthRoutes.register (Scenario.env "u3" 4500) Scenario.carol
       (reached Scenario.two_users)).1 = RAuth user token ∧
    u_email user = "carol@vibe.io" ∧
    u_username user = "carol" ∧
    AuthRoutes.login (Scenario.env "x" 5000)
      {| login_email := "carol@vibe.io"; login_password := "tr0ub4dor&3" |}
      (AuthRoutes.register (Scenario.env "u3" 4500) Scenario.carol
         (reached Scenario.two_users)).2
    = RAuth user (jwt_sign (Scenario.env "x" 5000) (u_id user)
                           (u_email user)) ∧
    ∀ password,
      password ≠ "tr0ub4dor&3" →
      AuthRoutes.login (Scenario.env "x" 5000)
        {| login_email := "carol@vibe.io"; login_password := password |}
        (AuthRoutes.register (Scenario.env "u3" 4500) Scenario.carol
           (reached Scenario.two_users)).2
      = RError "Email ou mot de passe incorrect".
Proof.
  apply (register_then_login (Scenario.env "u3" 4500)
           (Scenario.env "x" 5000) Scenario.carol
           (reached Scenario.two_users)).
  vm_compute. reflexivity.
Defined.

Lemma register_then_authenticate_witness :
  derive_auth (Scenario.env "x" 5000)
    (AuthRoutes.register (Scenario.env "u3" 4500) Scenario.carol
       (reached Scenario.two_users)).2 (Some "u3")
    = inr (length (users (reached Scenario.two_users)),
           Scenario.carol_user.2) ∧
  AuthRoutes.verify (Scenario.env "x" 5000) (Some "u3")
    (AuthRoutes.register (Scenario.env "u3" 4500) Scenario.carol
       (reached Scenario.two_users)).2
    = RUser Scenario.carol_user.2 None.
Proof.
  apply (register_then_authenticate (Scenario.env "u3" 4500)
           (Scenario.env "x" 5000) Scenario.carol
           (reached Scenario.two_users) Scenario.carol_user.2 "u3").
  - vm_compute. reflexivity.
  - vm_compute. reflexivity.
  - discriminate.
  - intros u Hin. apply list_elem_of_In in Hin. vm_compute in Hin.
    destruct Hin as [<- | [<- | []]]; discriminate.
Defined.

Lemma users_are_kept_witness :
  ∃ user',
    users (run [(Scenario.env "x" 5000, Cases.put_bio)]
               (reached Scenario.two_users)) !! 0%nat = Some user' ∧
    same_identity Scenario.alice_user.2 user'.
Proof.
  apply (users_are_kept [(Scenario.env "x" 5000, Cases.put_bio)]
           (reached Scenario.two_users) 0 Scenario.alice_user.2).
  vm_compute. reflexivity.
Defined.

Lemma passwords_are_kept_witness :
  userCredentials
    (reached (Scenario.two_users
              ++ [(Scenario.env "x" 5000, Cases.put_bio)]))
    !! "alice@vibe.io" = Some "correct horse".
Proof.
  apply (passwords_are_kept Scenario.two_users
           [(Scenario.env "x" 5000, Cases.put_bio)]
           "alice@vibe.io" "correct horse").
  vm_compute. reflexivity.
Defined.

Lemma put_me_then_get_witness :
  handle (Scenario.env "y" 6000)
    {| bearer := Some "u1"; route := ApiUsers GetMe |}
    (handle (Scenario.env "x" 5000) Cases.put_bio
       (reached Scenario.two_users)).2
    = (Returned (RUser Cases.alice_with_bio None),
       (handle (Scenario.env "x" 5000) Cases.put_bio
          (reached Scenario.two_users)).2) ∧
  handle (Scenario.env "y" 6000)
    {| bearer := Some "u1";
       route := ApiUsers (GetUser (u_id Cases.alice_with_bio)) |}
    (handle (Scenario.env "x" 5000) Cases.put_bio
       (reached Scenario.two_users)).2
    = (Returned (RUser Cases.alice_with_bio None),
       (handle (Scenario.env "x" 5000) Cases.put_bio
          (reached Scenario.two_users)).2).
Proof.
  apply (put_me_then_get (Scenario.env "x" 5000) (Scenario.env "y" 6000)
           (Some "u1") Cases.new_bio (reached Scenario.two_users)
           Cases.alice_with_bio (Some "Profil mis à jour avec succès")).
  - vm_compute. reflexivity.
  - reflexivity.
Defined.

Lemma create_room_then_get_witness :
  ∃ room message,
    (VideoRoutes.create (Scenario.env "r1" 3000) Scenario.open_room
       Scenario.alice_user (reached Scenario.two_users)).1
      = RRoom (VideoRoutes.plain room) message ∧
    r_status room = Waiting ∧
    r_host room = Scenario.alice_user.1 ∧
    r_participants room = [Scenario.alice_user.1] ∧
    r_password room = cr_password Scenario.open_room ∧
    VideoRoutes.get (r_id room) Scenario.alice_user
      (VideoRoutes.create (Scenario.env "r1" 3000) Scenario.open_room
         Scenario.alice_user (reached Scenario.two_users)).2
      = RRoom {| ro_room := room; ro_participantCount := Some 1%nat |} None.
Proof.
  apply (create_room_then_get (Scenario.env "r1" 3000) Scenario.open_room
           Scenario.alice_user (reached Scenario.two_users)).
  vm_compute. reflexivity.
Defined.

Lemma delete_post_effect_witness :
  PostRoutes.remove "p1" Scenario.bob_user (reached Scenario.one_post)
  = (RError "Vous ne pouvez supprimer que vos propres posts",
     reached Scenario.one_post).
Proof.
  apply (proj2 (delete_post_effect "p1" Scenario.bob_user
                  (reached Scenario.one_post) 0 Scenario.hello_post
                  ltac:(vm_compute; reflexivity))).
  vm_compute. discriminate.
Defined.

Lemma delete_product_effect_witness :
  MarketplaceRoutes.remove "a1" None (reached Scenario.one_product)
  = (RError "Authentification requise", reached Scenario.one_product).
Proof.
  apply (proj2 (proj2 (delete_product_effect "a1" Scenario.alice_user
                         (reached Scenario.one_product) 0
                         Scenario.lamp_product
                         ltac:(vm_compute; reflexivity)))).
Defined.

Lemma update_post_effect_witness :
  PostRoutes.update (Scenario.env "x" 5000) "p1" Cases.edit
    Scenario.bob_user (reached Scenario.one_post)
  = (RError "Vous ne pouvez modifier que vos propres posts",
     reached Scenario.one_post).
Proof.
  apply (proj2 (update_post_effect (Scenario.env "x" 5000) "p1" Cases.edit
                  Scenario.bob_user (reached Scenario.one_post) 0
                  Scenario.hello_post ltac:(vm_compute; reflexivity))).
  vm_compute. discriminate.
Defined.

Lemma comment_then_read_witness :
  ∃ comment message,
    (PostRoutes.comment (Scenario.env "c1" 5000) "p1" Cases.reply
       Scenario.bob_user (reached Scenario.one_post)).1
      = RComment comment message ∧
    c_content comment = "hi" ∧
    c_author comment = Scenario.bob_user.1 ∧
    c_postId comment = "p1" ∧
    PostRoutes.comments "p1"
      (PostRoutes.comment (Scenario.env "c1" 5000) "p1" Cases.reply
         Scenario.bob_user (reached Scenario.one_post)).2
      = RComments (JS.push comment (p_comments Scenario.hello_post)) ∧
    ∃ post',
      PostRoutes.get "p1"
        (PostRoutes.comment (Scenario.env "c1" 5000) "p1" Cases.reply
           Scenario.bob_user (reached Scenario.one_post)).2
        = RPost {| po_post := post';
                   po_likesCount :=
                     Some (length (p_likes Scenario.hello_post));
                   po_commentsCount :=
                     Some (S (length (p_comments Scenario.hello_post))) |}
                None.
Proof.
  apply (comment_then_read (Scenario.env "c1" 5000) "p1" Cases.reply
           Scenario.bob_user (reached Scenario.one_post) 0
           Scenario.hello_post).
  vm_compute. reflexivity.
Defined.

Lemma pages_tile_the_list_witness :
  concat ((λ P, paginate (inject_Z (Z.of_nat P)) 2%Q [1; 2; 3; 4; 5])
            <$> seq 1 2)
  = take (2 * 2) [1; 2; 3; 4; 5].
Proof.
  apply (pages_tile_the_list [1; 2; 3; 4; 5] 2%Q 2 2).
  - reflexivity.
  - lia.
Defined.

Lemma feed_page_witness :
  ∃ items totalPages,
    PostRoutes.feed None None (reached Scenario.one_post)
    = RPosts items {| pg_page := 1; pg_limit := 20;
                      pg_total := length (posts (reached Scenario.one_post));
                      pg_totalPages := totalPages |} ∧
    items = PostRoutes.with_counts
              <$> take (Z.to_nat 20)
                    (drop (Z.to_nat ((1 - 1) * 20))
                          (posts (reached Scenario.one_post))) ∧
    (∀ post, post ∈ items →
       po_likesCount post = Some (length (p_likes (po_post post))) ∧
       po_commentsCount post = Some (length (p_comments (po_post post)))) ∧
    (Z.of_nat (length (posts (reached Scenario.one_post))) <= (1 - 1) * 20 →
     items = []) ∧
    (totalPages - 1) * 20
      < Z.of_nat (length (posts (reached Scenario.one_post)))
      <= totalPages * 20.
Proof.
  apply (feed_page None None (reached Scenario.one_post) 1 20).
  - reflexivity.
  - reflexivity.
  - lia.
  - lia.
Defined.

Lemma like_toggles_membership_witness :
  ∃ likes message,
    PostRoutes.like "p1" Scenario.bob_user (reached Scenario.one_post)
    = (RLike (bool_decide (u_id Scenario.bob_user.2 ∈ likes))
             (length likes) message,
       set_posts (<[0%nat := PostRoutes.set_likes likes
                                Scenario.hello_post]>)
                 (reached Scenario.one_post)) ∧
    (u_id Scenario.bob_user.2 ∈ likes
     ↔ u_id Scenario.bob_user.2 ∉ p_likes Scenario.hello_post) ∧
    (∀ other, other ≠ u_id Scenario.bob_user.2 →
              other ∈ likes ↔ other ∈ p_likes Scenario.hello_post).
Proof.
  apply (like_toggles_membership Scenario.one_post "p1" Scenario.bob_user
           0 Scenario.hello_post).
  vm_compute. reflexivity.
Defined.

Lemma likes_are_distinct_users_witness :
  NoDup (p_likes Scenario.hello_post) ∧
  (∀ v, v ∈ p_likes Scenario.hello_post →
        ∃ user, user ∈ users (reached Scenario.one_post) ∧ u_id user = v) ∧
  (length (p_likes Scenario.hello_post)
   ≤ length (users (reached Scenario.one_post)))%nat.
Proof.
  apply (likes_are_distinct_users Scenario.one_post Scenario.hello_post).
  vm_compute. apply list_elem_of_here.
Defined.

Lemma rooms_follow_their_lifecycle_witness :
  (r_participants Scenario.standup = [] →
   r_status Scenario.standup = Ended) ∧
  (r_status Scenario.standup = Ended
   ↔ is_Some (r_endedAt Scenario.standup)) ∧
  (r_status Scenario.standup = Waiting →
   length (r_participants Scenario.standup) = 1%nat) ∧
  (r_participants Scenario.standup ≠ [] →
   user_id (reached Scenario.room_of_two) (r_host Scenario.standup)
   ∈ user_id (reached Scenario.room_of_two)
       <$> r_participants Scenario.standup).
Proof.
  apply (rooms_follow_their_lifecycle Scenario.room_of_two
           Scenario.standup).
  vm_compute. apply list_elem_of_here.
Defined.

Lemma ended_room_is_closed_witness :
  (∀ body, VideoRoutes.join (Scenario.env "x" 6000) "r1" body
             Scenario.alice_user (reached Cases.ended_room)
           = (RError "Cette salle est terminée",
              reached Cases.ended_room)) ∧
  (∃ message, VideoRoutes.end_room (Scenario.env "x" 6000) "r1"
                Scenario.alice_user (reached Cases.ended_room)
              = (RError message, reached Cases.ended_room)) ∧
  (∀ body, ∃ message,
     VideoRoutes.update (Scenario.env "x" 6000) "r1" body
       Scenario.alice_user (reached Cases.ended_room)
     = (RError message, reached Cases.ended_room)) ∧
  (∀ room',
     videoRooms (VideoRoutes.leave (Scenario.env "x" 6000) "r1"
                   Scenario.alice_user (reached Cases.ended_room)).2
       !! 0%nat = Some room' →
     r_status room' = Ended).
Proof.
  apply (ended_room_is_closed (Scenario.env "x" 6000) "r1"
           Scenario.alice_user (reached Cases.ended_room) 0
           Cases.adjourned).
  - vm_compute. reflexivity.
  - reflexivity.
Defined.

Lemma join_requires_password_witness :
  handle (Scenario.env "x" 6000) Cases.guess (reached Cases.guarded_room)
    = (Returned (RError "Mot de passe incorrect"),
       reached Cases.guarded_room) ∧
  derive_auth (Scenario.env "x" 6000) (reached Cases.guarded_room)
    (Some "u3") = inr Scenario.carol_user ∧
  ∃ message,
    VideoRoutes.join (Scenario.env "x" 6000) "r2"
      {| jr_password := Some "guess" |} Scenario.carol_user
      (reached Cases.guarded_room)
    = (RError message, reached Cases.guarded_room).
Proof.
  split; [vm_compute; reflexivity |].
  split; [vm_compute; reflexivity |].
  apply (join_requires_password (Scenario.env "x" 6000) "r2"
           {| jr_password := Some "guess" |} Scenario.carol_user
           (reached Cases.guarded_room) 0 Cases.board).
  - vm_compute. reflexivity.
  - reflexivity.
  - discriminate.
  - vm_compute. reflexivity.
Defined.

Lemma join_then_leave_witness :
  ∃ joined message st1 left,
    VideoRoutes.join (Scenario.env "x" 4000) "r1" {| jr_password := None |}
      Scenario.bob_user (reached Cases.waiting_room)
      = (RRoom (VideoRoutes.with_count None joined) message, st1) ∧
    r_participants joined
      = JS.push Scenario.bob_user.1 (r_participants Cases.lobby) ∧
    r_status joined
      = (if bool_decide (r_status Cases.lobby = Waiting)
            && (length (r_participants Cases.lobby) =? 1)%nat
         then Active else r_status Cases.lobby) ∧
    VideoRoutes.leave (Scenario.env "y" 5000) "r1" Scenario.bob_user st1
      = (RMessage "Vous avez quitté la salle",
         set_rooms (<[0%nat := left]>) st1) ∧
    r_participants left = r_participants Cases.lobby ∧
    r_host left = r_host Cases.lobby ∧
    r_status left = r_status joined.
Proof.
  apply (join_then_leave (Scenario.env "x" 4000) (Scenario.env "y" 5000)
           "r1" {| jr_password := None |} Scenario.bob_user
           (reached Cases.waiting_room) 0 Cases.lobby).
  - vm_compute. reflexivity.
  - vm_compute. reflexivity.
  - discriminate.
  - discriminate.
  - vm_compute. reflexivity.
  - vm_compute. reflexivity.
  - vm_compute. reflexivity.
  - discriminate.
Defined.

Lemma history_is_the_callers_witness :
  ∃ room,
    room ∈ videoRooms (reached Scenario.room_of_two) ∧
    (VideoRoutes.is_user (reached Scenario.room_of_two) Scenario.bob_user
       (r_host room) = true
     ∨ JS.some (VideoRoutes.is_user (reached Scenario.room_of_two)
                  Scenario.bob_user) (r_participants room) = true) ∧
    VideoRoutes.with_count None Scenario.standup
      = VideoRoutes.with_count None room ∧
    (pg_total (pagination 1 20 1)
     ≤ length (videoRooms (reached Scenario.room_of_two)))%nat.
Proof.
  apply (history_is_the_callers None None Scenario.bob_user
           (reached Scenario.room_of_two)
           [VideoRoutes.with_count None Scenario.standup]
           (pagination 1 20 1)
           (VideoRoutes.with_count None Scenario.standup)).
  - vm_compute. reflexivity.
  - apply list_elem_of_here.
Defined.

Lemma references_are_stored_witness : refs_wf (reached Scenario.room_of_two).
Proof. apply (references_are_stored Scenario.room_of_two). Defined.

Lemma comments_belong_to_their_post_witness :
  comments_wf (reached Scenario.one_post).
Proof. apply (comments_belong_to_their_post Scenario.one_post). Defined.
